(** * kext_tools: boot-helper update engine, safe calls and bootcaches parser

    A shallow embedding of the parts of kext_tools that keep the Apple_Boot
    helper partitions in step with the host volume:

    - [safecalls.c]   the scoped ("picky/safe") system calls;
    - [update_boot.c] the helper update: RPS rotation, booter staging,
                      booter activation and the helper loop of [updateBoots];
    - [bootcaches.c]  the bootcaches.plist parser and the staleness check.

    C [int]s are [Z]; strings are [string]; a descriptor is an index into the
    process's descriptor table; every system call is answered by a kernel
    oracle that sees the whole process state (working directory, [errno],
    descriptor table and the history of calls issued so far), so that a
    statement proved for every kernel covers every file-system behaviour,
    including one that changes between two calls. *)

From stdpp Require Import base decidable option list numbers strings gmap.
From Stdlib Require Import ZArith String Ascii Lia.

Local Open Scope string_scope.
Local Open Scope list_scope.
Local Open Scope Z_scope.

(** ** Platform constants (Darwin headers) *)

Definition PATH_MAX : Z := 1024.
Definition MAXBSIZE : Z := 256 * 4096.
Definition EPERM : Z := 1.
Definition ENOENT : Z := 2.
Definition EBADF : Z := 9.
Definition ENOTDIR : Z := 20.
Definition ELAST : Z := 102.

Definition O_RDONLY : Z := 0.
Definition O_WRONLY : Z := 1.
Definition O_RDWR : Z := 2.
Definition O_ACCMODE : Z := 3.
Definition O_CREAT : Z := 512.
Definition O_TRUNC : Z := 1024.
Definition O_EXCL : Z := 2048.

Definition S_IFMT : Z := 61440.
Definition S_IFDIR : Z := 16384.
Definition S_IFREG : Z := 32768.
Definition S_IWUSR : Z := 128.
Definition S_IXUSR : Z := 64.
Definition S_IRGRP : Z := 32.
Definition S_IXGRP : Z := 8.
Definition S_IROTH : Z := 4.
Definition S_IXOTH : Z := 1.

(** C truth value of a comparison. *)
Definition c_bool (b : bool) : Z := if b then 1 else 0.

(** ** Bounded path buffers *)

Definition strlen (s : string) : Z := Z.of_nat (String.length s).

(** [pathcpy(dst, src)]: [strlcpy] into a [PATH_MAX] buffer; [None] is the
    macro's [goto finish]. *)
Definition pathcpy (src : string) : option string :=
  if decide (strlen src >= PATH_MAX) then None else Some src.

(** [pathcat(dst, src)]: [strlcat] into a [PATH_MAX] buffer. *)
Definition pathcat (dst src : string) : option string :=
  if decide (strlen dst + strlen src >= PATH_MAX) then None
  else Some (dst +:+ src).

(** What a [PATH_MAX] buffer holds after a [strlcpy]/[strlcat] that did
    not fit. *)
Definition truncated (s : string) : string :=
  String.substring 0 (Z.to_nat (PATH_MAX - 1)) s.

(** [strlcat] into a [PATH_MAX] buffer: whether it fitted, and the buffer. *)
Definition strlcat_path (dst src : string) : bool * string :=
  if decide (strlen dst + strlen src >= PATH_MAX)
  then (false, truncated (dst +:+ src))
  else (true, dst +:+ src).

(** ** libgen: [dirname(3)] and [basename(3)] *)

Definition is_slash (c : ascii) : bool := Ascii.eqb c "/"%char.

(** Drop the slashes at the head of a (reversed) path. *)
Fixpoint drop_slashes (r : list ascii) : list ascii :=
  match r with
  | c :: r' => if is_slash c then drop_slashes r' else r
  | [] => []
  end.

(** Split a (reversed) path at its first slash. *)
Fixpoint split_component (r : list ascii) : list ascii * list ascii :=
  match r with
  | c :: r' =>
      if is_slash c then ([], r)
      else let '(comp, rest) := split_component r' in (c :: comp, rest)
  | [] => ([], [])
  end.

Definition basename (path : string) : string :=
  match list_ascii_of_string path with
  | [] => "."
  | cs =>
      match drop_slashes (rev cs) with
      | [] => "/"
      | r => string_of_list_ascii (rev (fst (split_component r)))
      end
  end.

Definition dirname (path : string) : string :=
  match list_ascii_of_string path with
  | [] => "."
  | cs =>
      match drop_slashes (rev cs) with
      | [] => "/"
      | r =>
          match snd (split_component r) with
          | [] => "."
          | rest =>
              match drop_slashes rest with
              | [] => "/"
              | d => string_of_list_ascii (rev d)
              end
          end
      end
  end.

(** ** Process state and kernel oracle *)

Record timespec := mkTimespec { tv_sec : Z; tv_nsec : Z }.

(** What [stat]/[fstat] report about a file-system object. *)
Record inode := mkInode {
  st_dev : Z;
  st_ino : Z;
  st_mode : Z;
  st_size : Z;
  st_atimespec : timespec;
  st_mtimespec : timespec
}.

(** An open descriptor: the object it refers to, and (for the record) the
    working directory and the path it was opened with. *)
Record fdesc := mkFdesc {
  fd_ino : inode;
  fd_cwd : inode;
  fd_path : string
}.

Inductive FTS_INFO :=
  FTS_D | FTS_DC | FTS_DEFAULT | FTS_DNR | FTS_DOT | FTS_DP | FTS_ERR
| FTS_F | FTS_NS | FTS_NSOK | FTS_SL | FTS_SLNONE.

Record FTSENT := mkFTSENT {
  fts_info : FTS_INFO;
  fts_accpath : string;
  fts_errno : Z
}.

(** The system calls the modelled code issues. Calls on a descriptor carry
    the descriptor's table entry. *)
Inductive syscall :=
| SysOpen (path : string) (flags mode : Z)
| SysStat (path : string)
| SysFchdir (d : fdesc)
| SysMkdir (name : string) (mode : Z)
| SysRmdir (name : string)
| SysUnlink (name : string)
| SysRename (old new : string)
| SysRead (d : fdesc) (n : Z)
| SysWrite (d : fdesc) (n : Z)
| SysFchmod (d : fdesc) (mode : Z)
| SysFullFsync (d : fdesc)
| SysFsetxattr (d : fdesc) (name value : string)
| SysFutimes (d : fdesc) (atime mtime : Z * Z)
| SysFtsOpen (path : string) (options : Z)
| SysMalloc (n : Z)
| SysBless (path : string) (vinfo : list Z).

(** One issued call, with the working directory it was issued in. *)
Record event := mkEvent { ev_cwd : inode; ev_call : syscall }.

Record World := mkWorld {
  cwd : inode;
  errno : Z;
  fdtab : list (option fdesc);
  trace : list event
}.

Inductive sysret (A : Type) := Ok (a : A) | Err (e : Z).
Arguments Ok {A} a.
Arguments Err {A} e.

(** The kernel: each answer may depend on the whole process state. *)
Record Kernel := mkKernel {
  k_open : World → string → Z → Z → sysret inode;
  k_stat : World → string → sysret inode;
  k_int : World → syscall → sysret Z;
  k_fts : World → string → sysret (list FTSENT * Z)
}.

(** ** The computation monad: state passing, with divergence *)

Inductive outcome (A : Type) := Ret (a : A) | Diverge.
Arguments Ret {A} a.
Arguments Diverge {A}.

Definition M (A : Type) : Type := World → outcome A * World.

#[global] Instance M_ret : MRet M := λ A a w, (Ret a, w).
#[global] Instance M_bind : MBind M := λ A B f m w,
  match m w with
  | (Ret a, w') => f a w'
  | (Diverge, w') => (Diverge, w')
  end.

Definition diverge {A} : M A := λ w, (Diverge, w).

Definition set_errno (e : Z) (w : World) : World :=
  mkWorld (cwd w) e (fdtab w) (trace w).
Definition set_cwd (d : inode) (w : World) : World :=
  mkWorld d (errno w) (fdtab w) (trace w).
Definition set_fdtab (t : list (option fdesc)) (w : World) : World :=
  mkWorld (cwd w) (errno w) t (trace w).
Definition log_call (c : syscall) (w : World) : World :=
  mkWorld (cwd w) (errno w) (fdtab w) (trace w ++ [mkEvent (cwd w) c]).

(** The table entry of descriptor [fd], when it is open. *)
Definition fd_lookup (w : World) (fd : Z) : option fdesc :=
  if decide (fd < 0) then None else mjoin (fdtab w !! Z.to_nat fd).

Section SysCalls.
Variable K : Kernel.

(** A call answered by [k_int]: 0 or a count on success, -1 and [errno]
    on failure. *)
Definition sys_int (c : syscall) : M Z := λ w,
  match k_int K w c with
  | Ok v => (Ret v, log_call c w)
  | Err e => (Ret (-1), set_errno e (log_call c w))
  end.

(** A call on a descriptor; a descriptor that is not open is [EBADF]. *)
Definition sys_fd (fd : Z) (c : fdesc → syscall) : M Z := λ w,
  match fd_lookup w fd with
  | Some d => sys_int (c d) w
  | None => (Ret (-1), set_errno EBADF w)
  end.

(** [open]: the new descriptor remembers its inode, the directory it was
    opened in and the path given. Each [open] gets the next number of the
    table: numbers are not given out again after a [close]. *)
Definition sys_open (path : string) (flags mode : Z) : M Z := λ w,
  match k_open K w path flags mode with
  | Ok ino =>
      let w1 := log_call (SysOpen path flags mode) w in
      (Ret (Z.of_nat (List.length (fdtab w))),
       set_fdtab (fdtab w ++ [Some (mkFdesc ino (cwd w) path)]) w1)
  | Err e => (Ret (-1), set_errno e (log_call (SysOpen path flags mode) w))
  end.

Definition sys_close (fd : Z) : M Z := λ w,
  match fd_lookup w fd with
  | Some _ => (Ret 0, set_fdtab (<[Z.to_nat fd := None]> (fdtab w)) w)
  | None => (Ret (-1), set_errno EBADF w)
  end.

Definition sys_stat (path : string) : M (option inode) := λ w,
  match k_stat K w path with
  | Ok sb => (Ret (Some sb), log_call (SysStat path) w)
  | Err e => (Ret None, set_errno e (log_call (SysStat path) w))
  end.

(** [fstat] reads the descriptor table. *)
Definition sys_fstat (fd : Z) : M (option inode) := λ w,
  match fd_lookup w fd with
  | Some d => (Ret (Some (fd_ino d)), w)
  | None => (Ret None, set_errno EBADF w)
  end.

Definition sys_fchdir (fd : Z) : M Z := λ w,
  match fd_lookup w fd with
  | Some d =>
      match k_int K w (SysFchdir d) with
      | Ok _ => (Ret 0, set_cwd (fd_ino d) (log_call (SysFchdir d) w))
      | Err e => (Ret (-1), set_errno e (log_call (SysFchdir d) w))
      end
  | None => (Ret (-1), set_errno EBADF w)
  end.

Definition get_errno : M Z := λ w, (Ret (errno w), w).

Definition sys_mkdir (name : string) (mode : Z) : M Z :=
  sys_int (SysMkdir name mode).
Definition sys_rmdir (name : string) : M Z := sys_int (SysRmdir name).
Definition sys_unlink (name : string) : M Z := sys_int (SysUnlink name).
Definition sys_rename (old new : string) : M Z :=
  sys_int (SysRename old new).
Definition sys_read (fd n : Z) : M Z := sys_fd fd (λ d, SysRead d n).
Definition sys_write (fd n : Z) : M Z := sys_fd fd (λ d, SysWrite d n).
Definition sys_fchmod (fd mode : Z) : M Z :=
  sys_fd fd (λ d, SysFchmod d mode).
Definition sys_fullfsync (fd : Z) : M Z := sys_fd fd SysFullFsync.
Definition sys_fsetxattr (fd : Z) (name value : string) : M Z :=
  sys_fd fd (λ d, SysFsetxattr d name value).
(** [malloc]: nonzero for a usable buffer, 0 for NULL. *)
Definition sys_malloc (n : Z) : M Z := λ w,
  match k_int K w (SysMalloc n) with
  | Ok v => (Ret v, log_call (SysMalloc n) w)
  | Err e => (Ret 0, set_errno e (log_call (SysMalloc n) w))
  end.
Definition sys_bless (path : string) (vinfo : list Z) : M Z :=
  sys_int (SysBless path vinfo).
Definition sys_futimes (fd : Z) (atime mtime : Z * Z) : M Z :=
  sys_fd fd (λ d, SysFutimes d atime mtime).

(** [fts_open] followed by the [fts_read]s up to the end of the traversal:
    the entries in the order read, and the [errno] left by the last
    [fts_read]. *)
Definition sys_fts (path : string) (options : Z)
    : M (option (list FTSENT * Z)) := λ w,
  match k_fts K w path with
  | Ok r => (Ret (Some r), log_call (SysFtsOpen path options) w)
  | Err e => (Ret None, set_errno e (log_call (SysFtsOpen path options) w))
  end.
End SysCalls.


(** ** Data of bootcaches.h and update_boot.c *)

(** A property list value, as CoreFoundation hands it to the parser. *)
#[local] Unset Elimination Schemes.
Inductive plist :=
| PString (s : string)
| PArray (l : list plist)
| PDict (d : gmap string plist)
| POther (tag : Z).
#[local] Set Elimination Schemes.

Record cachedPath := mkCachedPath {
  rpath : string;
  tspath : string;
  tstamps : (Z * Z) * (Z * Z)
}.

(** [struct bootCaches]; the three pointers into the arrays are indices. *)
Record bootCaches := mkBootCaches {
  cachefd : Z;
  volUUIDStr : string;
  volname : string;
  root : string;
  cacheinfo : option (gmap string plist);
  exts : string;
  nrps : Z;
  rpspaths : list cachedPath;
  nmisc : Z;
  miscpaths : list cachedPath;
  efibooter : cachedPath;
  ofbooter : cachedPath;
  mkext : option nat;
  bootconfig : option nat;
  label : option nat
}.

Inductive bootReversions :=
| nothingSerious
| nukedLabels
| copyingOFBooter
| copyingEFIBooter
| copiedBooters
| activatingOFBooter
| activatingEFIBooter
| activatedBooters.

(** [struct updatingVol]; of its DiskArbitration handles only whether
    [curBoot] is set is kept. *)
Record updatingVol := mkUpdatingVol {
  curbootfd : Z;
  curMount : string;
  curBoot : bool;
  curRPS : string;
  efidst : string;
  ofdst : string;
  changestate : bootReversions;
  doRPS : bool;
  doMisc : bool;
  doBooters : bool;
  caches : bootCaches
}.

Definition set_changestate (c : bootReversions) (up : updatingVol) :=
  mkUpdatingVol (curbootfd up) (curMount up) (curBoot up) (curRPS up)
    (efidst up) (ofdst up) c (doRPS up) (doMisc up) (doBooters up) (caches up).
Definition set_ofdst (p : string) (up : updatingVol) :=
  mkUpdatingVol (curbootfd up) (curMount up) (curBoot up) (curRPS up)
    (efidst up) p (changestate up) (doRPS up) (doMisc up) (doBooters up)
    (caches up).
Definition set_efidst (p : string) (up : updatingVol) :=
  mkUpdatingVol (curbootfd up) (curMount up) (curBoot up) (curRPS up) p
    (ofdst up) (changestate up) (doRPS up) (doMisc up) (doBooters up)
    (caches up).
Definition set_doMisc (b : bool) (up : updatingVol) :=
  mkUpdatingVol (curbootfd up) (curMount up) (curBoot up) (curRPS up)
    (efidst up) (ofdst up) (changestate up) (doRPS up) b (doBooters up)
    (caches up).

(** The C test [cpath.rpath[0]]: the booter has a path. *)
Definition has_rpath (cp : cachedPath) : bool :=
  match rpath cp with EmptyString => false | String _ _ => true end.

(** ** safecalls.c *)

Definition FTS_PHYSICAL : Z := 16.
Definition FTS_XDEV : Z := 64.
Definition FTS_NOSTAT : Z := 8.

Section SafeCalls.
Variable K : Kernel.

(** [spolicy]: the candidate must be on the scope's device. *)
Definition spolicy (scopefd candfd : Z) : M Z :=
  dirsb ← sys_fstat candfd;
  match dirsb with
  | None => mret (-1)
  | Some dirsb =>
      volsb ← sys_fstat scopefd;
      match volsb with
      | None => mret (-1)
      | Some volsb =>
          if decide (st_dev volsb ≠ st_dev dirsb) then mret EPERM
          else mret 0
      end
  end.

(** The locals of [schdirparent] when control reaches [finish]:
    [bsderr], [dirfd], [savedir], [*olddir] and the [child] buffer. *)
Definition schdirparent_body (fdvol : Z) (path : option string)
    (olddir child : bool) : M (Z * Z * Z * Z * string) :=
  match path with
  | None => mret (-1, -1, -1, -1, "")
  | Some path =>
  match pathcpy (dirname path) with
  | None => mret (-1, -1, -1, -1, "")
  | Some parent =>
  dirfd ← sys_open K parent O_RDONLY 0;
  if decide (dirfd = -1) then mret (-1, dirfd, -1, -1, "") else
  pol ← spolicy fdvol dirfd;
  if decide (pol ≠ 0) then mret (-1, dirfd, -1, -1, "") else
  match (if child then pathcpy (basename path) else Some "") with
  | None => mret (-1, dirfd, -1, -1, "")
  | Some childv =>
  if olddir then
    savedir ← sys_open K "." O_RDONLY 0;
    if decide (savedir = -1) then mret (-1, dirfd, savedir, -1, childv) else
    bsderr ← sys_fchdir K dirfd;
    mret (bsderr, dirfd, savedir, savedir, childv)
  else
    bsderr ← sys_fchdir K dirfd;
    mret (bsderr, dirfd, -1, -1, childv)
  end end end.

(** [schdirparent(fdvol, path, olddir, child)]; [olddir] and [child] say
    whether the two output pointers are non-NULL. The result is the return
    value, the value left in [*olddir] and the [child] buffer. *)
Definition schdirparent (fdvol : Z) (path : option string)
    (olddir child : bool) : M (Z * Z * string) :=
  '(bsderr, dirfd, savedir, olddirv, childv) ←
     schdirparent_body fdvol path olddir child;
  (if decide (bsderr ≠ 0) then
     (if decide (savedir ≠ -1) then sys_close savedir else mret 0);;
     (if olddir && bool_decide (olddirv ≠ -1)
      then sys_close olddirv else mret 0)
   else mret 0);;
  (if decide (dirfd ≠ -1) then sys_close dirfd else mret 0);;
  mret (bsderr, olddirv, childv).

Definition restoredir (savedir : Z) : M Z :=
  if decide (savedir ≠ -1) then
    cherr ← sys_fchdir K savedir;
    clerr ← sys_close savedir;
    mret (if decide (cherr ≠ 0) then cherr else clerr)
  else mret (-1).

(** The [RESTOREDIR] macro (its log message is not modelled). *)
Definition RESTOREDIR (savedir : Z) : M unit :=
  if decide (savedir ≠ -1) then _ ← restoredir savedir; mret ()
  else mret ().

Definition sopen (fdvol : Z) (path : string) (flags mode : Z) : M Z :=
  let flags :=
    if decide (Z.land flags O_CREAT ≠ 0) then Z.lor flags O_EXCL else flags in
  '(err, savedir, child) ← schdirparent fdvol (Some path) true true;
  '(rfd, candfd) ←
    (if decide (err ≠ 0) then mret (-1, -1) else
     candfd ← sys_open K child flags mode;
     if decide (candfd = -1) then mret (-1, candfd)
     else mret (candfd, candfd));
  (if decide (candfd ≠ -1 ∧ rfd ≠ candfd) then sys_close candfd else mret 0);;
  RESTOREDIR savedir;;
  mret rfd.

Definition schdir (fdvol : Z) (path : string) : M (Z * Z) :=
  match pathcpy path with
  | None => mret (-1, -1)
  | Some cpath =>
      match pathcat cpath "/." with
      | None => mret (-1, -1)
      | Some cpath =>
          '(r, savedir, _) ← schdirparent fdvol (Some cpath) true false;
          mret (r, savedir)
      end
  end.

Definition smkdir (fdvol : Z) (path : string) (mode : Z) : M Z :=
  '(err, savedir, child) ← schdirparent fdvol (Some path) true true;
  bsderr ← (if decide (err ≠ 0) then mret (-1) else sys_mkdir K child mode);
  RESTOREDIR savedir;;
  mret bsderr.

Definition srmdir (fdvol : Z) (path : string) : M Z :=
  '(err, savedir, child) ← schdirparent fdvol (Some path) true true;
  bsderr ← (if decide (err ≠ 0) then mret (-1) else sys_rmdir K child);
  RESTOREDIR savedir;;
  mret bsderr.

Definition sunlink (fdvol : Z) (path : string) : M Z :=
  '(err, savedir, child) ← schdirparent fdvol (Some path) true true;
  bsderr ← (if decide (err ≠ 0) then mret (-1) else sys_unlink K child);
  RESTOREDIR savedir;;
  mret bsderr.

Definition srename (fdvol : Z) (oldpath newpath : string) : M Z :=
  match pathcpy (basename newpath) with
  | None => mret (-1)
  | Some newname =>
      '(err, savedir, oldname) ← schdirparent fdvol (Some oldpath) true true;
      bsderr ← (if decide (err ≠ 0) then mret (-1)
                else sys_rename K oldname newname);
      RESTOREDIR savedir;;
      mret bsderr
  end.

(** The body of the [fts_read] loop of [sdeepunlink]. *)
Fixpoint sdeepunlink_loop (fdvol : Z) (ents : list FTSENT) (rval : Z) : M Z :=
  match ents with
  | [] => mret rval
  | fent :: ents =>
      r ← match fts_info fent with
          | FTS_DC | FTS_D | FTS_DOT => mret rval
          | FTS_DNR | FTS_ERR | FTS_NS => mret (Z.lor rval (fts_errno fent))
          | FTS_DP =>
              e ← srmdir fdvol (fts_accpath fent); mret (Z.lor rval e)
          | _ =>
              e ← sunlink fdvol (fts_accpath fent); mret (Z.lor rval e)
          end;
      sdeepunlink_loop fdvol ents r
  end.

Definition sdeepunlink (fdvol : Z) (path : string) : M Z :=
  let ftsoptions := Z.lor (Z.lor FTS_PHYSICAL FTS_XDEV) FTS_NOSTAT in
  fts ← sys_fts K path ftsoptions;
  match fts with
  | None => mret (ELAST + 1)
  | Some (ents, last_errno) =>
      rval ← sdeepunlink_loop fdvol ents 0;
      (λ w, (Ret (), set_errno last_errno w));;
      e ← get_errno;
      mret (if decide (rval = 0) then e else rval)
  end.

(** [sdeepmkdir]; [n] bounds the depth of the recursion on the parent. *)
Fixpoint sdeepmkdir_rec (n : nat) (fdvol : Z) (path : string) (mode : Z)
    : M Z :=
  match n with
  | O => diverge
  | S n =>
      if decide (strlen path = 0) then mret (-1) else
      sb ← sys_stat K path;
      match sb with
      | Some sb =>
          (* [sb.st_mode & S_IFDIR == 0], as C parses it *)
          if decide (Z.land (st_mode sb) (c_bool (S_IFDIR =? 0)) ≠ 0)
          then mret ENOTDIR
          else mret 0
      | None =>
          e ← get_errno;
          if decide (e ≠ ENOENT) then mret (-1) else
          match pathcpy (dirname path) with
          | None => mret (-1)
          | Some parent =>
              bsderr ← sdeepmkdir_rec n fdvol parent mode;
              if decide (bsderr ≠ 0) then mret bsderr
              else smkdir fdvol path mode
          end
      end
  end.

(** [dirname] shortens a path until it reaches "." or "/", which it leaves
    as they are. The recursion is followed for as many calls as the path
    has characters, and two more: by then it has come to one of these two,
    and goes on with the same path for as long as [stat] answers [ENOENT]
    for it (lemma [sdeepmkdir_cut]). *)
Definition sdeepmkdir (fdvol : Z) (path : string) (mode : Z) : M Z :=
  sdeepmkdir_rec (String.length path + 2) fdvol path mode.

(** The copy loop of [scopyfile]: [true] when every block went through. *)
Fixpoint scopyfile_loop (n : nat) (srcfd dstfd bytesLeft : Z) : M bool :=
  if decide (bytesLeft > 0) then
    match n with
    | O => diverge
    | S n =>
        let thisTime := Z.min bytesLeft MAXBSIZE in
        r ← sys_read K srcfd thisTime;
        if decide (r ≠ thisTime) then mret false else
        r ← sys_write K dstfd thisTime;
        if decide (r ≠ thisTime) then mret false else
        scopyfile_loop n srcfd dstfd (bytesLeft - thisTime)
    end
  else mret true.

(** The locals of [scopyfile] at [finish]: [bsderr], [srcfd], [dstfd]. *)
Definition scopyfile_body (srcfdvol : Z) (srcpath : string)
    (dstfdvol : Z) (dstpath : string) : M (Z * Z * Z) :=
  srcfd ← sopen srcfdvol srcpath O_RDONLY 0;
  if decide (srcfd = -1) then mret (-1, srcfd, -1) else
  srcsb ← sys_fstat srcfd;
  match srcsb with
  | None => mret (-1, srcfd, -1)
  | Some srcsb =>
  let dirmode :=
    Z.lor (Z.lor (Z.land (st_mode srcsb) (Z.lnot S_IFMT)) S_IWUSR) S_IXUSR in
  let dirmode :=
    if decide (Z.land dirmode S_IRGRP ≠ 0) then Z.lor dirmode S_IXGRP
    else dirmode in
  let dirmode :=
    if decide (Z.land dirmode S_IROTH ≠ 0) then Z.lor dirmode S_IXOTH
    else dirmode in
  match pathcpy (dirname dstpath) with
  | None => mret (-1, srcfd, -1)
  | Some dstparent =>
  r ← sdeepmkdir dstfdvol dstparent dirmode;
  if decide (r ≠ 0) then mret (-1, srcfd, -1) else
  _ ← sunlink dstfdvol dstpath;
  dstfd ← sopen dstfdvol dstpath (Z.lor O_CREAT O_WRONLY)
            (Z.lor (st_mode srcsb) S_IWUSR);
  if decide (dstfd = -1) then mret (-1, srcfd, dstfd) else
  buf ← sys_malloc K MAXBSIZE;
  if decide (buf = 0) then mret (-1, srcfd, dstfd) else
  ok ← scopyfile_loop (Z.to_nat (st_size srcsb / MAXBSIZE) + 1)
         srcfd dstfd (st_size srcsb);
  if negb ok then mret (-1, srcfd, dstfd) else
  bsderr ← sys_fchmod K dstfd (st_mode srcsb);
  mret (bsderr, srcfd, dstfd)
  end end.

Definition scopyfile (srcfdvol : Z) (srcpath : string)
    (dstfdvol : Z) (dstpath : string) : M Z :=
  '(bsderr, srcfd, dstfd) ← scopyfile_body srcfdvol srcpath dstfdvol dstpath;
  (if decide (srcfd ≠ -1) then sys_close srcfd else mret 0);;
  (if decide (dstfd ≠ -1) then sys_close dstfd else mret 0);;
  mret bsderr.

End SafeCalls.

(** ** update_boot.c *)

Definition kBootDirR := "com.apple.boot.R".
Definition kBootDirP := "com.apple.boot.P".
Definition kBootDirS := "com.apple.boot.S".
Definition OLDEXT := ".old".
Definition XATTR_FINDERINFO_NAME := "com.apple.FinderInfo".

Section UpdateBoot.
Variable K : Kernel.

(** [FindRPSDir]: the return value and the [prev], [current] and [next]
    buffers. *)
Definition FindRPSDir (up : updatingVol) : M (Z * string * string * string) :=
  let fail := mret (ELAST + 1, "", "", "") in
  match pathcpy (curMount up) with None => fail | Some rpath =>
  match pathcat rpath "/" with None => fail | Some rpath =>
  match pathcpy rpath with None => fail | Some ppath =>
  match pathcpy rpath with None => fail | Some spath =>
  match pathcat rpath kBootDirR with None => fail | Some rpath =>
  match pathcat ppath kBootDirP with None => fail | Some ppath =>
  match pathcat spath kBootDirS with None => fail | Some spath =>
  r ← sys_stat K rpath;
  let haveR := bool_decide (is_Some r) in
  p ← sys_stat K ppath;
  let haveP := bool_decide (is_Some p) in
  s ← sys_stat K spath;
  let haveS := bool_decide (is_Some s) in
  let '(curp, nextp, prevp) :=
    if haveR && haveP && haveS then (rpath, ppath, spath)
    else if haveR && haveP then (ppath, spath, rpath)
    else if haveR && haveS then (rpath, ppath, spath)
    else if haveP && haveS then (spath, rpath, ppath)
    else if haveR then (rpath, ppath, spath)
    else if haveP then (ppath, spath, rpath)
    else if haveS then (spath, rpath, ppath)
    else (rpath, ppath, spath) in
  match pathcpy prevp with None => mret (ELAST + 1, "", "", "") | Some prev =>
  match pathcpy curp with None => mret (ELAST + 1, prev, "", "") | Some cur =>
  match pathcpy nextp with None => mret (ELAST + 1, prev, cur, "") | Some next =>
  mret (0, prev, cur, next)
  end end end end end end end end end end.

(** [ucopyBooters]: the return value and the updated [*up]; [inl] is the
    state at a [goto finish]. *)
Definition ucopyBooters_of (up : updatingVol)
    : M (updatingVol + updatingVol) :=
  if has_rpath (ofbooter (caches up)) then
    match pathcpy (root (caches up)) with None => mret (inl up) | Some srcpath =>
    match pathcat srcpath (rpath (ofbooter (caches up))) with
    | None => mret (inl up) | Some srcpath =>
    match pathcpy (curMount up) with
    | None => mret (inl (set_ofdst (truncated (curMount up)) up)) | Some dst =>
    match pathcat dst (rpath (ofbooter (caches up))) with
    | None =>
        mret (inl (set_ofdst
                (truncated (dst +:+ rpath (ofbooter (caches up)))) up))
    | Some dst =>
    let up := set_ofdst dst up in
    match pathcpy (ofdst up) with None => mret (inl up) | Some oldpath =>
    match pathcat oldpath OLDEXT with None => mret (inl up) | Some oldpath =>
    _ ← sunlink K (curbootfd up) oldpath;
    r ← srename K (curbootfd up) (ofdst up) oldpath;
    if decide (r ≠ 0) then mret (inl up) else
    r ← scopyfile K (cachefd (caches up)) srcpath (curbootfd up) (ofdst up);
    if decide (r ≠ 0) then mret (inl up) else
    mret (inr up)
    end end end end end end
  else mret (inr up).

Definition ucopyBooters_efi (up : updatingVol)
    : M (updatingVol + updatingVol) :=
  if has_rpath (efibooter (caches up)) then
    match pathcpy (root (caches up)) with None => mret (inl up) | Some srcpath =>
    match pathcat srcpath (rpath (efibooter (caches up))) with
    | None => mret (inl up) | Some srcpath =>
    match pathcpy (curMount up) with
    | None => mret (inl (set_efidst (truncated (curMount up)) up)) | Some dst =>
    match pathcat dst (rpath (efibooter (caches up))) with
    | None =>
        mret (inl (set_efidst
                (truncated (dst +:+ rpath (efibooter (caches up)))) up))
    | Some dst =>
    let up := set_efidst dst up in
    match pathcpy (efidst up) with None => mret (inl up) | Some oldpath =>
    match pathcat oldpath OLDEXT with None => mret (inl up) | Some oldpath =>
    _ ← sunlink K (curbootfd up) oldpath;
    r ← srename K (curbootfd up) (efidst up) oldpath;
    e ← get_errno;
    if decide (r ≠ 0 ∧ e ≠ ENOENT) then mret (inl up) else
    r ← scopyfile K (cachefd (caches up)) srcpath (curbootfd up) (efidst up);
    if decide (r ≠ 0) then mret (inl up) else
    mret (inr up)
    end end end end end end
  else mret (inr up).

Definition ucopyBooters (up : updatingVol) : M (Z * updatingVol) :=
  let up := set_changestate copyingOFBooter up in
  r ← ucopyBooters_of up;
  match r with
  | inl up => mret (ELAST + 1, up)
  | inr up =>
      let up := set_changestate copyingEFIBooter up in
      r ← ucopyBooters_efi up;
      match r with
      | inl up => mret (ELAST + 1, up)
      | inr up => mret (0, set_changestate copiedBooters up)
      end
  end.

(** [activateBooters]. Each part yields the locals at a [goto finish]
    ([inl]: [rval] and [fd]) or falls through ([inr]). *)
Definition activateBooters_of (up : updatingVol) : M (Z * Z + Z) :=
  let rval := ELAST + 1 in
  if has_rpath (ofbooter (caches up)) then
    fd ← sopen K (curbootfd up) (ofdst up) O_RDWR 0;
    if decide (fd = -1) then mret (inl (rval, fd)) else
    r ← sys_fullfsync K fd;
    if decide (r ≠ 0) then mret (inl (rval, fd)) else
    r ← sys_fsetxattr K fd XATTR_FINDERINFO_NAME "tbxichrp";
    if decide (r ≠ 0) then mret (inl (rval, fd)) else
    _ ← sys_close fd;
    let fd := -1 in
    match pathcpy (dirname (ofdst up)) with
    | None => mret (inl (rval, fd))
    | Some parent =>
        (* [pathcpy(parent, dirname(up->ofdst));  goto finish;]: the
           statements that follow in the source are never reached *)
        mret (inl (rval, fd))
    end
  else mret (inr 0).

Definition activateBooters_efi (up : updatingVol) (vinfo0 : Z)
    : M (Z * Z + Z * Z) :=
  let rval := ELAST + 1 in
  if has_rpath (efibooter (caches up)) then
    fd ← sopen K (curbootfd up) (efidst up) O_RDONLY 0;
    if decide (fd = -1) then mret (inl (rval, fd)) else
    r ← sys_fullfsync K fd;
    if decide (r ≠ 0) then mret (inl (rval, fd)) else
    sb ← sys_fstat fd;
    match sb with None => mret (inl (rval, fd)) | Some sb =>
    _ ← sys_close fd;
    let fd := -1 in
    let vinfo1 := st_ino sb `mod` 2 ^ 32 in
    if decide (vinfo0 = 0) then
      match pathcpy (dirname (efidst up)) with
      | None => mret (inl (rval, fd))
      | Some parent =>
          fd ← sopen K (curbootfd up) parent O_RDONLY 0;
          if decide (fd = -1) then mret (inl (rval, fd)) else
          sb ← sys_fstat fd;
          match sb with None => mret (inl (rval, fd)) | Some sb =>
          _ ← sys_close fd;
          mret (inr (st_ino sb `mod` 2 ^ 32, vinfo1))
          end
      end
    else mret (inr (vinfo0, vinfo1))
    end
  else mret (inr (vinfo0, 0)).

Definition activateBooters_body (up : updatingVol)
    : M (Z * Z * updatingVol) :=
  let up := set_changestate activatingOFBooter up in
  r ← activateBooters_of up;
  match r with
  | inl (rval, fd) => mret (rval, fd, up)
  | inr vinfo0 =>
  let up := set_changestate activatingEFIBooter up in
  r ← activateBooters_efi up vinfo0;
  match r with
  | inl (rval, fd) => mret (rval, fd, up)
  | inr (vinfo0, vinfo1) =>
  (* blessing happens by updating the root of the volume *)
  '(r, fd) ← schdir K (curbootfd up) (curMount up);
  if decide (r ≠ 0) then mret (ELAST + 1, fd, up) else
  rval ← sys_bless K "." [vinfo0; vinfo1; 0; 0; 0; 0; 0; 0];
  if decide (rval ≠ 0) then mret (rval, fd, up) else
  _ ← restoredir K fd;
  mret (rval, -1, set_changestate activatedBooters up)
  end end.

Definition activateBooters (up : updatingVol) : M (Z * updatingVol) :=
  '(rval, fd, up) ← activateBooters_body up;
  (if decide (fd ≠ -1) then sys_close fd else mret 0);;
  mret (rval, up).

(** [activateMisc], which [revertState] calls to write the label again,
    is taken as it comes. *)
Variable activateMisc : updatingVol → Z → M Z.

(** [revertState], for one booter: rename the [.old] booter back. [None] is
    a [goto finish], [Some r] the value or-ed into [rval]. *)
Definition revertState_booter (up : updatingVol) (cp : cachedPath)
    : M (option Z) :=
  if has_rpath cp then
    match pathcpy (curMount up) with None => mret None | Some path =>
    match pathcat path (rpath cp) with None => mret None | Some path =>
    match pathcpy path with None => mret None | Some oldpath =>
    match pathcat oldpath OLDEXT with None => mret None | Some oldpath =>
    _ ← sunlink K (curbootfd up) path;
    r ← srename K (curbootfd up) oldpath path;
    mret (Some r)
    end end end end
  else mret (Some 0).

(** The cases of the [switch] of [revertState], from the last one up; each
    falls through to the next. *)
Definition revertState_labels (up : updatingVol) (rval : Z)
    : M (Z * updatingVol) :=
  r ← activateMisc (set_doMisc false up) 0;
  mret (Z.lor rval r, up).

Definition revertState_of (up : updatingVol) (rval : Z)
    : M (Z * updatingVol) :=
  r ← revertState_booter up (ofbooter (caches up));
  match r with
  | None => mret (rval, up)
  | Some r => revertState_labels up (Z.lor rval r)
  end.

Definition revertState_efi (up : updatingVol) (rval : Z)
    : M (Z * updatingVol) :=
  r ← revertState_booter up (efibooter (caches up));
  match r with
  | None => mret (rval, up)
  | Some r => revertState_of up (Z.lor rval r)
  end.

Definition revertState (up : updatingVol) : M (Z * updatingVol) :=
  match changestate up with
  | activatedBooters =>
      let '(ok, p) := strlcat_path (ofdst up) OLDEXT in
      let up := set_ofdst p up in
      if negb ok then mret (0, up) else
      let '(ok, p) := strlcat_path (efidst up) OLDEXT in
      let up := set_efidst p up in
      if negb ok then mret (0, up) else
      '(r, up) ← activateBooters up;
      revertState_efi up (Z.lor 0 r)
  | activatingEFIBooter | activatingOFBooter | copiedBooters
  | copyingEFIBooter => revertState_efi up 0
  | copyingOFBooter => revertState_of up 0
  | nukedLabels => revertState_labels up 0
  | nothingSerious => mret (0, up)
  end.

(** [nukeFallbacks], for one booter: unlink its [.old] copy. *)
Definition nukeFallbacks_booter (up : updatingVol) (cp : cachedPath)
    : M (option Z) :=
  if has_rpath cp then
    match pathcpy (curMount up) with None => mret None | Some delpath =>
    match pathcat delpath (rpath cp) with None => mret None | Some delpath =>
    match pathcat delpath OLDEXT with None => mret None | Some delpath =>
    bsderr ← sunlink K (curbootfd up) delpath;
    e ← get_errno;
    mret (Some (if decide (bsderr ≠ 0 ∧ e ≠ ENOENT) then bsderr else 0))
    end end end
  else mret (Some 0).

Definition nukeFallbacks (up : updatingVol) : M Z :=
  if negb (curBoot up) then mret 0 else
  (* [inl]: the value of [rval] at a [goto finish] *)
  r ← (if doBooters up then
         r1 ← nukeFallbacks_booter up (ofbooter (caches up));
         match r1 with
         | None => mret (inl 0)
         | Some r1 =>
             let rval := Z.lor 0 r1 in
             r2 ← nukeFallbacks_booter up (efibooter (caches up));
             match r2 with
             | None => mret (inl rval)
             | Some r2 => mret (inr (Z.lor rval r2))
             end
         end
       else mret (inr 0));
  match r with
  | inl rval => mret rval
  | inr rval =>
      if doRPS up then
        '(r, delpath, _, _) ← FindRPSDir up;
        if decide (r = 0) then
          bsderr ← sdeepunlink K (curbootfd up) delpath;
          mret (if decide (bsderr ≠ 0 ∧ bsderr ≠ ENOENT)
                then Z.lor rval bsderr else rval)
        else mret rval
      else mret rval
  end.

End UpdateBoot.

(** *** The helper loop of [updateBoots]

    The routines [updateBoots] calls are taken as they come: each has a
    return value and an effect on the environment [E] (the disks, the
    DiskArbitration session and [struct updatingVol]). The run keeps a
    journal of the calls made and of the helpers counted in [bootupdates]. *)

Inductive routine :=
| r_takeVolumeForPaths | r_readCaches | r_check_mkext | r_putVolumeForPath
| r_rebuild_mkext | r_booterInfo | r_needUpdates | r_DASessionCreate
| r_mountBoot | r_ucopyRPS | r_ucopyMisc | r_nukeLabels | r_ucopyBooters
| r_activateBooters | r_activateRPS | r_activateMisc | r_revertState
| r_nukeFallbacks | r_unmountBoot | r_applyStamps.

Inductive journal_entry :=
| Called (r : routine) (arg : Z) (ret : Z)
| BootUpdated (i : Z).

Definition EX_TEMPFAIL : Z := 75.

Section UpdateBoots.
Context {E : Type}.

(** [run r arg doRPS doMisc doBooters]: the return value of routine [r]
    and its effect. [r_readCaches] returns nonzero for a [bootCaches];
    [r_booterInfo] stands for the calls from the first [fstat] to
    [CFArrayGetCount] and returns the number of helpers, or a negative
    value when one of them fails. *)
Variable run : routine → Z → bool * bool * bool → E → Z * E.
(** [needUpdates]: return value, [doAny], [doRPS], [doBooters], [doMisc]. *)
Variable needUpdates : E → (Z * bool * bool * bool * bool) * E.
(** [up.changestate = nothingSerious]. *)
Variable reset_changestate : E → E.

Definition U (A : Type) : Type := E * list journal_entry → A * (E * list journal_entry).

Definition call (r : routine) (arg : Z) (fl : bool * bool * bool) : U Z :=
  λ '(e, j),
    let '(ret, e') := run r arg fl e in (ret, (e', j ++ [Called r arg ret])).

(** One turn of the [for] loop: the new value of [bootupdates]. *)
Definition updateBoots_helper (fl : bool * bool * bool) (i bootupdates : Z)
    : U Z := λ st,
  let '(doRPS, doMisc, doBooters) := fl in
  let '(e, j) := st in
  let st := (reset_changestate e, j) in
  let '(ok, st) :=
    let '(r, st) := call r_mountBoot i fl st in
    if decide (r ≠ 0) then (false, st) else
    let '(r, st) := if doRPS then call r_ucopyRPS 0 fl st else (0, st) in
    if decide (r ≠ 0) then (false, st) else
    let '(_, st) := if doMisc then call r_ucopyMisc 0 fl st else (0, st) in
    let '(r, st) := call r_nukeLabels 0 fl st in
    if decide (r ≠ 0) then (false, st) else
    let '(r, st) := if doBooters then call r_ucopyBooters 0 fl st else (0, st) in
    if decide (r ≠ 0) then (false, st) else
    let '(r, st) :=
      if doBooters then call r_activateBooters 0 fl st else (0, st) in
    if decide (r ≠ 0) then (false, st) else
    let '(r, st) := if doRPS then call r_activateRPS 0 fl st else (0, st) in
    if decide (r ≠ 0) then (false, st) else
    let '(r, st) := call r_activateMisc i fl st in
    if decide (r ≠ 0) then (false, st) else
    let '(e, j) := st in
    (true, (reset_changestate e, j ++ [BootUpdated i])) in
  let bootupdates := if ok then bootupdates + 1 else bootupdates in
  (* bootfail: *)
  let '(_, st) := call r_revertState 0 fl st in
  let '(_, st) := call r_nukeFallbacks 0 fl st in
  let '(_, st) := call r_unmountBoot 0 fl st in
  (bootupdates, st).

(** [for (i = 0; i < bootcount; i++)], with [n] turns left. *)
Fixpoint updateBoots_loop (fl : bool * bool * bool) (n : nat)
    (i bootupdates : Z) : U Z := λ st,
  match n with
  | O => (bootupdates, st)
  | S n =>
      let '(bootupdates, st) := updateBoots_helper fl i bootupdates st in
      updateBoots_loop fl n (i + 1) bootupdates st
  end.

(** From the call of bless for the booter information to [applyStamps]:
    the value of [rval] at [finish]. *)
Definition updateBoots_update (force : bool) : U Z := λ st,
  let nofl := (false, false, false) in
  let '(bootcount, st) := call r_booterInfo 0 nofl st in
  if decide (bootcount < 0) then (ELAST + 1, st) else
  if decide (bootcount = 0) then (0, st) else
  let '(e, j) := st in
  let '(r, doAny, doRPS, doBooters, doMisc, e) := needUpdates e in
  let st := (e, j ++ [Called r_needUpdates 0 r]) in
  if decide (r ≠ 0) then (ELAST + 1, st) else
  if negb doAny && negb force then (0, st) else
  let fl := if force then (true, true, true) else (doRPS, doMisc, doBooters) in
  let '(da, st) := call r_DASessionCreate 0 fl st in
  if decide (da = 0) then (ELAST + 1, st) else
  let '(bootupdates, st) :=
    updateBoots_loop fl (Z.to_nat bootcount) 0 0 st in
  if decide (bootupdates ≠ bootcount) then (ELAST + 1, st) else
  let '(r, st) := call r_applyStamps 0 fl st in
  if decide (r ≠ 0) then (ELAST + 1, st) else
  (0, st).

(** The value of [rval] at [finish]. *)
Definition updateBoots_body (force : bool) : U Z := λ st,
  let nofl := (false, false, false) in
  let '(r, st) := call r_takeVolumeForPaths 0 nofl st in
  if decide (r ≠ 0) then (0, st) else
  let '(c, st) := call r_readCaches 0 nofl st in
  if decide (c = 0) then (0, st) else
  let '(stale, st) := call r_check_mkext 0 nofl st in
  let '(go, st) :=
    if decide (stale ≠ 0) then
      let '(_, st) := call r_putVolumeForPath EX_TEMPFAIL nofl st in
      let '(r, st) := call r_rebuild_mkext 0 nofl st in
      if decide (r ≠ 0) then (false, st) else
      let '(r, st) := call r_takeVolumeForPaths 0 nofl st in
      if decide (r ≠ 0) then (false, st) else (true, st)
    else (true, st) in
  if negb go then (ELAST + 1, st) else
  updateBoots_update force st.

Definition updateBoots (force : bool) : U Z := λ st,
  let '(rval, st) := updateBoots_body force st in
  let '(_, st) := call r_putVolumeForPath rval (false, false, false) st in
  (rval, st).

End UpdateBoots.

(** ** bootcaches.c *)

Definition kTSCacheDir := "/System/Library/Caches/com.apple.bootstamps/".
Definition kBCPreBootKey := "PreBootPaths".
Definition kBCLabelKey := "DiskLabel".
Definition kBCBootersKey := "BooterPaths".
Definition kBCEFIBooterKey := "EFIBooter".
Definition kBCPostBootKey := "PostBootPaths".
Definition kBCMKextKey := "MKext".
Definition kBCArchsKey := "Archs".
Definition kBCExtensionsDirKey := "ExtensionsDir".
Definition kBCPathKey := "Path".
Definition kBCAdditionalPathsKey := "AdditionalPaths".
Definition kBCBootConfigKey := "BootConfig".

Definition NAME_MAX : Z := 255.
Definition INT_MAX : Z := 2147483647.
(** [2*sizeof(CFUUIDBytes) + 5]. *)
Definition NCHARSUUID : Z := 2 * 16 + 5.

(** [gsub(old, new, s)]: every [old] in [s] becomes [new]. *)
Fixpoint gsub (old new : ascii) (s : string) : string :=
  match s with
  | EmptyString => EmptyString
  | String c s => String (if Ascii.eqb c old then new else c) (gsub old new s)
  end.

Definition set_tspath (p : string) (cp : cachedPath) :=
  mkCachedPath (rpath cp) p (tstamps cp).
Definition set_rpath (p : string) (cp : cachedPath) :=
  mkCachedPath p (tspath cp) (tstamps cp).
Definition set_tstamps (t : (Z * Z) * (Z * Z)) (cp : cachedPath) :=
  mkCachedPath (rpath cp) (tspath cp) t.

(** [fillCachedPath]: the return value and [*cpath]. *)
Definition fillCachedPath (cpath : cachedPath) (uuidchars relpath : string)
    : Z * cachedPath :=
  let '(ok, ts) := strlcat_path (tspath cpath) kTSCacheDir in
  let cpath := set_tspath ts cpath in
  if negb ok then (ELAST + 1, cpath) else
  let '(ok, ts) := strlcat_path (tspath cpath) uuidchars in
  let cpath := set_tspath ts cpath in
  if negb ok then (ELAST + 1, cpath) else
  let '(ok, ts) := strlcat_path (tspath cpath) "/" in
  let cpath := set_tspath ts cpath in
  if negb ok then (ELAST + 1, cpath) else
  let '(ok, rp) := strlcat_path (rpath cpath) relpath in
  let cpath := set_rpath rp cpath in
  if negb ok then (ELAST + 1, cpath) else
  let relpath := gsub "/"%char ":"%char relpath in
  let '(ok, ts) := strlcat_path (tspath cpath) relpath in
  let cpath := set_tspath ts cpath in
  if negb ok then (ELAST + 1, cpath) else
  (0, cpath).

Definition empty_cachedPath := mkCachedPath "" "" ((0, 0), (0, 0)).

(** What [calloc(1, sizeof(struct bootCaches))] returns. *)
Definition zero_bootCaches : bootCaches :=
  mkBootCaches 0 "" "" "" None "" 0 [] 0 [] empty_cachedPath empty_cachedPath
    None None None.

Definition is_ascii7 (c : ascii) : bool := (N_of_ascii c <? 128)%N.

(** The [str2cachedPath] macro; [None] is its [goto finish]. *)
Definition str2cachedPath (cpath : cachedPath) (caches : bootCaches)
    (relstr : string) : option cachedPath :=
  if decide (strlen relstr >= PATH_MAX) then None else
  if decide (strlen (volUUIDStr caches) >= NCHARSUUID) then None else
  if negb (forallb is_ascii7 (list_ascii_of_string (volUUIDStr caches)))
  then None else
  let '(r, cpath) := fillCachedPath cpath (volUUIDStr caches) relstr in
  if decide (r ≠ 0) then None else Some cpath.

Inductive parse_result :=
| Parsed (caches : bootCaches)
| Rejected (errmsg : string)
| Crashed.

Section ParseDict.
(** Whether [calloc(n, size)] finds memory, [sizeof(cachedPath)] and
    [sizeof(struct bootCaches)]. *)
Variable calloc_ok : Z → Z → bool.
Variable sizeof_cachedPath : Z.
Variable sizeof_bootCaches : Z.

(** The [for] loop over [AdditionalPaths]: [None] is a [goto finish]. *)
Fixpoint parse_apaths (caches : bootCaches) (apaths : list plist)
    (index : nat) (paths : list cachedPath) : option (list cachedPath) :=
  match apaths with
  | [] => Some paths
  | PString str :: apaths =>
      match str2cachedPath (default empty_cachedPath (paths !! index))
              caches str with
      | None => None
      | Some cp => parse_apaths caches apaths (S index) (<[index := cp]> paths)
      end
  | _ :: _ => None
  end.

(** The array of [n] paths, its [AdditionalPaths] filled in, and the next
    index; the flag says whether the [AdditionalPaths] key was there. *)
Definition parse_paths_array (caches : bootCaches) (dict : gmap string plist)
    (n : Z) : option (Z * list cachedPath * nat * bool) :=
  match dict !! kBCAdditionalPathsKey with
  | Some apaths =>
      match apaths with
      | PArray apaths =>
          let acount := Z.of_nat (List.length apaths) in
          let n := n + (acount - 1) in
          if decide (n > INT_MAX `div` sizeof_cachedPath) then None else
          if negb (calloc_ok n sizeof_cachedPath) then None else
          match parse_apaths caches apaths 0
                  (replicate (Z.to_nat n) empty_cachedPath) with
          | None => None
          | Some paths => Some (n, paths, List.length apaths, true)
          end
      | _ => None
      end
  | None =>
      if decide (n > INT_MAX `div` sizeof_cachedPath) then None else
      if negb (calloc_ok n sizeof_cachedPath) then None else
      Some (n, replicate (Z.to_nat n) empty_cachedPath, O, false)
  end.

Definition with_misc (n : Z) (paths : list cachedPath) (lbl : option nat)
    (c : bootCaches) : bootCaches :=
  mkBootCaches (cachefd c) (volUUIDStr c) (volname c) (root c) (cacheinfo c)
    (exts c) (nrps c) (rpspaths c) n paths (efibooter c) (ofbooter c)
    (mkext c) (bootconfig c) lbl.
Definition with_efibooter (cp : cachedPath) (c : bootCaches) : bootCaches :=
  mkBootCaches (cachefd c) (volUUIDStr c) (volname c) (root c) (cacheinfo c)
    (exts c) (nrps c) (rpspaths c) (nmisc c) (miscpaths c) cp (ofbooter c)
    (mkext c) (bootconfig c) (label c).
Definition with_rps (n : Z) (paths : list cachedPath) (bc mk : option nat)
    (ex : string) (c : bootCaches) : bootCaches :=
  mkBootCaches (cachefd c) (volUUIDStr c) (volname c) (root c) (cacheinfo c)
    ex n paths (nmisc c) (miscpaths c) (efibooter c) (ofbooter c)
    mk bc (label c).
Definition with_cacheinfo (d : gmap string plist) (c : bootCaches)
    : bootCaches :=
  mkBootCaches (cachefd c) (volUUIDStr c) (volname c) (root c) (Some d)
    (exts c) (nrps c) (rpspaths c) (nmisc c) (miscpaths c) (efibooter c)
    (ofbooter c) (mkext c) (bootconfig c) (label c).

(** Keys read "before the booter": [None] is a [goto finish]. *)
Definition parse_preboot (bcDict : gmap string plist) (caches : bootCaches)
    (keyCount : Z) : option (bootCaches * Z) :=
  match bcDict !! kBCPreBootKey with
  | None => Some (caches, keyCount)
  | Some (PDict dict) =>
      let keyCount := keyCount + Z.of_nat (size dict) in
      match parse_paths_array caches dict (Z.of_nat (size dict)) with
      | None => None
      | Some (n, paths, miscindex, had_apaths) =>
          let keyCount := if had_apaths then keyCount - 1 else keyCount in
          match dict !! kBCLabelKey with
          | Some (PString str) =>
              match str2cachedPath
                      (default empty_cachedPath (paths !! miscindex))
                      caches str with
              | None => None
              | Some cp =>
                  Some (with_misc n (<[miscindex := cp]> paths)
                          (Some miscindex) caches,
                        keyCount - 1 - 1)
              end
          | Some _ => None
          | None => Some (with_misc n paths None caches, keyCount - 1)
          end
      end
  | Some _ => None
  end.

(** Booter keys. The [OFBooter] key is not read: its code is commented
    out in the source, and so is the key's definition in the header. *)
Definition parse_booters (bcDict : gmap string plist) (caches : bootCaches)
    (keyCount : Z) : option (bootCaches * Z) :=
  match bcDict !! kBCBootersKey with
  | None => Some (caches, keyCount)
  | Some (PDict dict) =>
      let keyCount := keyCount + Z.of_nat (size dict) in
      match dict !! kBCEFIBooterKey with
      | Some (PString str) =>
          match str2cachedPath (efibooter caches) caches str with
          | None => None
          | Some cp => Some (with_efibooter cp caches, keyCount - 1 - 1)
          end
      | Some _ => None
      | None => Some (caches, keyCount - 1)
      end
  | Some _ => None
  end.

(** The [MKext] sub-dictionary: the path entry and [exts]; [inl true] is a
    [goto finish], [inl false] the call of [CFGetTypeID] on a NULL [Path]. *)
Definition parse_mkext (caches : bootCaches) (mkDict : gmap string plist)
    (cp0 : cachedPath) : bool + (cachedPath * string) :=
  match mkDict !! kBCPathKey with
  | None => inl false
  | Some (PString str) =>
      match str2cachedPath cp0 caches str with
      | None => inl true
      | Some cp =>
          match mkDict !! kBCExtensionsDirKey with
          | Some (PString path) =>
              if decide (strlen path >= PATH_MAX) then inl true else
              let '(ok, ex) := strlcat_path (exts caches) path in
              if negb ok then inl true else inr (cp, ex)
          | Some _ => inl true
          | None => inr (cp, exts caches)
          end
      end
  | Some _ => inl true
  end.

Definition parse_postboot (bcDict : gmap string plist) (caches : bootCaches)
    (keyCount : Z) : bool + (bootCaches * Z) :=
  match bcDict !! kBCPostBootKey with
  | None => inr (caches, keyCount)
  | Some (PDict dict) =>
      let keyCount := keyCount + Z.of_nat (size dict) in
      match parse_paths_array caches dict (Z.of_nat (size dict)) with
      | None => inl true
      | Some (n, paths, rpsindex, had_apaths) =>
          let keyCount := if had_apaths then keyCount - 1 else keyCount in
          let r :=
            match dict !! kBCBootConfigKey with
            | Some (PString str) =>
                match str2cachedPath
                        (default empty_cachedPath (paths !! rpsindex))
                        caches str with
                | None => None
                | Some cp =>
                    Some (<[rpsindex := cp]> paths, Some rpsindex,
                          S rpsindex, keyCount - 1)
                end
            | Some _ => None
            | None => Some (paths, None, rpsindex, keyCount)
            end in
          match r with
          | None => inl true
          | Some (paths, bc, rpsindex, keyCount) =>
              match dict !! kBCMKextKey with
              | Some (PDict mkDict) =>
                  match parse_mkext caches mkDict
                          (default empty_cachedPath (paths !! rpsindex)) with
                  | inl b => inl b
                  | inr (cp, ex) =>
                      inr (with_rps n (<[rpsindex := cp]> paths) bc
                             (Some rpsindex) ex caches,
                           keyCount - 1 - 1)
                  end
              | Some _ => inl true
              | None =>
                  inr (with_rps n paths bc None (exts caches) caches,
                       keyCount - 1)
              end
          end
      end
  | Some _ => inl true
  end.

(** [parseDict]: the structure, or the message left in [*errmsg]. *)
Definition parseDict (bcDict : gmap string plist) (rootpath : string)
    (volUUID : option string) (volName : string) : parse_result :=
  if negb (calloc_ok 1 sizeof_bootCaches)
  then Rejected "allocation failure" else
  match pathcpy rootpath with
  | None => Rejected "allocation failure"
  | Some rootp =>
  match volUUID with
  | None => Rejected "allocation failure"
  | Some uuid =>
  if decide (strlen volName >= NAME_MAX) then Rejected "allocation failure"
  else
  let caches :=
    mkBootCaches (-1) uuid volName rootp None "" 0 [] 0 []
      empty_cachedPath empty_cachedPath None None None in
  let unsupported := Rejected "unsupported bootcaches data" in
  let keyCount := Z.of_nat (size bcDict) in
  match parse_preboot bcDict caches keyCount with
  | None => unsupported
  | Some (caches, keyCount) =>
  match parse_booters bcDict caches keyCount with
  | None => unsupported
  | Some (caches, keyCount) =>
  match parse_postboot bcDict caches keyCount with
  | inl true => unsupported
  | inl false => Crashed
  | inr (caches, keyCount) =>
      if decide (keyCount ≠ 0)
      then Rejected "unknown (assumed required) keys in bootcaches.plist"
      else Parsed (with_cacheinfo bcDict caches)
  end end end end end.

End ParseDict.

Section Staleness.
Variable K : Kernel.

(** [needsUpdate(root, cpath, outofdate)]: the return value, [*cpath] and
    [*outofdate] (which keeps its value unless the function stores one). *)
Definition needsUpdate (root : string) (cpath : cachedPath) (outofdate : bool)
    : M (Z * cachedPath * bool) :=
  match pathcpy root with None => mret (-1, cpath, outofdate) | Some fullrp =>
  match pathcat fullrp (rpath cpath) with
  | None => mret (-1, cpath, outofdate) | Some fullrp =>
  match pathcpy root with None => mret (-1, cpath, outofdate) | Some fulltsp =>
  match pathcat fulltsp (tspath cpath) with
  | None => mret (-1, cpath, outofdate) | Some fulltsp =>
  rsb ← sys_stat K fullrp;
  match rsb with
  | None =>
      e ← get_errno;
      if decide (e = ENOENT) then mret (0, cpath, outofdate)
      else mret (-1, cpath, outofdate)
  | Some rsb =>
      let cpath :=
        set_tstamps
          ((tv_sec (st_atimespec rsb), tv_nsec (st_atimespec rsb) `quot` 1000),
           (tv_sec (st_mtimespec rsb), tv_nsec (st_mtimespec rsb) `quot` 1000))
          cpath in
      tsb ← sys_stat K fulltsp;
      match tsb with
      | Some tsb =>
          let ood :=
            bool_decide (tv_sec (st_mtimespec tsb) ≠ tv_sec (st_mtimespec rsb))
            || bool_decide (tv_nsec (st_mtimespec tsb)
                            ≠ tv_nsec (st_mtimespec tsb)) in
          mret (0, cpath, ood)
      | None =>
          e ← get_errno;
          if decide (e = ENOENT) then mret (0, cpath, true)
          else mret (-1, cpath, outofdate)
      end
  end
  end end end end.

End Staleness.

(** * Vocabulary of the properties *)

(** ** Runs, new events and descriptor tables *)

(** The descriptor table [t'] keeps every entry of [t]. *)
Definition tab_ext (t t' : list (option fdesc)) : Prop :=
  (List.length t ≤ List.length t')%nat ∧
  ∀ i, (i < List.length t)%nat → t' !! i = t !! i.

(** [w'] is reached from [w] by issuing calls that all satisfy [P], without
    touching the descriptors open in [w]. *)
Definition ext (P : event → Prop) (w w' : World) : Prop :=
  tab_ext (fdtab w) (fdtab w') ∧
  ∃ new, trace w' = trace w ++ new ∧ Forall P new.

(** A descriptor number that is not in the table of [w]. *)
Definition fresh (w : World) (fd : Z) : Prop :=
  fd = -1 ∨ Z.of_nat (List.length (fdtab w)) ≤ fd.

(** Weakest precondition of a computation, for a postcondition on its
    outcome (a result, or divergence) and final state. *)
Definition wp {A} (m : M A) (w : World) (Q : outcome A → World → Prop)
    : Prop :=
  Q (m w).1 (m w).2.

(** The calls [schdirparent] and [restoredir] issue to find their way. *)
Definition probe (e : event) : Prop :=
  match ev_call e with
  | SysOpen _ f m => f = O_RDONLY ∧ m = 0
  | SysFchdir _ => True
  | _ => False
  end.

(** [dino] is on the device of the scope descriptor [fdvol]. *)
Definition in_scope (w : World) (fdvol : Z) (dino : inode) : Prop :=
  ∀ d, fd_lookup w fdvol = Some d → st_dev (fd_ino d) = st_dev dino.

(** Calls that change the file system. *)
Definition is_mutation (c : syscall) : bool :=
  match c with
  | SysOpen _ f _ =>
      negb (Z.land f (Z.lor O_ACCMODE (Z.lor O_CREAT O_TRUNC)) =? 0)
  | SysMkdir _ _ | SysRmdir _ | SysUnlink _ | SysRename _ _ => true
  | SysWrite _ _ | SysFchmod _ _ | SysFsetxattr _ _ _ | SysFutimes _ _ _ => true
  | SysBless _ _ => true
  | SysStat _ | SysFchdir _ | SysRead _ _ | SysFullFsync _
  | SysFtsOpen _ _ | SysMalloc _ => false
  end.

(** The directory a call works in: the working directory for a call that
    names a path, the directory the descriptor was opened in for a call on
    a descriptor. *)
Definition ev_dir (e : event) : inode :=
  match ev_call e with
  | SysFchdir d | SysRead d _ | SysWrite d _ | SysFchmod d _
  | SysFullFsync d | SysFsetxattr d _ _ | SysFutimes d _ _ => fd_cwd d
  | _ => ev_cwd e
  end.

(** A call that, if it changes anything, does so in a directory of
    device [D]. *)
Definition confined (D : Z) (e : event) : Prop :=
  is_mutation (ev_call e) = true → st_dev (ev_dir e) = D.

(** A call that changes nothing. *)
Definition quiet (e : event) : Prop := is_mutation (ev_call e) = false.

(** The flags [sopen] hands to [open]. *)
Definition sopen_flags (flags : Z) : Z :=
  if decide (Z.land flags O_CREAT ≠ 0) then Z.lor flags O_EXCL else flags.

(** The shape shared by [smkdir], [srmdir], [sunlink] and [srename]. *)
Definition scoped_int (K : Kernel) (fdvol : Z) (path : string)
    (c : string → syscall) : M Z :=
  '(err, savedir, child) ← schdirparent K fdvol (Some path) true true;
  bsderr ← (if decide (err ≠ 0) then mret (-1) else sys_int K (c child));
  RESTOREDIR K savedir;;
  mret bsderr.

(** ** A small file system to run the code on *)

Definition EEXIST : Z := 17.

(** The objects of a file system, by absolute path. *)
Definition fstree := list (string * inode).

Definition fs_lookup (fs : fstree) (p : string) : option inode :=
  snd <$> List.find (λ x, String.eqb (fst x) p) fs.

Definition same_object (a b : inode) : bool :=
  (st_dev a =? st_dev b) && (st_ino a =? st_ino b).

Definition fs_path_of (fs : fstree) (dir : inode) : option string :=
  fst <$> List.find (λ x, same_object (snd x) dir) fs.

Definition fs_remove (fs : fstree) (p : string) : fstree :=
  List.filter (λ x, negb (String.eqb (fst x) p)) fs.

(** The absolute path of [p] seen from the directory [dir]. *)
Definition fs_abs (fs : fstree) (dir : inode) (p : string) : option string :=
  match p with
  | String "/" _ => Some p
  | "." => fs_path_of fs dir
  | _ =>
      match fs_path_of fs dir with
      | Some "/" => Some ("/" +:+ p)
      | Some d => Some (d +:+ "/" +:+ p)
      | None => None
      end
  end.

Definition fs_resolve (fs : fstree) (dir : inode) (p : string)
    : option (string * option inode) :=
  match fs_abs fs dir p with
  | Some a => Some (a, fs_lookup fs a)
  | None => None
  end.

Definition is_dir (i : inode) : bool := Z.land (st_mode i) S_IFMT =? S_IFDIR.

(** The parent directory of an absolute path, when it is a directory. *)
Definition fs_parent (fs : fstree) (a : string) : option inode :=
  match fs_lookup fs (dirname a) with
  | Some d => if is_dir d then Some d else None
  | None => None
  end.

Definition new_inode (fs : fstree) (parent : inode) (mode : Z) : inode :=
  mkInode (st_dev parent) (1000 + Z.of_nat (List.length fs)) mode 0
    (mkTimespec 0 0) (mkTimespec 0 0).

(** The answer to a call and the file system after it. *)
Definition fs_call (fs : fstree) (dir : inode) (c : syscall)
    : sysret Z * fstree :=
  match c with
  | SysMkdir name mode =>
      match fs_resolve fs dir name with
      | Some (a, None) =>
          match fs_parent fs a with
          | Some p => (Ok 0, fs ++ [(a, new_inode fs p (Z.lor S_IFDIR mode))])
          | None => (Err ENOENT, fs)
          end
      | Some (_, Some _) => (Err EEXIST, fs)
      | None => (Err ENOENT, fs)
      end
  | SysRmdir name | SysUnlink name =>
      match fs_resolve fs dir name with
      | Some (a, Some _) => (Ok 0, fs_remove fs a)
      | _ => (Err ENOENT, fs)
      end
  | SysRename old new =>
      match fs_resolve fs dir old, fs_abs fs dir new with
      | Some (a, Some i), Some b => (Ok 0, fs_remove (fs_remove fs a) b ++ [(b, i)])
      | _, _ => (Err ENOENT, fs)
      end
  | SysRead _ n | SysWrite _ n => (Ok n, fs)
  | SysMalloc _ => (Ok 1, fs)
  | _ => (Ok 0, fs)
  end.

Definition fs_open (fs : fstree) (dir : inode) (p : string) (flags mode : Z)
    : sysret inode * fstree :=
  match fs_resolve fs dir p with
  | Some (a, Some i) =>
      if negb (Z.land flags O_CREAT =? 0) && negb (Z.land flags O_EXCL =? 0)
      then (Err EEXIST, fs) else (Ok i, fs)
  | Some (a, None) =>
      if Z.land flags O_CREAT =? 0 then (Err ENOENT, fs) else
      match fs_parent fs a with
      | Some d =>
          let i := new_inode fs d (Z.lor S_IFREG mode) in
          (Ok i, fs ++ [(a, i)])
      | None => (Err ENOENT, fs)
      end
  | None => (Err ENOENT, fs)
  end.

(** The file system after one event of the history. *)
Definition fs_step (fs : fstree) (e : event) : fstree :=
  match ev_call e with
  | SysOpen p flags mode => snd (fs_open fs (ev_cwd e) p flags mode)
  | c => snd (fs_call fs (ev_cwd e) c)
  end.

Definition fs_now (fs0 : fstree) (w : World) : fstree :=
  fold_left fs_step (trace w) fs0.

(** The kernel of a process that starts on the file system [fs0]. *)
Definition fs_kernel (fs0 : fstree) : Kernel :=
  mkKernel
    (λ w p flags mode, fst (fs_open (fs_now fs0 w) (cwd w) p flags mode))
    (λ w p,
       match fs_resolve (fs_now fs0 w) (cwd w) p with
       | Some (_, Some i) => Ok i
       | _ => Err ENOENT
       end)
    (λ w c, fst (fs_call (fs_now fs0 w) (cwd w) c))
    (λ w p, Err ENOENT).

Definition dir_inode (dev ino : Z) : inode :=
  mkInode dev ino (Z.lor S_IFDIR 493) 0 (mkTimespec 0 0) (mkTimespec 0 0).
Definition file_inode (dev ino size : Z) (mtime : timespec) : inode :=
  mkInode dev ino (Z.lor S_IFREG 420) size mtime mtime.

(** A host volume (device 1) with its booters and an empty helper
    partition (device 2) mounted next to it. *)
Definition demo_fs : fstree :=
  [ ("/", dir_inode 0 2);
    ("/Volumes", dir_inode 0 3);
    ("/Volumes/host", dir_inode 1 2);
    ("/Volumes/host/usr", dir_inode 1 10);
    ("/Volumes/host/usr/standalone", dir_inode 1 11);
    ("/Volumes/host/usr/standalone/bootcaches.plist",
       file_inode 1 12 100 (mkTimespec 500 0));
    ("/Volumes/host/System", dir_inode 1 20);
    ("/Volumes/host/System/Library", dir_inode 1 21);
    ("/Volumes/host/System/Library/CoreServices", dir_inode 1 22);
    ("/Volumes/host/System/Library/CoreServices/BootX",
       file_inode 1 23 3000 (mkTimespec 600 7));
    ("/Volumes/host/System/Library/CoreServices/boot.efi",
       file_inode 1 24 5000 (mkTimespec 700 9));
    ("/Volumes/boot", dir_inode 2 2) ].

Definition demo_world : World :=
  mkWorld (dir_inode 0 2) 0
    [ Some (mkFdesc (file_inode 1 12 100 (mkTimespec 500 0)) (dir_inode 0 2)
              "/Volumes/host/usr/standalone/bootcaches.plist");
      Some (mkFdesc (dir_inode 2 2) (dir_inode 0 2) "/Volumes/boot") ]
    [].

Definition demo_caches (ofb efi : string) : bootCaches :=
  mkBootCaches 0 "UUID" "Host" "/Volumes/host" None "" 0 [] 0 []
    (mkCachedPath efi "" ((0, 0), (0, 0)))
    (mkCachedPath ofb "" ((0, 0), (0, 0))) None None None.

Definition demo_up (ofb efi : string) : updatingVol :=
  mkUpdatingVol 1 "/Volumes/boot" true "" "" "" nothingSerious true true true
    (demo_caches ofb efi).

(** The same, with the directory of the booters already on the helper. *)
Definition demo_fs_dirs : fstree :=
  demo_fs ++
  [ ("/Volumes/boot/System", dir_inode 2 30);
    ("/Volumes/boot/System/Library", dir_inode 2 31);
    ("/Volumes/boot/System/Library/CoreServices", dir_inode 2 32) ].

Definition kBootX := "/System/Library/CoreServices/BootX".
Definition kBootEFI := "/System/Library/CoreServices/boot.efi".

(** The calls of a run, in order. *)
Definition calls (w : World) : list syscall := map ev_call (trace w).



(** ** The rotation of the RPS directories *)

Inductive rps := rpsR | rpsP | rpsS.

Definition rps_name (x : rps) : string :=
  match x with rpsR => kBootDirR | rpsP => kBootDirP | rpsS => kBootDirS end.

(** The fixed order of the rotation: R, P, S and R again. *)
Definition rps_next (x : rps) : rps :=
  match x with rpsR => rpsP | rpsP => rpsS | rpsS => rpsR end.

Definition rps_path (mount : string) (x : rps) : string :=
  (mount +:+ "/") +:+ rps_name x.

Definition stat_ok (K : Kernel) (w : World) (p : string) : bool :=
  match k_stat K w p with Ok _ => true | Err _ => false end.

(** Which of the three directories the three [stat]s of [FindRPSDir] find,
    when it is called in [w]. *)
Definition rps_present (K : Kernel) (mount : string) (w : World) (x : rps)
    : bool :=
  let w1 := (sys_stat K (rps_path mount rpsR) w).2 in
  let w2 := (sys_stat K (rps_path mount rpsP) w1).2 in
  match x with
  | rpsR => stat_ok K w (rps_path mount rpsR)
  | rpsP => stat_ok K w1 (rps_path mount rpsP)
  | rpsS => stat_ok K w2 (rps_path mount rpsS)
  end.

(** ** Keys of the descriptor *)

(** The keys the parser reads in each dictionary its counter covers. *)
Definition top_keys : list string :=
  [kBCPreBootKey; kBCBootersKey; kBCPostBootKey].
Definition preboot_keys : list string := [kBCAdditionalPathsKey; kBCLabelKey].
Definition booter_keys : list string := [kBCEFIBooterKey].
Definition postboot_keys : list string :=
  [kBCAdditionalPathsKey; kBCBootConfigKey; kBCMKextKey].

(** [k] is a key the parser does not understand: a key of the descriptor or
    of its PreBootPaths, BooterPaths or PostBootPaths dictionary that is not
    one of those the parser reads there. *)
Definition unknown_key (bcDict : gmap string plist) (k : string) : Prop :=
  (is_Some (bcDict !! k) ∧ k ∉ top_keys) ∨
  (∃ d, bcDict !! kBCPreBootKey = Some (PDict d) ∧
        is_Some (d !! k) ∧ k ∉ preboot_keys) ∨
  (∃ d, bcDict !! kBCBootersKey = Some (PDict d) ∧
        is_Some (d !! k) ∧ k ∉ booter_keys) ∨
  (∃ d, bcDict !! kBCPostBootKey = Some (PDict d) ∧
        is_Some (d !! k) ∧ k ∉ postboot_keys).

(** The number of keys of [d] that are not in [known]. *)
Definition unknown_in (known : list string) (d : gmap string plist) : Z :=
  Z.of_nat (size (foldr delete d known)).

(** The same in the sub-dictionary under [key], when there is one. *)
Definition unknown_under (key : string) (known : list string)
    (bcDict : gmap string plist) : Z :=
  match bcDict !! key with
  | Some (PDict d) => unknown_in known d
  | _ => 0
  end.

(** 1 when [d] has the key [k]. *)
Definition present (d : gmap string plist) (k : string) : Z :=
  match d !! k with Some _ => 1 | None => 0 end.

(** The number of keys the parser does not understand. *)
Definition unknown_keys (bcDict : gmap string plist) : Z :=
  unknown_in top_keys bcDict
  + unknown_under kBCPreBootKey preboot_keys bcDict
  + unknown_under kBCBootersKey booter_keys bcDict
  + unknown_under kBCPostBootKey postboot_keys bcDict.

(** ** The journal of [updateBoots] *)

Definition is_updated (x : journal_entry) : option Z :=
  match x with BootUpdated i => Some i | _ => None end.
Definition is_mount (x : journal_entry) : option Z :=
  match x with Called r_mountBoot i _ => Some i | _ => None end.
Definition is_stamps (x : journal_entry) : bool :=
  match x with Called r_applyStamps _ _ => true | _ => false end.

(** The helpers counted in [bootupdates], the helpers whose update was
    begun, whether [applyStamps] was called, and the number of helpers the
    run found, if it got that far. *)
Definition updated (j : list journal_entry) : list Z := omap is_updated j.
Definition mounted (j : list journal_entry) : list Z := omap is_mount j.
Definition stamps_applied (j : list journal_entry) : bool :=
  existsb is_stamps j.


(** ** More inputs to run the code on *)

Definition kBootXStamp :=
  "/System/Library/Caches/com.apple.bootstamps/UUID/:System:Library:CoreServices:BootX".

(** The host volume with a bootstamp for BootX whose modification time has
    the seconds of the source and other nanoseconds. *)
Definition demo_fs_stamped : fstree :=
  demo_fs ++
  [ ("/Volumes/host" +:+ kBootXStamp, file_inode 1 40 0 (mkTimespec 600 8)) ].

Definition demo_cpath : cachedPath :=
  mkCachedPath kBootX kBootXStamp ((0, 0), (0, 0)).

(** The helper after [ucopyBooters]: both booters are in place. *)
Definition demo_fs_staged : fstree :=
  demo_fs_dirs ++
  [ ("/Volumes/boot" +:+ kBootX, file_inode 2 33 3000 (mkTimespec 800 0));
    ("/Volumes/boot" +:+ kBootEFI, file_inode 2 34 5000 (mkTimespec 800 0)) ].

Definition demo_up_staged (ofb efi : string) : updatingVol :=
  set_changestate copiedBooters
    (set_efidst ("/Volumes/boot" +:+ kBootEFI)
       (set_ofdst ("/Volumes/boot" +:+ kBootX) (demo_up ofb efi))).

(** A helper with the R and P directories. *)
Definition demo_fs_rps : fstree :=
  demo_fs ++
  [ ("/Volumes/boot/com.apple.boot.R", dir_inode 2 50);
    ("/Volumes/boot/com.apple.boot.P", dir_inode 2 51) ].

(** The descriptor of a host volume with an mkext, an EFI booter and a
    disk label. *)
Definition demo_mkext : gmap string plist :=
  {[ kBCPathKey := PString "/System/Library/Extensions.mkext";
     kBCExtensionsDirKey := PString "/System/Library/Extensions";
     kBCArchsKey := PArray [PString "ppc"; PString "i386"] ]}.
Definition demo_bcDict : gmap string plist :=
  {[ kBCPreBootKey :=
       PDict {[ kBCLabelKey :=
                  PString "/System/Library/CoreServices/.disk_label" ]};
     kBCBootersKey := PDict {[ kBCEFIBooterKey := PString kBootEFI ]};
     kBCPostBootKey := PDict {[ kBCMKextKey := PDict demo_mkext ]} ]}.

(** The same with an [OFBooter] entry next to the EFI booter. *)
Definition demo_bcDict_of : gmap string plist :=
  <[ kBCBootersKey :=
       PDict {[ kBCEFIBooterKey := PString kBootEFI;
                "OFBooter" := PString kBootX ]} ]> demo_bcDict.

Definition demo_calloc (n size : Z) : bool := true.
Definition demo_sizeof_cachedPath : Z := 2064.
Definition demo_sizeof_bootCaches : Z := 8336.

(** A host with [n] helpers on which every routine succeeds, except the
    mount of helper [bad]; every category is stale. *)
Definition demo_run (n bad : Z) (r : routine) (arg : Z)
    (fl : bool * bool * bool) (e : unit) : Z * unit :=
  (match r with
   | r_readCaches | r_DASessionCreate => 1
   | r_booterInfo => n
   | r_mountBoot => if arg =? bad then 1 else 0
   | _ => 0
   end, e).
Definition demo_needUpdates (e : unit)
    : (Z * bool * bool * bool * bool) * unit :=
  ((0, true, true, true, true), e).

(** * More of the code *)

(** ** Descriptors that a run leaves open *)

(** Between [w] and [w'] the descriptors of [X], which were not open, have
    been opened, and no other descriptor has changed. *)
Definition opened (X : list Z) (w w' : World) : Prop :=
  ∀ x, if decide (x ∈ X)
       then fd_lookup w x = None ∧ is_Some (fd_lookup w' x)
       else fd_lookup w' x = fd_lookup w x.

(** A computation that returns and does not touch the descriptor table. *)
Definition fd_neutral {A} (m : M A) : Prop :=
  ∀ w, fdtab (m w).2 = fdtab w ∧ ∃ a, (m w).1 = Ret a.

(** A computation that, when it returns, has every descriptor as it
    found it. *)
Definition keeps_descriptors {A} (m : M A) : Prop :=
  ∀ w, match (m w).1 with
       | Ret _ => ∀ fd, fd_lookup (m w).2 fd = fd_lookup w fd
       | Diverge => True
       end.

(** ** bootcaches.c: [needUpdates], [applyStamp] and [applyStamps] *)

Definition kTSCacheMask : Z := 493.

Section Stamps.
Variable K : Kernel.

(** The two [for] loops of [needUpdates] over an array of paths. [needsUp]
    is the local that [needsUpdate] stores its verdict in, when it stores
    one; [anyOOD] and [ood] are the two flags set together. With [strict]
    an error of [needsUpdate] ends the function ([inl], with the value
    returned and the array as it is by then); without, it is ignored. *)
Fixpoint needUpdates_paths (strict : bool) (root : string)
    (cps : list cachedPath) (needsUp anyOOD ood : bool)
    : M (Z * list cachedPath + list cachedPath * bool * bool * bool) :=
  match cps with
  | [] => mret (inr ([], needsUp, anyOOD, ood))
  | cp :: cps =>
      '(r, cp, needsUp) ← needsUpdate K root cp needsUp;
      if strict && bool_decide (r ≠ 0) then mret (inl (r, cp :: cps)) else
      let anyOOD := if needsUp : bool then true else anyOOD in
      let ood := if needsUp : bool then true else ood in
      res ← needUpdates_paths strict root cps needsUp anyOOD ood;
      match res with
      | inl (r, cps) => mret (inl (r, cp :: cps))
      | inr (cps, needsUp, anyOOD, ood) =>
          mret (inr (cp :: cps, needsUp, anyOOD, ood))
      end
  end.

(** One booter of [needUpdates], when it has a path. *)
Definition needUpdates_booter (root : string) (cp : cachedPath)
    (needsUp anyOOD ood : bool)
    : M (Z * cachedPath + cachedPath * bool * bool * bool) :=
  if has_rpath cp then
    '(r, cp, needsUp) ← needsUpdate K root cp needsUp;
    if decide (r ≠ 0) then mret (inl (r, cp)) else
    let anyOOD := if needsUp : bool then true else anyOOD in
    let ood := if needsUp : bool then true else ood in
    mret (inr (cp, needsUp, anyOOD, ood))
  else mret (inr (cp, needsUp, anyOOD, ood)).

Definition with_rpspaths (l : list cachedPath) (c : bootCaches) :=
  mkBootCaches (cachefd c) (volUUIDStr c) (volname c) (root c) (cacheinfo c)
    (exts c) (nrps c) l (nmisc c) (miscpaths c) (efibooter c) (ofbooter c)
    (mkext c) (bootconfig c) (label c).
Definition with_miscpaths (l : list cachedPath) (c : bootCaches) :=
  mkBootCaches (cachefd c) (volUUIDStr c) (volname c) (root c) (cacheinfo c)
    (exts c) (nrps c) (rpspaths c) (nmisc c) l (efibooter c) (ofbooter c)
    (mkext c) (bootconfig c) (label c).
Definition with_ofbooter (cp : cachedPath) (c : bootCaches) :=
  mkBootCaches (cachefd c) (volUUIDStr c) (volname c) (root c) (cacheinfo c)
    (exts c) (nrps c) (rpspaths c) (nmisc c) (miscpaths c) (efibooter c) cp
    (mkext c) (bootconfig c) (label c).

(** [needUpdates(caches, &any, &rps, &booters, &misc)]: the value returned,
    [*caches], and the four flags when they are stored, in the order
    [any], [rps], [booters], [misc]. [needsUp0] is what the local
    [needsUp], which has no initial value, holds on entry. *)
Definition needUpdates (caches : bootCaches) (needsUp0 : bool)
    : M (Z * bootCaches * option (bool * bool * bool * bool)) :=
  res ← needUpdates_paths true (root caches) (rpspaths caches)
          needsUp0 false false;
  match res with
  | inl (r, cps) => mret (r, with_rpspaths cps caches, None)
  | inr (cps, needsUp, anyOOD, rpsOOD) =>
  let caches := with_rpspaths cps caches in
  res ← needUpdates_booter (root caches) (efibooter caches)
          needsUp anyOOD false;
  match res with
  | inl (r, cp) => mret (r, with_efibooter cp caches, None)
  | inr (cp, needsUp, anyOOD, bootersOOD) =>
  let caches := with_efibooter cp caches in
  res ← needUpdates_booter (root caches) (ofbooter caches)
          needsUp anyOOD bootersOOD;
  match res with
  | inl (r, cp) => mret (r, with_ofbooter cp caches, None)
  | inr (cp, needsUp, anyOOD, bootersOOD) =>
  let caches := with_ofbooter cp caches in
  res ← needUpdates_paths false (root caches) (miscpaths caches)
          needsUp anyOOD false;
  match res with
  | inl (r, cps) => mret (r, with_miscpaths cps caches, None)
  | inr (cps, needsUp, anyOOD, miscOOD) =>
      mret (0, with_miscpaths cps caches,
            Some (anyOOD, rpsOOD, bootersOOD, miscOOD))
  end end end end.

(** [applyStamp]. The descriptor of the bootstamp is not closed. *)
Definition applyStamp (root : string) (cpath : cachedPath) (fdvol : Z)
    : M Z :=
  match pathcpy root with None => mret (-1) | Some tsp =>
  match pathcat tsp (tspath cpath) with None => mret (-1) | Some tsp =>
  _ ← sunlink K fdvol tsp;
  fd ← sopen K fdvol tsp (Z.lor O_WRONLY O_CREAT) kTSCacheMask;
  if decide (fd = -1) then mret (-1) else
  sys_futimes K fd (tstamps cpath).1 (tstamps cpath).2
  end end.

Fixpoint applyStamps_paths (root : string) (cps : list cachedPath)
    (fdvol rval : Z) : M Z :=
  match cps with
  | [] => mret rval
  | cp :: cps =>
      r ← applyStamp root cp fdvol;
      applyStamps_paths root cps fdvol (Z.lor rval r)
  end.

Definition applyStamps_booter (root : string) (cp : cachedPath)
    (fdvol rval : Z) : M Z :=
  if has_rpath cp then
    r ← applyStamp root cp fdvol; mret (Z.lor rval r)
  else mret rval.

Definition applyStamps (caches : bootCaches) : M Z :=
  rval ← applyStamps_paths (root caches) (rpspaths caches)
           (cachefd caches) 0;
  rval ← applyStamps_booter (root caches) (efibooter caches)
           (cachefd caches) rval;
  rval ← applyStamps_booter (root caches) (ofbooter caches)
           (cachefd caches) rval;
  applyStamps_paths (root caches) (miscpaths caches) (cachefd caches) rval.

End Stamps.

(** The stamps [applyStamps] goes through. *)
Definition stamped (caches : bootCaches) : list cachedPath :=
  rpspaths caches ++
  (if has_rpath (efibooter caches) then [efibooter caches] else []) ++
  (if has_rpath (ofbooter caches) then [ofbooter caches] else []) ++
  miscpaths caches.

(** The host volume with the directory of its bootstamps. *)
Definition demo_fs_stampdir : fstree :=
  demo_fs ++
  [ ("/Volumes/host/System/Library/Caches", dir_inode 1 41);
    ("/Volumes/host/System/Library/Caches/com.apple.bootstamps",
       dir_inode 1 42);
    ("/Volumes/host/System/Library/Caches/com.apple.bootstamps/UUID",
       dir_inode 1 43) ].

(** ** update_boot.c: staging the RPS directory and the misc files *)

Definition NEWEXT := ".new".
Definition CONTENTEXT := ".contentDetails".
Definition kRPSDirMask : Z := 493.

Definition set_curRPS (p : string) (up : updatingVol) :=
  mkUpdatingVol (curbootfd up) (curMount up) (curBoot up) p
    (efidst up) (ofdst up) (changestate up) (doRPS up) (doMisc up)
    (doBooters up) (caches up).

(** The result of a routine that may read through a null pointer. *)
Inductive faulting (A : Type) := Done (a : A) | Fault.
Arguments Done {A} a.
Arguments Fault {A}.

(** [strncmp(a, b, n) != 0] *)
Definition strncmp_ne (a b : string) (n : Z) : bool :=
  negb (String.eqb (String.substring 0 (Z.to_nat n) a)
                   (String.substring 0 (Z.to_nat n) b)).

Section Staging.
Variable K : Kernel.

(** What CoreFoundation makes of the bytes [insertUUID] has read from the
    file [sb]: whether [CFDataCreate] and then the parse, or else the
    creation of an empty dictionary, gave a dictionary; and the length of
    the XML data made from that dictionary with the UUID set, unless
    [CFPropertyListCreateXMLData] fails. *)
Variable cf_dictionary : World → inode → bool.
Variable cf_xmldata : World → inode → string → option Z.

(** The locals [rval] and [fd] of [insertUUID] at [finish]. *)
Definition insertUUID_body (up : updatingVol) (srcpath dstpath : string)
    : M (Z * Z) :=
  let rval := ELAST + 1 in
  fd ← sopen K (cachefd (caches up)) srcpath O_RDONLY 0;
  if decide (fd = -1) then mret (rval, fd) else
  sb ← sys_fstat fd;
  match sb with None => mret (rval, fd) | Some sb =>
  buf ← sys_malloc K (st_size sb);
  if decide (buf = 0) then mret (rval, fd) else
  n ← sys_read K fd (st_size sb);
  if decide (n ≠ st_size sb) then mret (rval, fd) else
  ok ← (λ w, (Ret (cf_dictionary w sb), w));
  if negb ok then mret (rval, fd) else
  _ ← sunlink K (curbootfd up) dstpath;
  let dirmode :=
    Z.lor (Z.lor (Z.land (st_mode sb) (Z.lnot S_IFMT)) S_IWUSR) S_IXUSR in
  let dirmode :=
    if decide (Z.land dirmode S_IRGRP ≠ 0) then Z.lor dirmode S_IXGRP
    else dirmode in
  let dirmode :=
    if decide (Z.land dirmode S_IROTH ≠ 0) then Z.lor dirmode S_IXOTH
    else dirmode in
  match pathcpy (dirname dstpath) with
  | None => mret (rval, fd)
  | Some dstparent =>
  r ← sdeepmkdir K (curbootfd up) dstparent dirmode;
  if decide (r ≠ 0) then mret (rval, fd) else
  _ ← sys_close fd;
  fd ← sopen K (curbootfd up) dstpath (Z.lor O_WRONLY O_CREAT) (st_mode sb);
  if decide (fd = -1) then mret (rval, fd) else
  len ← (λ w, (Ret (cf_xmldata w sb (volUUIDStr (caches up))), w));
  match len with
  | None => mret (rval, fd)
  | Some len =>
      n ← sys_write K fd len;
      if decide (n ≠ len) then mret (rval, fd) else mret (0, fd)
  end end end.

Definition insertUUID (up : updatingVol) (srcpath dstpath : string) : M Z :=
  '(rval, fd) ← insertUUID_body up srcpath dstpath;
  (if decide (fd ≠ -1) then sys_close fd else mret 0);;
  mret rval.

(** The loop of [ucopyRPS] from index [i] on: [true] when it runs to its
    end, [false] at a [goto finish]. *)
Fixpoint ucopyRPS_loop (up : updatingVol) (i : nat) (cps : list cachedPath)
    : M bool :=
  match cps with
  | [] => mret true
  | cp :: cps =>
      match pathcpy (root (caches up)) with None => mret false | Some srcpath =>
      match pathcat srcpath (rpath cp) with None => mret false | Some srcpath =>
      match pathcpy (curRPS up) with None => mret false | Some dstpath =>
      match pathcat dstpath (rpath cp) with None => mret false | Some dstpath =>
      if decide (bootconfig (caches up) = Some i) then
        (* is it Boot.plist? an error is logged, and the loop goes on *)
        _ ← insertUUID up srcpath dstpath;
        ucopyRPS_loop up (S i) cps
      else
        sb ← sys_stat K srcpath;
        if match sb with
           | Some sb => bool_decide (st_size sb = 0)
           | None => false
           end
        then mret false else
        r ← scopyfile K (cachefd (caches up)) srcpath (curbootfd up) dstpath;
        if decide (r ≠ 0) then mret false else
        ucopyRPS_loop up (S i) cps
      end end end end
  end.

(** [ucopyRPS]: the return value and [*up]. [FindRPSDir] gets [up->curRPS]
    as its [prev] buffer; when it fails it has not written to it. *)
Definition ucopyRPS (up : updatingVol) : M (Z * updatingVol) :=
  '(r, prev, _, _) ← FindRPSDir K up;
  if decide (r ≠ 0) then mret (ELAST + 1, up) else
  let up := set_curRPS prev up in
  sb ← sys_stat K (curRPS up);
  r ← match sb with
      | Some _ => sdeepunlink K (curbootfd up) (curRPS up)
      | None => mret 0
      end;
  if decide (r ≠ 0) then mret (ELAST + 1, up) else
  r ← smkdir K (curbootfd up) (curRPS up) kRPSDirMask;
  if decide (r ≠ 0) then mret (ELAST + 1, up) else
  ok ← ucopyRPS_loop up 0 (rpspaths (caches up));
  mret (if ok : bool then 0 else ELAST + 1, up).

(** The loop of [ucopyMisc]: [nprocessed] at its end, or [None] at a
    [goto finish]. *)
Fixpoint ucopyMisc_loop (up : updatingVol) (cps : list cachedPath)
    (nprocessed : Z) : M (option Z) :=
  match cps with
  | [] => mret (Some nprocessed)
  | cp :: cps =>
      match pathcpy (root (caches up)) with None => mret None | Some srcpath =>
      match pathcat srcpath (rpath cp) with None => mret None | Some srcpath =>
      match pathcpy (curMount up) with None => mret None | Some dstpath =>
      match pathcat dstpath (rpath cp) with None => mret None | Some dstpath =>
      match pathcat dstpath NEWEXT with None => mret None | Some dstpath =>
      sb ← sys_stat K srcpath;
      match sb with
      | Some _ =>
          (* an error of the copy is logged; [continue] *)
          _ ← scopyfile K (cachefd (caches up)) srcpath (curbootfd up) dstpath;
          ucopyMisc_loop up cps nprocessed
      | None => ucopyMisc_loop up cps (nprocessed + 1)
      end
      end end end end end
  end.

(** [ucopyMisc]; [i] is the number of misc paths when the loop ends. *)
Definition ucopyMisc (up : updatingVol) : M Z :=
  r ← ucopyMisc_loop up (miscpaths (caches up)) 0;
  match r with
  | None => mret (-1)
  | Some nprocessed =>
      let i := Z.of_nat (List.length (miscpaths (caches up))) in
      mret (c_bool (negb (nprocessed =? i)))
  end.

(** [nukeLabels]: the return value and [*up]. [up->caches->label] is null
    when the descriptor had no label; [strlcat] then reads from a null
    pointer. (An index outside [miscpaths] stands for no pointer that the
    parser makes, and is taken as a fault as well.) *)
Definition nukeLabels (up : updatingVol) : M (faulting (Z * updatingVol)) :=
  match pathcpy (curMount up) with
  | None => mret (Done (0, up))
  | Some labelp =>
  match label (caches up) ≫= λ i, miscpaths (caches up) !! i with
  | None => mret Fault
  | Some lbl =>
  match pathcat labelp (rpath lbl) with
  | None => mret (Done (0, up))
  | Some labelp =>
  sb ← sys_stat K labelp;
  rval ← match sb with
         | Some _ => r ← sunlink K (curbootfd up) labelp; mret (Z.lor 0 r)
         | None => mret 0
         end;
  (* now for the content details (if any) *)
  match pathcat labelp CONTENTEXT with
  | None => mret (Done (rval, up))
  | Some labelp =>
  sb ← sys_stat K labelp;
  rval ← match sb with
         | Some _ => r ← sunlink K (curbootfd up) labelp; mret (Z.lor rval r)
         | None => mret rval
         end;
  mret (Done (rval, set_changestate nukedLabels up))
  end end end end.

(** [activateRPS] *)
Definition activateRPS (up : updatingVol) : M Z :=
  '(r, prevRPS, curRPS', nextRPS) ← FindRPSDir K up;
  if decide (r ≠ 0) then mret (ELAST + 1) else
  r ← (if strncmp_ne curRPS' (curRPS up) PATH_MAX
       then srename K (curbootfd up) prevRPS nextRPS
       else mret 0);
  if decide (r ≠ 0) then mret (ELAST + 1) else
  r ← sys_fullfsync K (curbootfd up);
  if decide (r ≠ 0) then mret (ELAST + 1) else
  mret 0.

End Staging.

(** Whether each of the sources of [cps] under [root] is missing when it
    is looked for, by one [stat] after the other from [w] on. *)
Fixpoint all_missing (K : Kernel) (root : string) (cps : list cachedPath)
    (w : World) : bool :=
  match cps with
  | [] => true
  | cp :: cps =>
      negb (stat_ok K w (root +:+ rpath cp)) &&
      all_missing K root cps (sys_stat K (root +:+ rpath cp) w).2
  end.

(** The host volume of [demo_caches], with its descriptor as a misc path. *)
Definition demo_caches_misc (rp : string) : bootCaches :=
  mkBootCaches 0 "UUID" "Host" "/Volumes/host" None "" 0 []
    1 [mkCachedPath rp "" ((0, 0), (0, 0))]
    empty_cachedPath empty_cachedPath None None (Some 0%nat).
Definition demo_up_misc (rp : string) : updatingVol :=
  mkUpdatingVol 1 "/Volumes/boot" true "" "" "" nothingSerious true true true
    (demo_caches_misc rp).

(** Whether the descriptor has a [DiskLabel] under [PreBootPaths]. *)
Definition has_DiskLabel (bcDict : gmap string plist) : bool :=
  match bcDict !! kBCPreBootKey with
  | Some (PDict d) =>
      match d !! kBCLabelKey with Some _ => true | None => false end
  | _ => false
  end.

(** A descriptor with an EFI booter and no [PreBootPaths]. *)
Definition demo_bcDict_nolabel : gmap string plist :=
  {[ kBCBootersKey := PDict {[ kBCEFIBooterKey := PString kBootEFI ]} ]}.

(** The state of the local [fd] of [activateBooters] at a [goto finish]:
    open, or not. *)
Definition fd_at_finish (X : list Z) (w0 w : World) (fd : Z) : Prop :=
  (fd ≠ -1 ∧ (fd ∉ X) ∧ opened (fd :: X) w0 w) ∨
  ((fd = -1 ∨ fd_lookup w fd = None) ∧ opened X w0 w).

(** ** bootcaches.c and watchvol.c: the mkext and the launch of kextcache *)

(** A slot of a vector of pointers got from [malloc]: as [malloc] left it,
    [NULL], or a string. *)
Inductive slot := slot_garbage | slot_null | slot_str (s : string).

(** [v[i] = x] for a vector of [length v] slots: [None] when slot [i] is
    outside the vector. *)
Definition store (v : list slot) (i : Z) (x : slot) : option (list slot) :=
  if decide (0 ≤ i < Z.of_nat (List.length v))
  then Some (<[Z.to_nat i := x]> v) else None.

Section Rebuild.
Variable K : Kernel.
(** The size of a pointer, and the size that
    [CFStringGetMaximumSizeOfFileSystemRepresentation] gives for a string. *)
Variable sizeof_ptr : Z.
Variable max_repr_size : string → Z.
(** [fork_kextcache(cacheRoot, argv, wait)], which forks and runs
    kextcache, is taken as it comes. *)
Variable fork_kextcache : string → list slot → bool → M Z.

(** [check_mkext]. The path of the mkext is read through [caches->mkext]
    before the test [if (caches->mkext)]. (An index outside [rpspaths]
    stands for no pointer that the parser makes, and is taken as a fault
    as well.) *)
Definition check_mkext (caches : bootCaches) : M (faulting bool) :=
  match pathcpy (root caches) with
  | None => mret (Done false)
  | Some fullmkextp =>
  match mkext caches ≫= λ i, rpspaths caches !! i with
  | None => mret Fault
  | Some mk =>
  match pathcat fullmkextp (rpath mk) with
  | None => mret (Done false)
  | Some fullmkextp =>
  match pathcpy (root caches) with
  | None => mret (Done false)
  | Some fullextsp =>
  match pathcat fullextsp (exts caches) with
  | None => mret (Done false)
  | Some fullextsp =>
  (* mkext implies exts *)
  extsb ← sys_stat K fullextsp;
  match extsb with
  | None => mret (Done false)
  | Some extsb =>
      sb ← sys_stat K fullmkextp;
      match sb with
      | None => mret (Done true)
      | Some sb =>
          mret (Done (negb (tv_sec (st_mtimespec sb) =?
                            tv_sec (st_mtimespec extsb) + 1)))
      end
  end end end end end end.

(** The vector of [rebuild_boot] as it is handed to [fork_kextcache]:
    [Done None] when [malloc] fails. *)
Definition rebuild_boot_argv (caches : bootCaches) (force : bool)
    : M (faulting (option (list slot))) :=
  (*  argv[0] '-u'  root  NULL *)
  let argc := 1 + 1 + 1 + 1 in
  p ← sys_malloc K (argc * sizeof_ptr);
  if decide (p = 0) then mret (Done None) else
  let kcargs := replicate (Z.to_nat argc) slot_garbage in
  let argi := 0 in
  match store kcargs argi (slot_str "kextcache") with
  | None => mret Fault | Some kcargs =>
  let argi := argi + 1 in
  match (if force
         then kcargs ← store kcargs argi (slot_str "-f");
              Some (kcargs, argi + 1)
         else Some (kcargs, argi)) with
  | None => mret Fault | Some (kcargs, argi) =>
  match store kcargs argi (slot_str "-u") with
  | None => mret Fault | Some kcargs =>
  let argi := argi + 1 in
  match store kcargs argi (slot_str (root caches)) with
  | None => mret Fault | Some kcargs =>
  let argi := argi + 1 in
  match store kcargs argi slot_null with
  | None => mret Fault | Some kcargs =>
  mret (Done (Some kcargs))
  end end end end end.

Definition rebuild_boot (caches : bootCaches) (force : bool)
    : M (faulting Z) :=
  r ← rebuild_boot_argv caches force;
  match r with
  | Fault => mret Fault
  | Done None => mret (Done (ELAST + 1))
  | Done (Some kcargs) =>
      pid ← fork_kextcache (root caches) kcargs false;
      mret (Done (if decide (pid < 0) then pid else 0))
  end.

(** The loop of [rebuild_mkext] over the archs: the vector and [argi]
    after it, or [Done None] at a [goto finish]. *)
Fixpoint rebuild_mkext_archs (archs : list plist) (kcargs : list slot)
    (argi : Z) : M (faulting (option (list slot * Z))) :=
  match archs with
  | [] => mret (Done (Some (kcargs, argi)))
  | PString archStr :: archs =>
      let archSize := max_repr_size archStr in
      if decide (archSize = 0) then mret (Done None) else
      p ← sys_malloc K archSize;
      if decide (p = 0) then mret (Done None) else
      (* CFStringGetFileSystemRepresentation *)
      if decide (strlen archStr >= archSize) then mret (Done None) else
      match store kcargs argi (slot_str "-a") with
      | None => mret Fault | Some kcargs =>
      match store kcargs (argi + 1) (slot_str archStr) with
      | None => mret Fault | Some kcargs =>
      rebuild_mkext_archs archs kcargs (argi + 2)
      end end
  | _ :: _ => mret (Done None)
  end.

(** [rebuild_mkext] from the allocation of the vector on, for the archs
    of the descriptor. *)
Definition rebuild_mkext_fill (caches : bootCaches) (archs : list plist)
    : M (faulting (option (list slot))) :=
  let narchs := Z.of_nat (List.length archs) in
  (*  argv[0] "-a x -a y" '-l'  '-m'  mkext  exts  NULL *)
  let argc := 1 + narchs * 2 + 1 + 1 + 1 + 1 + 1 in
  p ← sys_malloc K (argc * sizeof_ptr);
  if decide (p = 0) then mret (Done None) else
  let kcargs := replicate (Z.to_nat argc) slot_garbage in
  let argi := 0 in
  match store kcargs argi (slot_str "kextcache") with
  | None => mret Fault | Some kcargs =>
  let argi := argi + 1 in
  r ← rebuild_mkext_archs archs kcargs argi;
  match r with
  | Fault => mret Fault
  | Done None => mret (Done None)
  | Done (Some (kcargs, argi)) =>
  match store kcargs argi (slot_str "-l") with
  | None => mret Fault | Some kcargs =>
  let argi := argi + 1 in
  match store kcargs argi (slot_str "-m") with
  | None => mret Fault | Some kcargs =>
  let argi := argi + 1 in
  match pathcpy (root caches) with
  | None => mret (Done None) | Some fullmkextp =>
  match mkext caches ≫= λ i, rpspaths caches !! i with
  | None => mret Fault
  | Some mk =>
  match pathcat fullmkextp (rpath mk) with
  | None => mret (Done None) | Some fullmkextp =>
  match store kcargs argi (slot_str fullmkextp) with
  | None => mret Fault | Some kcargs =>
  let argi := argi + 1 in
  match pathcpy (root caches) with
  | None => mret (Done None) | Some fullextsp =>
  match pathcat fullextsp (exts caches) with
  | None => mret (Done None) | Some fullextsp =>
  match store kcargs argi (slot_str fullextsp) with
  | None => mret Fault | Some kcargs =>
  let argi := argi + 1 in
  match store kcargs argi slot_null with
  | None => mret Fault | Some kcargs =>
  mret (Done (Some kcargs))
  end end end end end end end end end end end end.

(** The vector of [rebuild_mkext] as it is handed to [fork_kextcache], or
    [Done None] at a [goto finish]. [CFDictionaryGetValue] on a null
    [cacheinfo], [CFArrayGetCount] on an [Archs] that is no array, and the
    path read through a null [caches->mkext] are faults. *)
Definition rebuild_mkext_argv (caches : bootCaches)
    : M (faulting (option (list slot))) :=
  match cacheinfo caches with
  | None => mret Fault
  | Some info =>
  match info !! kBCPostBootKey with
  | Some (PDict pbDict) =>
  match pbDict !! kBCMKextKey with
  | Some (PDict mkDict) =>
  match mkDict !! kBCArchsKey with
  | None => rebuild_mkext_fill caches []
  | Some (PArray archs) =>
      let narchs := Z.of_nat (List.length archs) in
      p ← sys_malloc K (narchs * sizeof_ptr);
      if decide (p = 0) then mret (Done None) else
      rebuild_mkext_fill caches archs
  | Some _ => mret Fault
  end
  | _ => mret (Done None)
  end
  | _ => mret (Done None)
  end end.

(** [rebuild_mkext]: at [finish], [pid] is -1 unless kextcache was
    launched. *)
Definition rebuild_mkext (caches : bootCaches) (wait : bool)
    : M (faulting Z) :=
  r ← rebuild_mkext_argv caches;
  match r with
  | Fault => mret Fault
  | Done None => mret (Done (-1))
  | Done (Some kcargs) =>
      pid ← fork_kextcache (root caches) kcargs wait;
      mret (Done (if wait || bool_decide (pid < 0) then pid else 0))
  end.

End Rebuild.

(** Whether the descriptor has an [MKext] under [PostBootPaths]. *)
Definition has_MKext (bcDict : gmap string plist) : bool :=
  match bcDict !! kBCPostBootKey with
  | Some (PDict d) =>
      match d !! kBCMKextKey with Some _ => true | None => false end
  | _ => false
  end.

(** The archs of the descriptor, when [Archs] is not there or is an
    array. *)
Definition archs_of (bcDict : gmap string plist) : option (list plist) :=
  match bcDict !! kBCPostBootKey with
  | Some (PDict d) =>
      match d !! kBCMKextKey with
      | Some (PDict mk) =>
          match mk !! kBCArchsKey with
          | None => Some []
          | Some (PArray archs) => Some archs
          | Some _ => None
          end
      | _ => Some []
      end
  | _ => Some []
  end.

(** The arguments of kextcache for a list of archs. *)
Fixpoint arch_args (archs : list plist) : list slot :=
  match archs with
  | [] => []
  | PString a :: archs => slot_str "-a" :: slot_str a :: arch_args archs
  | _ :: archs => arch_args archs
  end.

(** An outcome of the code that fills a vector: it is no fault, and a
    vector that it yields satisfies [P]. *)
Definition fills {A} (o : outcome (faulting (option A))) (P : A → Prop)
    : Prop :=
  match o with
  | Ret Fault | Diverge => False
  | Ret (Done None) => True
  | Ret (Done (Some v)) => P v
  end.

(** ** Bytes read and written in a run *)

Definition bytes_read (evs : list event) : Z :=
  foldr (λ e acc, match ev_call e with
                  | SysRead _ n => n + acc
                  | _ => acc
                  end) 0 evs.

Definition bytes_written (evs : list event) : Z :=
  foldr (λ e acc, match ev_call e with
                  | SysWrite _ n => n + acc
                  | _ => acc
                  end) 0 evs.

(** A call that is neither a [read] nor a [write]. *)
Definition no_io (e : event) : Prop :=
  match ev_call e with
  | SysRead _ _ | SysWrite _ _ => False
  | _ => True
  end.

(** Every [read] is from [sd] and every [write] is to [dd]. *)
Definition io_on (sd dd : fdesc) (e : event) : Prop :=
  match ev_call e with
  | SysRead d _ => d = sd
  | SysWrite d _ => d = dd
  | _ => True
  end.

(** What a run of [scopyfile] that reports success has copied. *)
Definition copied (srcpath dstpath : string) (w w' : World) : Prop :=
  ∃ new sd dd,
    trace w' = trace w ++ new ∧
    fd_path sd = basename srcpath ∧ fd_path dd = basename dstpath ∧
    Forall (io_on sd dd) new ∧
    bytes_read new = Z.max 0 (st_size (fd_ino sd)) ∧
    bytes_written new = Z.max 0 (st_size (fd_ino sd)).

(** A descriptor whose [MKext] has no [Path]. *)
Definition demo_bcDict_nopath : gmap string plist :=
  {[ kBCPostBootKey :=
       PDict {[ kBCMKextKey :=
                  PDict {[ kBCExtensionsDirKey :=
                             PString "/System/Library/Extensions" ]} ]} ]}.

(** Every [futimes] sets the times [t]. *)
Definition stamps_with (t : (Z * Z) * (Z * Z)) (e : event) : Prop :=
  ∀ d a m, ev_call e = SysFutimes d a m → a = t.1 ∧ m = t.2.

(** ** Modes, names and the working directory *)

(** The mode [scopyfile] computes for the directories it creates, from the
    mode of the source. *)
Definition scopyfile_dirmode (mode : Z) : Z :=
  let dirmode :=
    Z.lor (Z.lor (Z.land mode (Z.lnot S_IFMT)) S_IWUSR) S_IXUSR in
  let dirmode :=
    if decide (Z.land dirmode S_IRGRP ≠ 0) then Z.lor dirmode S_IXGRP
    else dirmode in
  let dirmode :=
    if decide (Z.land dirmode S_IROTH ≠ 0) then Z.lor dirmode S_IXOTH
    else dirmode in
  dirmode.

(** The calls of a copy of a file of mode [m]: what is created gets its
    mode from [m], and nothing is renamed. *)
Definition modes_from (m : Z) (e : event) : Prop :=
  match ev_call e with
  | SysMkdir _ md => md = scopyfile_dirmode m
  | SysOpen _ f md =>
      (f = O_RDONLY ∧ md = 0) ∨
      (f = Z.lor (Z.lor O_CREAT O_WRONLY) O_EXCL ∧ md = Z.lor m S_IWUSR)
  | SysFchmod _ md => md = m
  | SysStat _ | SysFchdir _ | SysUnlink _ | SysRead _ _ | SysWrite _ _
  | SysMalloc _ => True
  | _ => False
  end.

(** What a run of [scopyfile] that reports success has done about modes. *)
Definition copied_modes (K : Kernel) (srcpath dstpath : string)
    (w w' : World) : Prop :=
  ∃ new sd dd e,
    trace w' = trace w ++ new ∧
    fd_path sd = basename srcpath ∧ fd_path dd = basename dstpath ∧
    Forall (modes_from (st_mode (fd_ino sd))) new ∧
    last new = Some e ∧
    ev_call e = SysFchmod dd (st_mode (fd_ino sd)) ∧
    ∃ w1, k_open K w1 (basename dstpath)
            (Z.lor (Z.lor O_CREAT O_WRONLY) O_EXCL)
            (Z.lor (st_mode (fd_ino sd)) S_IWUSR) = Ok (fd_ino dd).

(** The calls of [srename(fdvol, oldpath, newpath)] entered in [w]: a
    [rename] is of the two base names, in the directory that opening
    [dirname(oldpath)] gave. *)
Definition renames_in (K : Kernel) (w : World) (oldpath newpath : string)
    (e : event) : Prop :=
  match ev_call e with
  | SysRename a b =>
      a = basename oldpath ∧ b = basename newpath ∧
      k_open K w (dirname oldpath) O_RDONLY 0 = Ok (ev_cwd e)
  | SysOpen _ f m => f = O_RDONLY ∧ m = 0
  | SysFchdir _ => True
  | _ => False
  end.

(** A kernel that answers as [K] does, except that every
    [BLSetVolumeFinderInfo] fails with [e]. *)
Definition bless_refused (K : Kernel) (e : Z) : Kernel :=
  mkKernel (k_open K) (k_stat K)
    (λ w c, match c with SysBless _ _ => Err e | _ => k_int K w c end)
    (k_fts K).

(** * Properties *)

(** ** Descriptor tables and extensions of a run *)

Lemma tab_ext_refl t : tab_ext t t.
Proof. split; auto. Qed.

Lemma tab_ext_trans t1 t2 t3 : tab_ext t1 t2 → tab_ext t2 t3 → tab_ext t1 t3.
Proof.
  intros [H1 H2] [H3 H4]. split; [lia|].
  intros i Hi. rewrite H4 by lia. auto.
Qed.

Lemma tab_ext_app t x : tab_ext t (t ++ x).
Proof.
  split; [rewrite length_app; lia|]. intros i Hi. by rewrite lookup_app_l.
Qed.

Lemma ext_refl P w : ext P w w.
Proof.
  split; [apply tab_ext_refl|]. exists []. rewrite app_nil_r. auto.
Qed.

Lemma ext_trans P w1 w2 w3 : ext P w1 w2 → ext P w2 w3 → ext P w1 w3.
Proof.
  intros [T1 (n1 & E1 & F1)] [T2 (n2 & E2 & F2)]. split.
  - eapply tab_ext_trans; eauto.
  - exists (n1 ++ n2). rewrite E2, E1, app_assoc. split; [done|].
    apply Forall_app; auto.
Qed.

Lemma ext_mono (P Q : event → Prop) w w' :
  (∀ e, P e → Q e) → ext P w w' → ext Q w w'.
Proof.
  intros HPQ [T (n & E & F)]. split; [done|]. exists n. split; [done|].
  eapply Forall_impl; eauto.
Qed.

Lemma fd_lookup_tab_ext w w' fd d :
  tab_ext (fdtab w) (fdtab w') → fd_lookup w fd = Some d →
  fd_lookup w' fd = Some d.
Proof.
  intros [HL HT]. unfold fd_lookup. case_decide; [done|].
  intros Hm. destruct (fdtab w !! Z.to_nat fd) as [o|] eqn:E; [|done].
  rewrite HT, E; [done|]. eapply lookup_lt_Some; eauto.
Qed.

Lemma fd_lookup_ext P w w' fd d :
  ext P w w' → fd_lookup w fd = Some d → fd_lookup w' fd = Some d.
Proof. intros [HT _]. by apply fd_lookup_tab_ext. Qed.

Lemma fd_lookup_Some_lt w fd d :
  fd_lookup w fd = Some d → 0 ≤ fd < Z.of_nat (List.length (fdtab w)).
Proof.
  unfold fd_lookup. case_decide; [done|]. intros Hm.
  destruct (fdtab w !! Z.to_nat fd) eqn:E; [|done].
  apply lookup_lt_Some in E. lia.
Qed.

Lemma fd_lookup_tab w w' fd :
  fdtab w' = fdtab w → fd_lookup w' fd = fd_lookup w fd.
Proof. unfold fd_lookup. by intros ->. Qed.

Lemma fd_lookup_app_new t d c e tr :
  fd_lookup (mkWorld c e (t ++ [Some d]) tr) (Z.of_nat (List.length t))
  = Some d.
Proof.
  unfold fd_lookup. case_decide; [lia|]. simpl. rewrite Nat2Z.id.
  rewrite lookup_app_r by lia. by rewrite Nat.sub_diag.
Qed.

Lemma ext_log P c w0 w :
  ext P w0 w → P (mkEvent (cwd w) c) → ext P w0 (log_call c w).
Proof.
  intros [HT (n & E & F)] HP. split; [done|].
  exists (n ++ [mkEvent (cwd w) c]). simpl. rewrite E, app_assoc.
  split; [done|]. apply Forall_app. split; [done|]. by constructor.
Qed.

Lemma ext_set_errno P e w w' : ext P w w' → ext P w (set_errno e w').
Proof. intros [HT HN]. split; done. Qed.

Lemma ext_set_cwd P d w w' : ext P w w' → ext P w (set_cwd d w').
Proof. intros [HT HN]. split; done. Qed.

Lemma ext_same P w0 w w' :
  ext P w0 w → fdtab w' = fdtab w → trace w' = trace w → ext P w0 w'.
Proof. intros [HT HN] E1 E2. split; [by rewrite E1|by rewrite E2]. Qed.

Lemma pathcpy_Some s p : pathcpy s = Some p → p = s.
Proof. unfold pathcpy. case_decide; congruence. Qed.

(** ** Rules of the weakest precondition *)

Lemma wp_ret {A} (a : A) w Q : Q (Ret a) w → wp (mret a) w Q.
Proof. done. Qed.

Lemma wp_bind {A B} (m : M A) (f : A → M B) w Q :
  wp m w (λ o w', match o with
                  | Ret a => wp (f a) w' Q
                  | Diverge => Q Diverge w'
                  end) →
  wp (m ≫= f) w Q.
Proof.
  unfold wp, mbind, M_bind. destruct (m w) as [[a|] w']; simpl; auto.
Qed.

Lemma get_errno_spec w Q : Q (Ret (errno w)) w → wp get_errno w Q.
Proof. done. Qed.

(** ** The system calls *)

Section SysCallSpecs.
Variable K : Kernel.

Lemma sys_int_spec P c w0 w Q :
  ext P w0 w →
  P (mkEvent (cwd w) c) →
  (∀ r w', ext P w0 w' → cwd w' = cwd w → fdtab w' = fdtab w →
           (r = -1 ∨ k_int K w c = Ok r) → Q (Ret r) w') →
  wp (sys_int K c) w Q.
Proof.
  intros Hext HP HQ. unfold wp, sys_int.
  destruct (k_int K w c) as [v|e] eqn:E; simpl; apply HQ; auto using ext_log, ext_set_errno.
Qed.

Lemma sys_fd_spec P fd c w0 w Q :
  ext P w0 w →
  (∀ d, fd_lookup w fd = Some d → P (mkEvent (cwd w) (c d))) →
  (∀ r w', ext P w0 w' → cwd w' = cwd w → fdtab w' = fdtab w →
           (r = -1 ∨ ∃ d, fd_lookup w fd = Some d ∧ k_int K w (c d) = Ok r) →
           Q (Ret r) w') →
  wp (sys_fd K fd c) w Q.
Proof.
  intros Hext HP HQ. unfold wp, sys_fd.
  destruct (fd_lookup w fd) as [d|] eqn:E.
  - apply (sys_int_spec P _ w0); [auto..|]. intros r w' ? ? ? [->|?]; apply HQ; eauto.
  - simpl. apply HQ; auto using ext_set_errno.
Qed.

Lemma sys_open_spec P p f m w0 w Q :
  ext P w0 w →
  P (mkEvent (cwd w) (SysOpen p f m)) →
  (∀ fd w', ext P w0 w' → cwd w' = cwd w → tab_ext (fdtab w) (fdtab w') →
     (fd = -1 ∨
      ∃ ino, k_open K w p f m = Ok ino ∧ fd = Z.of_nat (List.length (fdtab w)) ∧
             fresh w0 fd ∧ fresh w fd ∧
             fd_lookup w' fd = Some (mkFdesc ino (cwd w) p)) →
     Q (Ret fd) w') →
  wp (sys_open K p f m) w Q.
Proof.
  intros Hext HP HQ. unfold wp, sys_open.
  destruct (k_open K w p f m) as [ino|e] eqn:E; simpl.
  - apply HQ; simpl; auto using tab_ext_app.
    + destruct (ext_log P (SysOpen p f m) w0 w Hext HP) as [HT HN].
      split; [|done]. simpl. eapply tab_ext_trans; [apply HT|]. apply tab_ext_app.
    + right. exists ino. repeat split; auto.
      * right. destruct Hext as [[HL _] _]. lia.
      * right. lia.
      * apply fd_lookup_app_new.
  - apply HQ; simpl; auto using ext_log, ext_set_errno, tab_ext_refl.
Qed.

(** Closing a descriptor that [w0] does not have keeps [w0]'s table. *)
Lemma sys_close_spec P w0 fd w Q :
  ext P w0 w → fresh w0 fd →
  (∀ r w', ext P w0 w' → cwd w' = cwd w →
           List.length (fdtab w') = List.length (fdtab w) →
           (∀ fd', fd' ≠ fd → fd_lookup w' fd' = fd_lookup w fd') →
           Q (Ret r) w') →
  wp (sys_close fd) w Q.
Proof.
  intros Hext Hfr HQ. unfold wp, sys_close.
  destruct (fd_lookup w fd) as [d|] eqn:E; simpl.
  - assert (Hlt := fd_lookup_Some_lt _ _ _ E).
    destruct Hfr as [->|Hfr]; [lia|].
    apply HQ; auto.
    + destruct Hext as [[HL HT] HN]. split; [|done]. split; simpl; [rewrite length_insert; lia|].
      intros i Hi. rewrite list_lookup_insert_ne by lia. auto.
    + simpl. by rewrite length_insert.
    + intros fd' Hne. unfold fd_lookup. simpl. case_decide; [done|].
      rewrite list_lookup_insert_ne by lia. done.
  - apply HQ; auto using ext_set_errno.
Qed.

Lemma sys_fstat_spec fd w Q :
  (∀ r w', fdtab w' = fdtab w → cwd w' = cwd w → trace w' = trace w →
     r = fd_ino <$> fd_lookup w fd → Q (Ret r) w') →
  wp (sys_fstat fd) w Q.
Proof.
  intros HQ. unfold wp, sys_fstat. destruct (fd_lookup w fd) eqn:E; simpl; apply HQ; auto.
Qed.

Lemma sys_fchdir_spec P fd w0 w Q :
  ext P w0 w →
  (∀ e, probe e → P e) →
  (∀ r w', ext P w0 w' → fdtab w' = fdtab w →
           (r = -1 ∧ cwd w' = cwd w ∨
            r = 0 ∧ ∃ d, fd_lookup w fd = Some d ∧ cwd w' = fd_ino d) →
           Q (Ret r) w') →
  wp (sys_fchdir K fd) w Q.
Proof.
  intros Hext HP HQ. unfold wp, sys_fchdir.
  destruct (fd_lookup w fd) as [d|] eqn:E; simpl.
  - destruct (k_int K w (SysFchdir d)); simpl; apply HQ; auto.
    + apply ext_set_cwd, ext_log; auto. by apply HP.
    + right. eauto.
    + apply ext_set_errno, ext_log; auto. by apply HP.
  - apply HQ; auto using ext_set_errno.
Qed.

Lemma spolicy_spec scopefd candfd w Q :
  (∀ r w', fdtab w' = fdtab w → cwd w' = cwd w → trace w' = trace w →
     (r = 0 → ∃ dc dv, fd_lookup w candfd = Some dc ∧ fd_lookup w scopefd = Some dv ∧
                 st_dev (fd_ino dv) = st_dev (fd_ino dc)) →
     (r = 0 ∨ r = -1 ∨ r = EPERM) →
     (∀ dc dv, fd_lookup w candfd = Some dc → fd_lookup w scopefd = Some dv →
        st_dev (fd_ino dv) ≠ st_dev (fd_ino dc) → r = EPERM) →
     Q (Ret r) w') →
  wp (spolicy scopefd candfd) w Q.
Proof.
  intros HQ. unfold spolicy. apply wp_bind, sys_fstat_spec.
  intros r w1 T1 C1 R1 ->.
  destruct (fd_lookup w candfd) as [dc|] eqn:Ec; simpl.
  2:{ apply wp_ret, HQ; auto; try done. }
  apply wp_bind, sys_fstat_spec. intros r w2 T2 C2 R2 ->.
  rewrite (fd_lookup_tab w w1) by done.
  destruct (fd_lookup w scopefd) as [dv|] eqn:Ev; simpl.
  2:{ apply wp_ret, HQ; try congruence; auto; try done. }
  case_decide; apply wp_ret, HQ; try congruence; auto.
  all: try (unfold EPERM; lia).
  intros _. eauto.
Qed.


Lemma schdirparent_body_spec P fdvol path olddir child w0 w Q :
  ext P w0 w →
  (∀ e, probe e → P e) →
  (∀ r dirfd sd od ch w',
     ext P w0 w' → fresh w0 dirfd → fresh w0 sd → (od = sd ∨ od = -1) →
     sd < Z.of_nat (List.length (fdtab w')) →
     (r = 0 ∨ r = -1) →
     (r ≠ 0 → cwd w' = cwd w) →
     (r = 0 → ∃ p dino, path = Some p ∧
        k_open K w (dirname p) O_RDONLY 0 = Ok dino ∧ cwd w' = dino ∧
        in_scope w fdvol dino ∧ (child = true → ch = basename p)) →
     Q (Ret (r, dirfd, sd, od, ch)) w') →
  wp (schdirparent_body K fdvol path olddir child) w Q.
Proof.
  intros Hext HP HQ. unfold schdirparent_body.
  assert (Hm1 : fresh w0 (-1)) by (by left).
  destruct path as [p|].
  2:{ apply wp_ret, HQ; auto; try done; lia. }
  destruct (pathcpy (dirname p)) as [parent|] eqn:Hp.
  2:{ apply wp_ret, HQ; auto; try done; lia. }
  apply pathcpy_Some in Hp as ->.
  apply wp_bind. apply (sys_open_spec P _ _ _ w0); [done|by apply HP|].
  intros dirfd w1 E1 C1 T1 Hfd.
  case_decide as Hd.
  { subst dirfd. apply wp_ret, HQ; auto; try done; try congruence; lia. }
  destruct Hfd as [?|(dino & Hk & -> & Hf0 & Hf & Hl)]; [done|].
  apply wp_bind, spolicy_spec. intros pol w2 T2 C2 R2 Hpol _ _.
  assert (E2 : ext P w0 w2) by (eapply ext_same; eauto).
  case_decide as Hpz.
  { apply wp_ret, HQ; auto; try done; try congruence; lia. }
  assert (Hscope : in_scope w fdvol dino).
  { destruct Hpol as (dc & dv & Hdc & Hdv & Hdev); [lia|].
    rewrite Hl in Hdc. injection Hdc as <-. simpl in Hdev.
    intros d Hd'. eapply fd_lookup_tab_ext in Hd'; [|exact T1]. congruence. }
  destruct (if child then pathcpy (basename p) else Some "") as [childv|] eqn:Hc.
  2:{ apply wp_ret, HQ; auto; try done; try congruence; lia. }
  assert (Hch : child = true → childv = basename p).
  { intros ->. by apply pathcpy_Some in Hc. }
  assert (Hl2 : fd_lookup w2 (Z.of_nat (List.length (fdtab w))) =
                Some (mkFdesc dino (cwd w) (dirname p))).
  { by rewrite (fd_lookup_tab w1 w2). }
  destruct olddir.
  - apply wp_bind. apply (sys_open_spec P _ _ _ w0); [done|by apply HP|].
    intros sd w3 E3 C3 T3 Hsd.
    case_decide as Hs.
    { subst sd. apply wp_ret, HQ; auto; try done; try congruence; lia. }
    destruct Hsd as [?|(sino & _ & Hsd & Hsf & _ & Hsl)]; [done|].
    apply wp_bind. apply (sys_fchdir_spec P _ w0); [done..|].
    intros r w4 E4 T4 Hr. apply wp_ret, HQ; auto.
    + rewrite T4. apply fd_lookup_Some_lt in Hsl. lia.
    + destruct Hr as [[-> _]|[-> _]]; auto.
    + destruct Hr as [[-> Hr]|[-> _]]; [|done]. intros _. congruence.
    + intros ->. destruct Hr as [[? _]|[_ (d & Hd4 & Hcw)]]; [done|].
      exists p, dino. repeat split; auto.
      eapply fd_lookup_tab_ext in Hl2; [|exact T3].
      rewrite Hl2 in Hd4. injection Hd4 as <-. done.
  - apply wp_bind. apply (sys_fchdir_spec P _ w0); [done..|].
    intros r w4 E4 T4 Hr. apply wp_ret, HQ; auto.
    + lia.
    + destruct Hr as [[-> _]|[-> _]]; auto.
    + destruct Hr as [[-> Hr]|[-> _]]; [|done]. intros _. congruence.
    + intros ->. destruct Hr as [[? _]|[_ (d & Hd4 & Hcw)]]; [done|].
      exists p, dino. repeat split; auto.
      rewrite Hl2 in Hd4. injection Hd4 as <-. done.
Qed.

Lemma schdirparent_spec P fdvol path olddir child w0 w Q :
  ext P w0 w →
  (∀ e, probe e → P e) →
  (∀ r sd ch w',
     ext P w0 w' → fresh w0 sd → sd < Z.of_nat (List.length (fdtab w')) →
     (r = 0 ∨ r = -1) →
     (r ≠ 0 → cwd w' = cwd w) →
     (r = 0 → ∃ p dino, path = Some p ∧
        k_open K w (dirname p) O_RDONLY 0 = Ok dino ∧ cwd w' = dino ∧
        in_scope w fdvol dino ∧ (child = true → ch = basename p)) →
     Q (Ret (r, sd, ch)) w') →
  wp (schdirparent K fdvol path olddir child) w Q.
Proof.
  intros Hext HP HQ. unfold schdirparent.
  apply wp_bind, (schdirparent_body_spec P _ _ _ _ w0); [done..|].
  intros r dirfd sd od ch w1 E1 Fd Fs Hod Hlt Hr Hc Hz. simpl.
  assert (Fo : fresh w0 od) by (destruct Hod as [->| ->]; [done|by left]).
  assert (Hlo : od < Z.of_nat (List.length (fdtab w1)))
    by (destruct Hod as [->| ->]; lia).
  apply wp_bind.
  assert (Hfin : ∀ Q',
     (∀ x w2, ext P w0 w2 → cwd w2 = cwd w1 →
        List.length (fdtab w2) = List.length (fdtab w1) → Q' (Ret x) w2) →
     wp (if decide (r ≠ 0)
         then (if decide (sd ≠ -1) then sys_close sd else mret 0);;
              (if olddir && bool_decide (od ≠ -1) then sys_close od else mret 0)
         else mret 0) w1 Q').
  { intros Q' HQ'. destruct (decide (r ≠ 0)); [|by apply wp_ret; auto].
    apply wp_bind.
    assert (H1 : ∀ Q'',
        (∀ x w2, ext P w0 w2 → cwd w2 = cwd w1 →
           List.length (fdtab w2) = List.length (fdtab w1) → Q'' (Ret x) w2) →
        wp (if decide (sd ≠ -1) then sys_close sd else mret 0) w1 Q'').
    { intros Q'' HQ''. destruct (decide (sd ≠ -1)); [|by apply wp_ret, HQ''].
      apply (sys_close_spec P w0); auto. }
    apply H1. intros x w2 E2 C2 L2.
    destruct (olddir && bool_decide (od ≠ -1)).
    + apply (sys_close_spec P w0); auto. intros. apply HQ'; auto; congruence.
    + apply wp_ret. auto. }
  apply Hfin. clear Hfin. intros x w2 E2 C2 L2.
  apply wp_bind.
  destruct (decide (dirfd ≠ -1)).
  - apply (sys_close_spec P w0); auto. intros x' w3 E3 C3 L3 _.
    apply wp_ret, HQ; auto.
    + lia.
    + intros Hn. rewrite C3, C2. auto.
    + intros Hn. destruct (Hz Hn) as (p & dino & ? & ? & ? & ? & ?).
      exists p, dino. repeat split; auto. congruence.
  - apply wp_ret, wp_ret, HQ; auto.
    + lia.
    + intros Hn. rewrite C2. auto.
    + intros Hn. destruct (Hz Hn) as (p & dino & ? & ? & ? & ? & ?).
      exists p, dino. repeat split; auto. congruence.
Qed.

Lemma restoredir_spec P w0 sd w Q :
  ext P w0 w → (∀ e, probe e → P e) → fresh w0 sd →
  (∀ r w', ext P w0 w' →
     (∀ fd', fd' ≠ sd → fd_lookup w' fd' = fd_lookup w fd') →
     Q (Ret r) w') →
  wp (restoredir K sd) w Q.
Proof.
  intros Hext HP Hf HQ. unfold restoredir.
  destruct (decide (sd ≠ -1)); [|by apply wp_ret, HQ].
  apply wp_bind, (sys_fchdir_spec P _ w0); [done..|].
  intros r w1 E1 T1 _.
  apply wp_bind, (sys_close_spec P w0); [done..|].
  intros r2 w2 E2 C2 L2 Hl. apply wp_ret, HQ; auto.
  intros fd' Hne. rewrite Hl by done. by apply fd_lookup_tab.
Qed.

Lemma RESTOREDIR_spec P w0 sd w Q :
  ext P w0 w → (∀ e, probe e → P e) → fresh w0 sd →
  (∀ w', ext P w0 w' →
     (∀ fd', fd' ≠ sd → fd_lookup w' fd' = fd_lookup w fd') →
     Q (Ret ()) w') →
  wp (RESTOREDIR K sd) w Q.
Proof.
  intros Hext HP Hf HQ. unfold RESTOREDIR.
  destruct (decide (sd ≠ -1)); [|by apply wp_ret, HQ].
  apply wp_bind, (restoredir_spec P w0); [done..|].
  intros r w1 E1 Hl. apply wp_ret, HQ; auto.
Qed.

Lemma scoped_int_spec P fdvol path c w0 w Q :
  ext P w0 w → (∀ e, probe e → P e) →
  (∀ dino, k_open K w (dirname path) O_RDONLY 0 = Ok dino →
     in_scope w fdvol dino → P (mkEvent dino (c (basename path)))) →
  (∀ r w', ext P w0 w' →
     (r = -1 ∨ ∃ dino, k_open K w (dirname path) O_RDONLY 0 = Ok dino ∧
                       in_scope w fdvol dino) →
     Q (Ret r) w') →
  wp (scoped_int K fdvol path c) w Q.
Proof.
  intros Hext HP Hc HQ. unfold scoped_int.
  apply wp_bind, (schdirparent_spec P _ _ _ _ w0); [done..|].
  intros r sd ch w1 E1 Fs Ls Hr Hcw Hz. simpl.
  apply wp_bind.
  destruct (decide (r ≠ 0)).
  - apply wp_ret. apply wp_bind, (RESTOREDIR_spec P w0); [done..|].
    intros w2 E2 _. apply wp_ret, HQ; auto.
  - destruct Hz as (p & dino & [= <-] & Hk & Hcwd & Hs & Hch); [lia|].
    rewrite Hch by done. 
    apply (sys_int_spec P _ w0); [done|rewrite Hcwd; auto|].
    intros r' w2 E2 C2 T2 Hr'.
    apply wp_bind, (RESTOREDIR_spec P w0); [done..|].
    intros w3 E3 _. apply wp_ret, HQ; eauto.
Qed.


Lemma probe_confined D e : probe e → confined D e.
Proof.
  unfold probe, confined. destruct e as [cw [] ]; simpl; try done.
  intros [-> ->]. done.
Qed.

Lemma sopen_spec P fdvol path flags mode w0 w Q :
  ext P w0 w → (∀ e, probe e → P e) →
  (∀ dino, k_open K w (dirname path) O_RDONLY 0 = Ok dino →
     in_scope w fdvol dino →
     P (mkEvent dino (SysOpen (basename path) (sopen_flags flags) mode))) →
  (∀ rfd w', ext P w0 w' →
     (rfd = -1 ∨ ∃ dino ino,
        k_open K w (dirname path) O_RDONLY 0 = Ok dino ∧
        in_scope w fdvol dino ∧ fresh w0 rfd ∧
        fd_lookup w' rfd = Some (mkFdesc ino dino (basename path)) ∧
        ∃ w1, cwd w1 = dino ∧
          k_open K w1 (basename path) (sopen_flags flags) mode = Ok ino) →
     Q (Ret rfd) w') →
  wp (sopen K fdvol path flags mode) w Q.
Proof.
  intros Hext HP Hc HQ. unfold sopen. fold (sopen_flags flags).
  apply wp_bind, (schdirparent_spec P _ _ _ _ w0); [done..|].
  intros r sd ch w1 E1 Fs Ls Hr Hcw Hz. simpl.
  apply wp_bind.
  destruct (decide (r ≠ 0)).
  - apply wp_ret. simpl. apply wp_bind.
    destruct (decide (-1 ≠ -1 ∧ -1 ≠ -1)) as [[? _]|_]; [done|].
    apply wp_ret. apply wp_bind, (RESTOREDIR_spec P w0); [done..|].
    intros w2 E2 _. apply wp_ret, HQ; auto.
  - destruct Hz as (p & dino & [= <-] & Hk & Hcwd & Hs & Hch); [lia|].
    rewrite Hch by done.
    apply wp_bind, (sys_open_spec P _ _ _ w0); [done|rewrite Hcwd; auto|].
    intros candfd w2 E2 C2 T2 Hfd.
    destruct (decide (candfd = -1)) as [->|Hne].
    + apply wp_ret. simpl. apply wp_bind.
      destruct (decide (-1 ≠ -1 ∧ -1 ≠ -1)) as [[? _]|_]; [done|].
      apply wp_ret. apply wp_bind, (RESTOREDIR_spec P w0); [done..|].
      intros w3 E3 _. apply wp_ret, HQ; auto.
    + apply wp_ret. simpl. apply wp_bind.
      destruct (decide (candfd ≠ -1 ∧ candfd ≠ candfd)) as [[_ ?]|_]; [done|].
      apply wp_ret. apply wp_bind, (RESTOREDIR_spec P w0); [done..|].
      intros w3 E3 Hl. apply wp_ret, HQ; auto.
      destruct Hfd as [?|(ino & Hko & Hc' & Hf0 & _ & Hl2)]; [done|].
      right. exists dino, ino. repeat split; auto.
      * rewrite Hl by lia. by rewrite Hl2, Hcwd.
      * exists w1. auto.
Qed.

Lemma sys_stat_spec P p w0 w Q :
  ext P w0 w → P (mkEvent (cwd w) (SysStat p)) →
  (∀ r w', ext P w0 w' → cwd w' = cwd w → fdtab w' = fdtab w →
     Q (Ret r) w') →
  wp (sys_stat K p) w Q.
Proof.
  intros Hext HP HQ. unfold wp, sys_stat.
  destruct (k_stat K w p); simpl; apply HQ; auto using ext_log, ext_set_errno.
Qed.


Lemma sys_malloc_spec P n w0 w Q :
  ext P w0 w → P (mkEvent (cwd w) (SysMalloc n)) →
  (∀ r w', ext P w0 w' → fdtab w' = fdtab w → Q (Ret r) w') →
  wp (sys_malloc K n) w Q.
Proof.
  intros Hext HP HQ. unfold wp, sys_malloc.
  destruct (k_int K w (SysMalloc n)); simpl; apply HQ; auto using ext_log, ext_set_errno.
Qed.

(** *** Confinement of the scoped calls *)

Section Confined.
Variables (D : Z) (fdvol : Z) (w0 : World) (d0 : fdesc).
Hypothesis Hvol : fd_lookup w0 fdvol = Some d0.
Hypothesis Hdev : st_dev (fd_ino d0) = D.

Lemma in_scope_dev w dino :
  ext (confined D) w0 w → in_scope w fdvol dino → st_dev dino = D.
Proof.
  intros Hext Hs. rewrite <- Hdev. symmetry. apply Hs.
  eapply fd_lookup_ext; eauto.
Qed.


Lemma path_call_confined dino c :
  st_dev dino = D →
  match c with
  | SysOpen _ _ _ | SysMkdir _ _ | SysRmdir _ | SysUnlink _ | SysRename _ _
  | SysStat _ | SysFtsOpen _ _ | SysMalloc _ | SysBless _ _ => True
  | _ => False
  end →
  confined D (mkEvent dino c).
Proof. intros Hd Hc _. by destruct c. Qed.





Lemma sopen_confined path flags mode w Q :
  ext (confined D) w0 w →
  (∀ rfd w', ext (confined D) w0 w' →
     (rfd = -1 ∨ fresh w0 rfd ∧
        ∃ d, fd_lookup w' rfd = Some d ∧ st_dev (fd_cwd d) = D) →
     Q (Ret rfd) w') →
  wp (sopen K fdvol path flags mode) w Q.
Proof.
  intros Hext HQ.
  apply (sopen_spec (confined D) _ _ _ _ w0); auto using probe_confined.
  - intros dino _ Hs. apply path_call_confined; [by apply (in_scope_dev w)|done].
  - intros rfd w' E' [->|(dino & ino & _ & Hs & Hf & Hl & _)]; apply HQ; auto.
    right. split; [done|]. eexists. split; [exact Hl|]. simpl.
    by apply (in_scope_dev w).
Qed.









End Confined.

End SysCallSpecs.

(** ** safecalls.c: confinement to the scope's device *)








(** ** safecalls.c: [sopen] and [O_EXCL] *)

Lemma land_lor_same a b : Z.land (Z.lor a b) b = b.
Proof.
  apply Z.bits_inj'. intros n Hn. rewrite Z.land_spec, Z.lor_spec.
  destruct (Z.testbit a n), (Z.testbit b n); reflexivity.
Qed.

(** C9. When the flags given to [sopen] have [O_CREAT], every [open] that
    [sopen] issues is either one of the read-only opens by which
    [schdirparent] finds the parent directory, or carries the flags with
    [O_EXCL] added; and a descriptor that [sopen] returns was obtained from
    the kernel by an [open] of the target's base name with those flags. *)
Theorem sopen_creat_excl K fdvol path flags mode w :
  Z.land flags O_CREAT ≠ 0 →
  let r := sopen K fdvol path flags mode w in
  (∃ new, trace r.2 = trace w ++ new ∧
     ∀ e p f m, e ∈ new → ev_call e = SysOpen p f m →
       (f = O_RDONLY ∧ m = 0) ∨
       (f = Z.lor flags O_EXCL ∧ Z.land f O_EXCL = O_EXCL)) ∧
  ∃ rfd, r.1 = Ret rfd ∧
    (rfd ≠ -1 → ∃ d w1, fd_lookup r.2 rfd = Some d ∧
       k_open K w1 (basename path) (Z.lor flags O_EXCL) mode = Ok (fd_ino d)).
Proof.
  intros Hc r. subst r.
  set (P := λ e : event, ∀ p f m, ev_call e = SysOpen p f m →
         (f = O_RDONLY ∧ m = 0) ∨
         (f = Z.lor flags O_EXCL ∧ Z.land f O_EXCL = O_EXCL)).
  assert (Hf : sopen_flags flags = Z.lor flags O_EXCL).
  { unfold sopen_flags. by destruct (decide _). }
  apply (sopen_spec K P fdvol path flags mode w w
    (λ o w', (∃ new, trace w' = trace w ++ new ∧
               ∀ e p f m, e ∈ new → ev_call e = SysOpen p f m →
                 (f = O_RDONLY ∧ m = 0) ∨
                 (f = Z.lor flags O_EXCL ∧ Z.land f O_EXCL = O_EXCL)) ∧
             ∃ rfd, o = Ret rfd ∧
               (rfd ≠ -1 → ∃ d w1, fd_lookup w' rfd = Some d ∧
                  k_open K w1 (basename path) (Z.lor flags O_EXCL) mode
                  = Ok (fd_ino d)))).
  - apply ext_refl.
  - intros [cw c] Hp p f m. simpl. intros ->. simpl in Hp. by left.
  - intros dino _ _ p f m. simpl. intros [= <- <- <-]. right.
    rewrite Hf. split; [done|apply land_lor_same].
  - intros rfd w' [_ (new & Hn & HF)] Hr. split.
    + exists new. split; [done|]. intros e p f m He.
      rewrite Forall_forall in HF. by apply HF.
    + exists rfd. split; [done|]. intros Hne.
      destruct Hr as [?|(dino & ino & _ & _ & _ & Hl & w1 & _ & Hk)]; [done|].
      exists (mkFdesc ino dino (basename path)), w1. split; [done|].
      by rewrite <- Hf.
Qed.

(** C9 on the helper of [demo_fs], creating a file with
    [O_WRONLY|O_CREAT]. *)
Lemma sopen_creat_excl_witness :
  Z.land (Z.lor O_WRONLY O_CREAT) O_CREAT ≠ 0 ∧
  let r := sopen (fs_kernel demo_fs) 1 "/Volumes/boot/stamp"
             (Z.lor O_WRONLY O_CREAT) 493 demo_world in
  (∃ new, trace r.2 = trace demo_world ++ new ∧
     ∀ e p f m, e ∈ new → ev_call e = SysOpen p f m →
       (f = O_RDONLY ∧ m = 0) ∨
       (f = Z.lor (Z.lor O_WRONLY O_CREAT) O_EXCL ∧ Z.land f O_EXCL = O_EXCL)) ∧
  ∃ rfd, r.1 = Ret rfd ∧
    (rfd ≠ -1 → ∃ d w1, fd_lookup r.2 rfd = Some d ∧
       k_open (fs_kernel demo_fs) w1 (basename "/Volumes/boot/stamp")
         (Z.lor (Z.lor O_WRONLY O_CREAT) O_EXCL) 493 = Ok (fd_ino d)).
Proof.
  split; [vm_compute; congruence|].
  apply (sopen_creat_excl (fs_kernel demo_fs) 1 "/Volumes/boot/stamp"
           (Z.lor O_WRONLY O_CREAT) 493 demo_world).
  vm_compute; congruence.
Defined.

Example sopen_creat_excl_run :
  let r := sopen (fs_kernel demo_fs) 1 "/Volumes/boot/stamp"
             (Z.lor O_WRONLY O_CREAT) 493 demo_world in
  r.1 = Ret 4 ∧
  calls r.2 = [ SysOpen "/Volumes/boot" 0 0; SysOpen "." 0 0;
                SysFchdir (mkFdesc (dir_inode 2 2) (dir_inode 0 2) "/Volumes/boot");
                SysOpen "stamp" 2561 493;
                SysFchdir (mkFdesc (dir_inode 0 2) (dir_inode 0 2) ".") ].
Proof. vm_compute. split; reflexivity. Qed.

(** ** safecalls.c: [sdeepmkdir] *)

(** For a path that exists, [sdeepmkdir] returns 0, whatever the path is:
    the test of [S_IFDIR] is never true. *)
Lemma sdeepmkdir_existing K fdvol path mode w sb :
  strlen path ≠ 0 → k_stat K w path = Ok sb →
  (sdeepmkdir K fdvol path mode w).1 = Ret 0.
Proof.
  intros Hl Hs. unfold sdeepmkdir.
  replace (String.length path + 2)%nat with (S (String.length path + 1)) by lia.
  simpl. destruct (decide _); [done|].
  unfold mbind, M_bind, sys_stat. rewrite Hs. simpl.
  destruct (decide _) as [Hn|]; [|done].
  exfalso. apply Hn. apply Z.land_0_r.
Qed.

(** C6 (code defect). For a path that exists and is not a directory,
    [sdeepmkdir] returns 0, not [ENOTDIR]. *)
Theorem sdeepmkdir_nondir_succeeds K fdvol path mode w sb :
  strlen path ≠ 0 → k_stat K w path = Ok sb →
  Z.land (st_mode sb) S_IFMT ≠ S_IFDIR →
  (sdeepmkdir K fdvol path mode w).1 = Ret 0 ∧
  (sdeepmkdir K fdvol path mode w).1 ≠ Ret ENOTDIR.
Proof.
  intros Hl Hs _. rewrite (sdeepmkdir_existing K fdvol path mode w sb Hl Hs).
  split; [done|]. intros [=].
Qed.

(** C6 on the path of bootcaches.plist, a regular file. *)
Lemma sdeepmkdir_nondir_succeeds_witness :
  let path := "/Volumes/host/usr/standalone/bootcaches.plist" in
  let sb := file_inode 1 12 100 (mkTimespec 500 0) in
  strlen path ≠ 0 ∧ k_stat (fs_kernel demo_fs) demo_world path = Ok sb ∧
  Z.land (st_mode sb) S_IFMT = S_IFREG ∧
  (sdeepmkdir (fs_kernel demo_fs) 0 path 493 demo_world).1 = Ret 0.
Proof.
  cbv zeta.
  split; [vm_compute; congruence|].
  split; [vm_compute; reflexivity|].
  split; [vm_compute; reflexivity|].
  apply (sdeepmkdir_nondir_succeeds (fs_kernel demo_fs) 0
           "/Volumes/host/usr/standalone/bootcaches.plist" 493 demo_world
           (file_inode 1 12 100 (mkTimespec 500 0)));
    vm_compute; (reflexivity || congruence).
Defined.

(** For a path that [stat] does not find, [sdeepmkdir] goes on only after
    [ENOENT], with itself on the parent and then [smkdir] on the path. *)
Lemma sdeepmkdir_missing K fdvol path mode w n e :
  strlen path ≠ 0 → k_stat K w path = Err e →
  sdeepmkdir_rec K (S n) fdvol path mode w =
  let w1 := set_errno e (log_call (SysStat path) w) in
  if decide (e ≠ ENOENT) then (Ret (-1), w1) else
  match pathcpy (dirname path) with
  | None => (Ret (-1), w1)
  | Some parent =>
      (bsderr ← sdeepmkdir_rec K n fdvol parent mode;
       if decide (bsderr ≠ 0) then mret bsderr
       else smkdir K fdvol path mode) w1
  end.
Proof.
  intros Hl Hs. simpl. destruct (decide (strlen path = 0)); [done|].
  unfold mbind, M_bind, sys_stat, get_errno, mret, M_ret. rewrite Hs. simpl.
  destruct (decide (e ≠ ENOENT)); [done|].
  destruct (pathcpy (dirname path)); done.
Qed.

(** *** How far the recursion of [sdeepmkdir] is followed *)

Lemma drop_slashes_length r :
  (List.length (drop_slashes r) ≤ List.length r)%nat.
Proof. induction r as [|c r IH]; simpl; [lia|]. destruct (is_slash c); simpl; lia. Qed.

Lemma split_component_length r :
  (List.length (split_component r).2 ≤ List.length r)%nat.
Proof.
  induction r as [|c r IH]; simpl; [lia|].
  destruct (is_slash c); simpl; [lia|].
  destruct (split_component r); simpl in *. lia.
Qed.

Lemma split_component_shorter r :
  drop_slashes r = r → r ≠ [] →
  (List.length (split_component r).2 < List.length r)%nat.
Proof.
  destruct r as [|c r]; [done|]. simpl. intros Hd _.
  destruct (is_slash c).
  - pose proof (drop_slashes_length r). rewrite Hd in *. simpl in *. lia.
  - pose proof (split_component_length r).
    destruct (split_component r); simpl in *. lia.
Qed.

Lemma drop_slashes_idem r : drop_slashes (drop_slashes r) = drop_slashes r.
Proof.
  induction r as [|c r IH]; simpl; [done|].
  destruct (is_slash c) eqn:E; [done|]. simpl. by rewrite E.
Qed.

Lemma length_string_of_list_ascii l :
  String.length (string_of_list_ascii l) = List.length l.
Proof. induction l; simpl; congruence. Qed.

Lemma length_list_ascii_of_string s :
  List.length (list_ascii_of_string s) = String.length s.
Proof. induction s; simpl; congruence. Qed.

(** [dirname] gives "." or "/", or a path that is shorter and not empty. *)
Lemma dirname_shorter p :
  dirname p = "." ∨ dirname p = "/" ∨
  (0 < String.length (dirname p) < String.length p)%nat.
Proof.
  unfold dirname. rewrite <- (length_list_ascii_of_string p).
  destruct (list_ascii_of_string p) as [|c cs] eqn:Ep; [by left|].
  rewrite <- Ep. clear Ep.
  assert (Hl : (List.length (drop_slashes (rev (list_ascii_of_string p)))
           ≤ List.length (list_ascii_of_string p))%nat).
  { etrans; [apply drop_slashes_length|]. by rewrite length_rev. }
  pose proof (drop_slashes_idem (rev (list_ascii_of_string p))) as Hi.
  destruct (drop_slashes (rev (list_ascii_of_string p))) as [|a r] eqn:Er;
    [by right; left|].
  pose proof (split_component_shorter (a :: r) Hi) as Hs.
  destruct (split_component (a :: r)).2 as [|b rest] eqn:Es; [by left|].
  pose proof (drop_slashes_length (b :: rest)) as Hd.
  destruct (drop_slashes (b :: rest)) as [|x d] eqn:Ed; [by right; left|].
  right; right. rewrite length_string_of_list_ascii, length_rev.
  specialize (Hs ltac:(done)). simpl in *. lia.
Qed.

Lemma dirname_dot : dirname "." = ".".
Proof. reflexivity. Qed.
Lemma dirname_root : dirname "/" = "/".
Proof. reflexivity. Qed.

(** Taking [dirname] as many times as the path has characters ends at
    "." or "/", and stays there. *)
Lemma dirname_iter n : ∀ p, (String.length p ≤ S n)%nat →
  Nat.iter (S n) dirname p = "." ∨ Nat.iter (S n) dirname p = "/".
Proof.
  induction n as [|n IH]; intros p Hp.
  - simpl. destruct (dirname_shorter p) as [?|[?|?]]; auto. lia.
  - rewrite Nat.iter_succ_r.
    destruct (dirname_shorter p) as [E|[E|?]].
    + rewrite E. apply IH. simpl. lia.
    + rewrite E. apply IH. simpl. lia.
    + apply IH. lia.
Qed.

Lemma smkdir_returns K fdvol path mode w :
  ∃ r, (smkdir K fdvol path mode w).1 = Ret r.
Proof.
  apply (scoped_int_spec K (λ _, True) fdvol path (λ ch, SysMkdir ch mode)
           w w (λ o _, ∃ r, o = Ret r)); [apply ext_refl|done|done|].
  intros r w' _ _. by exists r.
Qed.

(** A run of [sdeepmkdir_rec] that is cut at depth [n] has made [n] calls,
    on the path, its [dirname], the [dirname] of that, and so on, and in
    each of them [stat] has answered [ENOENT]. *)
Lemma sdeepmkdir_rec_cut K fdvol mode n : ∀ path w,
  (sdeepmkdir_rec K n fdvol path mode w).1 = Diverge →
  ∀ k, (k < n)%nat →
    ∃ w', k_stat K w' (Nat.iter k dirname path) = Err ENOENT.
Proof.
  induction n as [|n IH]; intros path w Hd k Hk; [lia|].
  simpl in Hd. destruct (decide (strlen path = 0)); [done|].
  unfold mbind, M_bind, sys_stat in Hd.
  destruct (k_stat K w path) as [sb|e] eqn:Es; simpl in Hd.
  { by destruct (decide _). }
  unfold get_errno in Hd. simpl in Hd.
  destruct (decide (e ≠ ENOENT)) as [|He]; [done|].
  assert (e = ENOENT) as -> by (destruct (decide (e = ENOENT)); done).
  destruct (pathcpy (dirname path)) as [parent|] eqn:Hp; [|done].
  apply pathcpy_Some in Hp as ->.
  destruct k as [|k]; [by exists w|].
  rewrite Nat.iter_succ_r.
  destruct (sdeepmkdir_rec K n fdvol (dirname path) mode _)
    as [[b|] w2] eqn:Er; simpl in Hd.
  - destruct (decide (b ≠ 0)); [done|].
    destruct (smkdir_returns K fdvol path mode w2) as [r Hr]. congruence.
  - eapply IH; [by rewrite Er|lia].
Qed.

(** [sdeepmkdir] is given up as not returning only when [stat] has
    answered [ENOENT] for "." or for "/". *)
Lemma sdeepmkdir_cut K fdvol path mode w :
  (sdeepmkdir K fdvol path mode w).1 = Diverge →
  ∃ p w', (p = "." ∨ p = "/") ∧ k_stat K w' p = Err ENOENT.
Proof.
  intros Hd. unfold sdeepmkdir in Hd.
  destruct path as [|c path]; [done|].
  destruct (sdeepmkdir_rec_cut _ _ _ _ _ _ Hd (S (String.length path)))
    as [w' Hw]; [simpl; lia|].
  exists (Nat.iter (S (String.length path)) dirname (String c path)), w'.
  split; [|done]. by apply dirname_iter.
Qed.

(** ** safecalls.c: the copy loop of [scopyfile] *)

Lemma sys_fd_returns K fd c w : ∃ r, (sys_fd K fd c w).1 = Ret r.
Proof.
  unfold sys_fd, sys_int. destruct (fd_lookup w fd); [|by eexists].
  destruct (k_int K w _); by eexists.
Qed.

(** The copy loop returns when it is given a turn for each block. *)
Lemma scopyfile_loop_returns K srcfd dstfd n : ∀ bytesLeft w,
  bytesLeft ≤ Z.of_nat n * MAXBSIZE →
  ∃ b, (scopyfile_loop K n srcfd dstfd bytesLeft w).1 = Ret b.
Proof.
  induction n as [|n IH]; intros bytesLeft w Hb; simpl.
  - destruct (decide (bytesLeft > 0)); [lia|by eexists].
  - destruct (decide (bytesLeft > 0)); [|by eexists].
    unfold mbind, M_bind, sys_read, sys_write.
    destruct (sys_fd_returns K srcfd
                (λ d, SysRead d (bytesLeft `min` MAXBSIZE)) w) as [r Hr].
    destruct (sys_fd K srcfd _ w) as [o w1]. simpl in Hr. subst o.
    destruct (decide _); [by eexists|].
    destruct (sys_fd_returns K dstfd
                (λ d, SysWrite d (bytesLeft `min` MAXBSIZE)) w1) as [r' Hr'].
    destruct (sys_fd K dstfd _ w1) as [o w2]. simpl in Hr'. subst o.
    destruct (decide _); [by eexists|].
    apply IH. assert (0 < MAXBSIZE) by done. lia.
Qed.

(** The number of turns [scopyfile] gives the loop is enough for a file of
    any size. *)
Lemma scopyfile_loop_fuel K srcfd dstfd size w :
  ∃ b, (scopyfile_loop K (Z.to_nat (size / MAXBSIZE) + 1) srcfd dstfd size w).1
       = Ret b.
Proof.
  apply scopyfile_loop_returns.
  assert (HM : 0 < MAXBSIZE) by done.
  rewrite Nat2Z.inj_add. destruct (decide (size < 0)); [lia|].
  rewrite Z2Nat.id by (apply Z.div_pos; lia).
  pose proof (Z.mod_pos_bound size MAXBSIZE HM).
  pose proof (Z.div_mod size MAXBSIZE ltac:(lia)). lia.
Qed.

(** ** update_boot.c: the RPS rotation *)

Lemma strlen_append a b : strlen (a +:+ b) = strlen a + strlen b.
Proof.
  unfold strlen. induction a as [|c a IH]; simpl; [done|].
  rewrite !Nat2Z.inj_succ. lia.
Qed.

Lemma pathcpy_fits s : strlen s < PATH_MAX → pathcpy s = Some s.
Proof. intros. unfold pathcpy. destruct (decide _); [lia|done]. Qed.

Lemma pathcat_fits a b :
  strlen a + strlen b < PATH_MAX → pathcat a b = Some (a +:+ b).
Proof. intros. unfold pathcat. destruct (decide _); [lia|done]. Qed.

Lemma sys_stat_eq K p w :
  sys_stat K p w =
  (Ret (match k_stat K w p with Ok sb => Some sb | Err _ => None end),
   (sys_stat K p w).2).
Proof. unfold sys_stat. by destruct (k_stat K w p). Qed.

(** C2. With a mount point short enough for the three paths to fit their
    buffers, [FindRPSDir] returns 0 and the paths of three directories
    [prev], [current] and [next] of the helper such that: with R, P and S
    all there, current is R, next is P and previous is S; with exactly two
    there, [a] and the one after it in the rotation, current is the later
    one, next is the missing one (and previous is [a]); with exactly one
    there, it is current, next is the one after it and previous the third;
    with none there, current is R, next is P and previous is S. *)
Theorem FindRPSDir_selection K up w :
  strlen (curMount up) + 17 < PATH_MAX →
  let have := rps_present K (curMount up) w in
  ∃ prev cur next w',
    FindRPSDir K up w =
      (Ret (0, rps_path (curMount up) prev, rps_path (curMount up) cur,
            rps_path (curMount up) next), w') ∧
    (have rpsR = true → have rpsP = true → have rpsS = true →
       cur = rpsR ∧ next = rpsP ∧ prev = rpsS) ∧
    (∀ a, have a = true → have (rps_next a) = true →
          have (rps_next (rps_next a)) = false →
       cur = rps_next a ∧ next = rps_next (rps_next a) ∧ prev = a) ∧
    (∀ a, have a = true → have (rps_next a) = false →
          have (rps_next (rps_next a)) = false →
       cur = a ∧ next = rps_next a ∧ prev = rps_next (rps_next a)) ∧
    (have rpsR = false → have rpsP = false → have rpsS = false →
       cur = rpsR ∧ next = rpsP ∧ prev = rpsS).
Proof.
  intros Hlen have.
  set (m := curMount up) in *.
  assert (Hs : strlen "/" = 1) by done.
  assert (HR : strlen kBootDirR = 16) by done.
  assert (HP : strlen kBootDirP = 16) by done.
  assert (HS : strlen kBootDirS = 16) by done.
  unfold FindRPSDir. fold m.
  rewrite (pathcpy_fits m) by lia.
  rewrite (pathcat_fits m "/") by lia.
  rewrite (pathcpy_fits (m +:+ "/")) by (rewrite strlen_append; lia).
  rewrite !pathcat_fits by (rewrite strlen_append; lia).
  change ((m +:+ "/") +:+ kBootDirR) with (rps_path m rpsR).
  change ((m +:+ "/") +:+ kBootDirP) with (rps_path m rpsP).
  change ((m +:+ "/") +:+ kBootDirS) with (rps_path m rpsS).
  assert (Hfit : ∀ x, pathcpy (rps_path m x) = Some (rps_path m x)).
  { intros x. apply pathcpy_fits. unfold rps_path.
    rewrite !strlen_append. destruct x; simpl; lia. }
  unfold mbind, M_bind.
  rewrite (sys_stat_eq K (rps_path m rpsR) w).
  set (w1 := (sys_stat K (rps_path m rpsR) w).2).
  rewrite (sys_stat_eq K (rps_path m rpsP) w1).
  set (w2 := (sys_stat K (rps_path m rpsP) w1).2).
  rewrite (sys_stat_eq K (rps_path m rpsS) w2).
  set (w3 := (sys_stat K (rps_path m rpsS) w2).2).
  assert (HhR : have rpsR = stat_ok K w (rps_path m rpsR)) by done.
  assert (HhP : have rpsP = stat_ok K w1 (rps_path m rpsP)) by done.
  assert (HhS : have rpsS = stat_ok K w2 (rps_path m rpsS)) by done.
  unfold stat_ok in *. clearbody have.
  destruct (k_stat K w (rps_path m rpsR));
  destruct (k_stat K w1 (rps_path m rpsP));
  destruct (k_stat K w2 (rps_path m rpsS)); simpl; rewrite !Hfit; simpl.
  all: eexists _, _, _, _; (split; [reflexivity|]).
  all: repeat split; try congruence.
  all: match goal with x : rps |- _ => destruct x end; simpl in *; congruence.
Qed.

(** C2 on a helper with R and P: P is current, the missing S is next and R
    is previous. *)
Lemma FindRPSDir_selection_witness :
  strlen (curMount (demo_up "" kBootEFI)) + 17 < PATH_MAX ∧
  ∃ w', FindRPSDir (fs_kernel demo_fs_rps) (demo_up "" kBootEFI) demo_world =
    (Ret (0, rps_path "/Volumes/boot" rpsR, rps_path "/Volumes/boot" rpsP,
          rps_path "/Volumes/boot" rpsS), w').
Proof.
  assert (H : strlen (curMount (demo_up "" kBootEFI)) + 17 < PATH_MAX)
    by (vm_compute; reflexivity).
  split; [exact H|].
  destruct (FindRPSDir_selection (fs_kernel demo_fs_rps)
              (demo_up "" kBootEFI) demo_world H)
    as (prev & cur & next & w' & Heq & _ & H2 & _).
  destruct (H2 rpsR) as (-> & -> & ->); [vm_compute; reflexivity..|].
  exists w'. exact Heq.
Defined.

(** ** update_boot.c: staging and activating the booters *)

Lemma strlen_nonneg s : 0 ≤ strlen s.
Proof. unfold strlen. lia. Qed.

Lemma sunlink_returns K fdvol path w :
  ∃ r, (sunlink K fdvol path w).1 = Ret r.
Proof.
  apply (scoped_int_spec K (λ _, True) fdvol path SysUnlink
           w w (λ o _, ∃ r, o = Ret r)); [apply ext_refl|done|done|].
  intros r w' _ _. by exists r.
Qed.



(** The two booters on that helper. With the EFI booter alone the failed
    rename is let through, and the booter is copied. With the OF booter
    [ucopyBooters] stops at the failed rename, and nothing is copied. *)
Example ucopyBooters_runs :
  let K := fs_kernel demo_fs_dirs in
  (* no booter on the helper yet *)
  k_stat K demo_world ("/Volumes/boot" +:+ kBootX) = Err ENOENT ∧
  k_stat K demo_world ("/Volumes/boot" +:+ kBootEFI) = Err ENOENT ∧
  (* EFI booter alone: the failed rename is tolerated *)
  (let r := ucopyBooters K (demo_up "" kBootEFI) demo_world in
   (∃ up, r.1 = Ret (0, up) ∧ changestate up = copiedBooters) ∧
   SysRename "boot.efi" "boot.efi.old" ∈ calls r.2 ∧
   is_Some (fs_lookup (fs_now demo_fs_dirs r.2) ("/Volumes/boot" +:+ kBootEFI))) ∧
  (* OF booter: the same failure fails the helper *)
  (let r := ucopyBooters K (demo_up kBootX kBootEFI) demo_world in
   (∃ up, r.1 = Ret (ELAST + 1, up) ∧ changestate up = copyingOFBooter) ∧
   errno r.2 = ENOENT ∧
   last (calls r.2) = Some (SysFchdir (mkFdesc (dir_inode 0 2) (dir_inode 0 2) ".")) ∧
   SysRename "BootX" "BootX.old" ∈ calls r.2 ∧
   fs_lookup (fs_now demo_fs_dirs r.2) ("/Volumes/boot" +:+ kBootX) = None).
Proof.
  split; [vm_compute; reflexivity|].
  split; [vm_compute; reflexivity|].
  split.
  - split; [eexists; split; vm_compute; reflexivity|].
    split; [vm_compute; set_solver|]. vm_compute. eauto.
  - split; [eexists; split; vm_compute; reflexivity|].
    split; [vm_compute; reflexivity|].
    split; [vm_compute; reflexivity|].
    split; [vm_compute; set_solver|]. vm_compute. reflexivity.
Qed.




(** The same helper: with the EFI booter alone the volume is blessed with
    the inodes of the booter's directory and of the booter; with the OF
    booter as well the last call is the one that sets its type and
    creator. *)
Example activateBooters_runs :
  let K := fs_kernel demo_fs_staged in
  (let r := activateBooters K (demo_up_staged "" kBootEFI) demo_world in
   (∃ up, r.1 = Ret (0, up) ∧ changestate up = activatedBooters) ∧
   SysBless "." [32; 34; 0; 0; 0; 0; 0; 0] ∈ calls r.2) ∧
  (let r := activateBooters K (demo_up_staged kBootX kBootEFI) demo_world in
   (∃ up, r.1 = Ret (ELAST + 1, up) ∧ changestate up = activatingOFBooter) ∧
   last (calls r.2) =
     Some (SysFsetxattr
             (mkFdesc (file_inode 2 33 3000 (mkTimespec 800 0))
                (dir_inode 2 32) "BootX")
             XATTR_FINDERINFO_NAME "tbxichrp")).
Proof.
  split; (split; [eexists; split; vm_compute; reflexivity|]).
  - vm_compute. set_solver.
  - vm_compute. reflexivity.
Qed.

(** ** update_boot.c: the helper loop and the bootstamps *)

Section UpdateBootsProps.
Context {E : Type}.
Variable run : routine → Z → bool * bool * bool → E → Z * E.
Variable needUpdates : E → (Z * bool * bool * bool * bool) * E.
Variable reset_changestate : E → E.

Local Abbreviation helper := (updateBoots_helper run reset_changestate).
Local Abbreviation loop := (updateBoots_loop run reset_changestate).











End UpdateBootsProps.



(** Two helpers: when both go through, the stamps are applied and the
    result is 0; when the second cannot be mounted, the first is still
    updated, no stamp is applied and the result is [ELAST + 1]. *)
Example updateBoots_runs :
  (let r := updateBoots (demo_run 2 (-1)) demo_needUpdates id false (tt, []) in
   r.1 = 0 ∧ updated r.2.2 = [0; 1] ∧ stamps_applied r.2.2 = true) ∧
  (let r := updateBoots (demo_run 2 1) demo_needUpdates id false (tt, []) in
   r.1 = ELAST + 1 ∧ updated r.2.2 = [0] ∧ mounted r.2.2 = [0; 1] ∧
   stamps_applied r.2.2 = false).
Proof. vm_compute. repeat split; reflexivity. Qed.

(** ** bootcaches.c: staleness *)

(** With the source and its bootstamp both there, [needsUpdate] reports the
    path stale exactly when the seconds of the two modification times
    differ: the nanoseconds of the bootstamp are compared with
    themselves. *)
Lemma needsUpdate_both_exist K root cpath ood0 w rsb tsb :
  strlen root + strlen (rpath cpath) < PATH_MAX →
  strlen root + strlen (tspath cpath) < PATH_MAX →
  k_stat K w (root +:+ rpath cpath) = Ok rsb →
  k_stat K (log_call (SysStat (root +:+ rpath cpath)) w)
    (root +:+ tspath cpath) = Ok tsb →
  ∃ cp, (needsUpdate K root cpath ood0 w).1 =
    Ret (0, cp,
         bool_decide (tv_sec (st_mtimespec tsb) ≠ tv_sec (st_mtimespec rsb))).
Proof.
  intros H1 H2 Hr Ht. unfold needsUpdate.
  assert (H0 : pathcpy root = Some root).
  { unfold pathcpy. destruct (decide _); [|done]. unfold strlen in *. lia. }
  rewrite H0. unfold pathcat.
  destruct (decide (strlen root + strlen (rpath cpath) >= PATH_MAX)); [lia|].
  destruct (decide (strlen root + strlen (tspath cpath) >= PATH_MAX)); [lia|].
  unfold mbind, M_bind, sys_stat. rewrite Hr. simpl. rewrite Ht. simpl.
  eexists. f_equal. f_equal.
  rewrite (bool_decide_eq_false_2 (tv_nsec (st_mtimespec tsb) ≠ tv_nsec (st_mtimespec tsb))) by auto.
  by rewrite orb_false_r.
Qed.

(** C1 (code defect). When the source and its bootstamp are both there and
    their modification times have the same seconds and different
    nanoseconds, [needsUpdate] returns 0 and reports the path up to
    date. *)
Theorem needsUpdate_ignores_nanoseconds K root cpath ood0 w rsb tsb :
  strlen root + strlen (rpath cpath) < PATH_MAX →
  strlen root + strlen (tspath cpath) < PATH_MAX →
  k_stat K w (root +:+ rpath cpath) = Ok rsb →
  k_stat K (log_call (SysStat (root +:+ rpath cpath)) w)
    (root +:+ tspath cpath) = Ok tsb →
  tv_sec (st_mtimespec tsb) = tv_sec (st_mtimespec rsb) →
  tv_nsec (st_mtimespec tsb) ≠ tv_nsec (st_mtimespec rsb) →
  ∃ cp, (needsUpdate K root cpath ood0 w).1 = Ret (0, cp, false).
Proof.
  intros H1 H2 Hr Ht Hsec _.
  destruct (needsUpdate_both_exist K root cpath ood0 w rsb tsb H1 H2 Hr Ht)
    as [cp Hcp].
  exists cp. rewrite Hcp. do 2 f_equal.
  apply bool_decide_eq_false_2. by intros Hne.
Qed.

(** C1 on a host whose BootX was modified at 600 s and 7 ns, with a
    bootstamp of 600 s and 8 ns. *)
Lemma needsUpdate_ignores_nanoseconds_witness :
  let K := fs_kernel demo_fs_stamped in
  let rsb := file_inode 1 23 3000 (mkTimespec 600 7) in
  let tsb := file_inode 1 40 0 (mkTimespec 600 8) in
  k_stat K demo_world ("/Volumes/host" +:+ kBootX) = Ok rsb ∧
  k_stat K (log_call (SysStat ("/Volumes/host" +:+ kBootX)) demo_world)
    ("/Volumes/host" +:+ kBootXStamp) = Ok tsb ∧
  tv_nsec (st_mtimespec tsb) ≠ tv_nsec (st_mtimespec rsb) ∧
  ∃ cp, (needsUpdate K "/Volumes/host" demo_cpath true demo_world).1
        = Ret (0, cp, false).
Proof.
  cbv zeta.
  split; [vm_compute; reflexivity|].
  split; [vm_compute; reflexivity|].
  split; [vm_compute; congruence|].
  apply (needsUpdate_ignores_nanoseconds (fs_kernel demo_fs_stamped)
           "/Volumes/host" demo_cpath true demo_world
           (file_inode 1 23 3000 (mkTimespec 600 7))
           (file_inode 1 40 0 (mkTimespec 600 8)));
    vm_compute; (reflexivity || congruence).
Defined.

(** The run itself: the time stamps of the source are recorded, to the
    microsecond, and the path is reported up to date. *)
Example needsUpdate_stamped_run :
  (needsUpdate (fs_kernel demo_fs_stamped) "/Volumes/host" demo_cpath true
     demo_world).1
  = Ret (0, mkCachedPath kBootX kBootXStamp ((600, 0), (600, 0)), false).
Proof. vm_compute; reflexivity. Qed.

(** Without a bootstamp the path is reported stale. *)
Lemma needsUpdate_missing_stamp :
  let K := fs_kernel demo_fs in
  k_stat K demo_world ("/Volumes/host" +:+ kBootXStamp) = Err ENOENT ∧
  (needsUpdate K "/Volumes/host" demo_cpath false demo_world).1
    = Ret (0, mkCachedPath kBootX kBootXStamp ((600, 0), (600, 0)), true).
Proof. repeat split; vm_compute; reflexivity. Qed.

(** ** bootcaches.c: the keys of the descriptor *)

Lemma size_delete_Z (d : gmap string plist) k :
  Z.of_nat (size (delete k d)) = Z.of_nat (size d) - present d k.
Proof.
  unfold present. rewrite map_size_delete.
  destruct (d !! k) eqn:E; simpl; [|lia].
  assert (size d ≠ 0%nat); [|lia].
  intros H0. apply map_size_empty_inv in H0. subst d.
  by rewrite lookup_empty in E.
Qed.

Lemma present_delete_ne (d : gmap string plist) k k' :
  k ≠ k' → present (delete k d) k' = present d k'.
Proof. intros. unfold present. by rewrite lookup_delete_ne. Qed.

Lemma unknown_in_nonneg known d : 0 ≤ unknown_in known d.
Proof. unfold unknown_in. lia. Qed.

Lemma unknown_in_0 known (d : gmap string plist) k :
  unknown_in known d = 0 → is_Some (d !! k) → k ∈ known.
Proof.
  unfold unknown_in. intros H0 Hk.
  assert (He : foldr delete d known = ∅) by (apply map_size_empty_inv; lia).
  clear H0. revert d Hk He.
  induction known as [|k0 known IH]; simpl; intros d Hk He.
  - subst d. rewrite lookup_empty in Hk. by destruct Hk.
  - destruct (decide (k = k0)) as [->|Hne]; [by left|]. right.
    destruct (decide (k ∈ known)) as [|Hn]; [done|]. exfalso.
    assert (Hin : ∀ (ks : list string) (m : gmap string plist),
              k ∉ ks → foldr delete m ks !! k = m !! k).
    { induction ks as [|a ks IHk]; simpl; intros m Hnk; [done|].
      rewrite lookup_delete_ne by (intros ->; apply Hnk; by left).
      apply IHk. intros ?. apply Hnk. by right. }
    assert (H1 : delete k0 (foldr delete d known) !! k = d !! k).
    { rewrite lookup_delete_ne by done. by apply Hin. }
    rewrite He, lookup_empty in H1. rewrite <- H1 in Hk. by destruct Hk.
Qed.

Section ParseDictProps.
Variable calloc_ok : Z → Z → bool.
Variable sizeof_cachedPath : Z.
Variable sizeof_bootCaches : Z.

Lemma parse_paths_array_flag caches d n n' paths idx b :
  parse_paths_array calloc_ok sizeof_cachedPath caches d n
    = Some (n', paths, idx, b) →
  (if b then 1 else 0) = present d kBCAdditionalPathsKey.
Proof.
  unfold parse_paths_array, present.
  destruct (d !! kBCAdditionalPathsKey) as [[| | |]|]; try done.
  - repeat (destruct (decide _); try done).
    destruct (negb _); try done. destruct (parse_apaths _ _ _ _); try done.
    by intros [= _ _ _ <-].
  - repeat (destruct (decide _); try done).
    destruct (negb _); try done. by intros [= _ _ _ <-].
Qed.

Lemma parse_preboot_count bcDict c kc c' kc' :
  parse_preboot calloc_ok sizeof_cachedPath bcDict c kc = Some (c', kc') →
  kc' = kc - present bcDict kBCPreBootKey
        + unknown_under kBCPreBootKey preboot_keys bcDict.
Proof.
  unfold parse_preboot, unknown_under, present at 1.
  destruct (bcDict !! kBCPreBootKey) as [[| |d|]|]; try done.
  2:{ intros [= _ <-]. lia. }
  destruct (parse_paths_array _ _ _ _ _) as [[[[n paths] idx] b]|] eqn:Ha;
    [|done].
  apply parse_paths_array_flag in Ha.
  unfold unknown_in, preboot_keys. simpl foldr.
  rewrite !size_delete_Z, present_delete_ne by done. rewrite <- Ha.
  unfold present.
  destruct (d !! kBCLabelKey) as [[| | |]|]; try done.
  - destruct (str2cachedPath _ _ _); [|done]. intros [= _ <-].
    destruct b; lia.
  - intros [= _ <-]. destruct b; lia.
Qed.

Lemma parse_booters_count bcDict c kc c' kc' :
  parse_booters bcDict c kc = Some (c', kc') →
  kc' = kc - present bcDict kBCBootersKey
        + unknown_under kBCBootersKey booter_keys bcDict.
Proof.
  unfold parse_booters, unknown_under, present at 1.
  destruct (bcDict !! kBCBootersKey) as [[| |d|]|]; try done.
  2:{ intros [= _ <-]. lia. }
  unfold unknown_in, booter_keys. simpl foldr.
  rewrite !size_delete_Z. unfold present.
  destruct (d !! kBCEFIBooterKey) as [[| | |]|]; try done.
  - destruct (str2cachedPath _ _ _); [|done]. intros [= _ <-]. lia.
  - intros [= _ <-]. lia.
Qed.

Lemma parse_postboot_count bcDict c kc c' kc' :
  parse_postboot calloc_ok sizeof_cachedPath bcDict c kc = inr (c', kc') →
  kc' = kc - present bcDict kBCPostBootKey
        + unknown_under kBCPostBootKey postboot_keys bcDict.
Proof.
  unfold parse_postboot, unknown_under, present at 1.
  destruct (bcDict !! kBCPostBootKey) as [[| |d|]|]; try done.
  2:{ intros [= _ <-]. lia. }
  destruct (parse_paths_array _ _ _ _ _) as [[[[n paths] idx] b]|] eqn:Ha;
    [|done].
  apply parse_paths_array_flag in Ha.
  unfold unknown_in, postboot_keys. simpl foldr.
  rewrite !size_delete_Z, !present_delete_ne by done. rewrite <- Ha.
  unfold present.
  destruct (d !! kBCBootConfigKey) as [[| | |]|]; try done.
  - destruct (str2cachedPath _ _ _); [|done].
    destruct (d !! kBCMKextKey) as [[| | |]|]; try done.
    + destruct (parse_mkext _ _ _) as [|[]]; [done|]. intros [= _ <-].
      destruct b; lia.
    + intros [= _ <-]. destruct b; lia.
  - destruct (d !! kBCMKextKey) as [[| | |]|]; try done.
    + destruct (parse_mkext _ _ _) as [|[]]; [done|]. intros [= _ <-].
      destruct b; lia.
    + intros [= _ <-]. destruct b; lia.
Qed.

Lemma unknown_under_nonneg key known bcDict :
  0 ≤ unknown_under key known bcDict.
Proof.
  unfold unknown_under. destruct (bcDict !! key) as [[]|]; try lia.
  apply unknown_in_nonneg.
Qed.

Lemma unknown_key_counted bcDict k :
  unknown_key bcDict k → unknown_keys bcDict ≠ 0.
Proof.
  intros Hk H0. unfold unknown_keys in H0.
  pose proof (unknown_in_nonneg top_keys bcDict).
  pose proof (unknown_under_nonneg kBCPreBootKey preboot_keys bcDict).
  pose proof (unknown_under_nonneg kBCBootersKey booter_keys bcDict).
  pose proof (unknown_under_nonneg kBCPostBootKey postboot_keys bcDict).
  destruct Hk as [[Hs Hn]|[(d & Hd & Hs & Hn)|[(d & Hd & Hs & Hn)|(d & Hd & Hs & Hn)]]].
  - apply Hn, (unknown_in_0 _ bcDict); [lia|done].
  - apply Hn, (unknown_in_0 _ d); [|done].
    unfold unknown_under in *. rewrite Hd in *. lia.
  - apply Hn, (unknown_in_0 _ d); [|done].
    unfold unknown_under in *. rewrite Hd in *. lia.
  - apply Hn, (unknown_in_0 _ d); [|done].
    unfold unknown_under in *. rewrite Hd in *. lia.
Qed.

(** The counter at the final test of [parseDict]. *)
Lemma keyCount_residue bcDict c0 c1 c2 c3 kc1 kc2 kc3 :
  parse_preboot calloc_ok sizeof_cachedPath bcDict c0
    (Z.of_nat (size bcDict)) = Some (c1, kc1) →
  parse_booters bcDict c1 kc1 = Some (c2, kc2) →
  parse_postboot calloc_ok sizeof_cachedPath bcDict c2 kc2 = inr (c3, kc3) →
  kc3 = unknown_keys bcDict.
Proof.
  intros H1 H2 H3.
  apply parse_preboot_count in H1. apply parse_booters_count in H2.
  apply parse_postboot_count in H3.
  unfold unknown_keys, unknown_in at 1, top_keys. simpl foldr.
  rewrite !size_delete_Z, !present_delete_ne by done. lia.
Qed.


(** When [parseDict] produces a structure, its counter ended at zero: the
    descriptor has no key the parser does not understand. *)
Lemma parseDict_Parsed_no_unknown bcDict rootpath volUUID volName caches :
  parseDict calloc_ok sizeof_cachedPath sizeof_bootCaches bcDict rootpath
    volUUID volName = Parsed caches →
  unknown_keys bcDict = 0.
Proof.
  unfold parseDict.
  destruct (negb _); [done|].
  destruct (pathcpy rootpath); [|done].
  destruct volUUID; [|done].
  destruct (decide _); [done|].
  destruct (parse_preboot _ _ _ _ _) as [[c1 kc1]|] eqn:H1; [|done].
  destruct (parse_booters _ _ _) as [[c2 kc2]|] eqn:H2; [|done].
  destruct (parse_postboot _ _ _ _ _) as [[]|[c3 kc3]] eqn:H3; [done|done|].
  rewrite (keyCount_residue _ _ _ _ _ _ _ _ H1 H2 H3).
  destruct (decide _) as [|Hn]; [done|]. intros _.
  destruct (decide (unknown_keys bcDict = 0)) as [|Hne]; [done|].
  by destruct Hn.
Qed.

(** C8. A descriptor with a key that the parser does not understand, at the
    top level or in its PreBootPaths, BooterPaths or PostBootPaths
    dictionary, is never parsed into a structure: the counter, which starts
    at the number of keys of these dictionaries and goes down by one for
    each key read, is not zero at the end. *)
Theorem parseDict_rejects_unknown_keys bcDict rootpath volUUID volName k :
  unknown_key bcDict k →
  ∀ caches,
    parseDict calloc_ok sizeof_cachedPath sizeof_bootCaches bcDict rootpath
      volUUID volName
    ≠ Parsed caches.
Proof.
  intros Hk caches Hp. apply parseDict_Parsed_no_unknown in Hp.
  by apply unknown_key_counted in Hk.
Qed.

(** No phase of the parser writes the [ofbooter] entry. *)
Lemma parse_preboot_ofbooter bcDict c kc c' kc' :
  parse_preboot calloc_ok sizeof_cachedPath bcDict c kc = Some (c', kc') →
  ofbooter c' = ofbooter c.
Proof.
  unfold parse_preboot. intros H.
  repeat case_match; simplify_eq; done.
Qed.

Lemma parse_booters_ofbooter bcDict c kc c' kc' :
  parse_booters bcDict c kc = Some (c', kc') → ofbooter c' = ofbooter c.
Proof.
  unfold parse_booters. intros H.
  repeat case_match; simplify_eq; done.
Qed.

Lemma parse_postboot_ofbooter bcDict c kc c' kc' :
  parse_postboot calloc_ok sizeof_cachedPath bcDict c kc = inr (c', kc') →
  ofbooter c' = ofbooter c.
Proof.
  unfold parse_postboot. intros H.
  repeat case_match; simplify_eq; done.
Qed.

Lemma parseDict_ofbooter bcDict rootpath volUUID volName caches :
  parseDict calloc_ok sizeof_cachedPath sizeof_bootCaches bcDict rootpath
    volUUID volName = Parsed caches →
  ofbooter caches = empty_cachedPath.
Proof.
  unfold parseDict.
  destruct (negb _); [done|].
  destruct (pathcpy rootpath); [|done].
  destruct volUUID; [|done].
  destruct (decide _); [done|].
  destruct (parse_preboot _ _ _ _ _) as [[c1 kc1]|] eqn:H1; [|done].
  destruct (parse_booters _ _ _) as [[c2 kc2]|] eqn:H2; [|done].
  destruct (parse_postboot _ _ _ _ _) as [[]|[c3 kc3]] eqn:H3; [done|done|].
  destruct (decide _); [done|]. intros [= <-]. simpl.
  rewrite (parse_postboot_ofbooter _ _ _ _ _ H3),
    (parse_booters_ofbooter _ _ _ _ _ H2),
    (parse_preboot_ofbooter _ _ _ _ _ H1). done.
Qed.

(** C10. In a structure that [parseDict] produces the path of the OF booter
    is empty; the BooterPaths dictionary of the descriptor it was parsed
    from has no key other than EFIBooter; and on an update of a volume with
    these caches the OF parts of [ucopyBooters], [activateBooters],
    [revertState] and [nukeFallbacks] do nothing: they make no call and
    fall through. *)
Theorem parseDict_no_ofbooter bcDict rootpath volUUID volName c :
  parseDict calloc_ok sizeof_cachedPath sizeof_bootCaches bcDict rootpath
    volUUID volName = Parsed c →
  rpath (ofbooter c) = "" ∧
  (∀ d k, bcDict !! kBCBootersKey = Some (PDict d) → is_Some (d !! k) →
          k = kBCEFIBooterKey) ∧
  ∀ K up, caches up = c →
    ucopyBooters_of K up = mret (inr up) ∧
    activateBooters_of K up = mret (inr 0) ∧
    revertState_booter K up (ofbooter (caches up)) = mret (Some 0) ∧
    nukeFallbacks_booter K up (ofbooter (caches up)) = mret (Some 0).
Proof.
  intros Hp. pose proof (parseDict_ofbooter _ _ _ _ _ Hp) as Hof.
  split; [by rewrite Hof|]. split.
  - intros d k Hd Hk. destruct (decide (k = kBCEFIBooterKey)) as [|Hne]; [done|].
    exfalso. apply parseDict_Parsed_no_unknown in Hp.
    apply (unknown_key_counted bcDict k); [|done].
    right; right; left. exists d. split; [done|]. split; [done|].
    unfold booter_keys. by intros Hin%list_elem_of_singleton.
  - intros K up <-.
    unfold ucopyBooters_of, activateBooters_of, revertState_booter,
      nukeFallbacks_booter.
    rewrite Hof. done.
Qed.

End ParseDictProps.

(** C8 on a descriptor with an [OFBooter] entry in its BooterPaths. *)
Lemma parseDict_rejects_unknown_keys_witness :
  unknown_key demo_bcDict_of "OFBooter" ∧
  ∀ caches,
    parseDict demo_calloc demo_sizeof_cachedPath demo_sizeof_bootCaches
      demo_bcDict_of "/Volumes/host" (Some "UUID") "Host"
    ≠ Parsed caches.
Proof.
  assert (H : unknown_key demo_bcDict_of "OFBooter").
  { right; right; left. eexists. split; [reflexivity|].
    split; [by eexists|].
    unfold booter_keys. intros Hin%list_elem_of_singleton. discriminate. }
  split; [exact H|].
  exact (parseDict_rejects_unknown_keys demo_calloc demo_sizeof_cachedPath
           demo_sizeof_bootCaches demo_bcDict_of "/Volumes/host"
           (Some "UUID") "Host" "OFBooter" H).
Defined.

(** The two descriptors: one is parsed, with the EFI booter and no OF
    booter; the other, with the [OFBooter] entry, is rejected for its
    unknown key. *)
Example parseDict_runs :
  (∃ c, parseDict demo_calloc demo_sizeof_cachedPath demo_sizeof_bootCaches
          demo_bcDict "/Volumes/host" (Some "UUID") "Host" = Parsed c ∧
        rpath (efibooter c) = kBootEFI ∧ rpath (ofbooter c) = "" ∧
        nrps c = 1 ∧ nmisc c = 1) ∧
  parseDict demo_calloc demo_sizeof_cachedPath demo_sizeof_bootCaches
    demo_bcDict_of "/Volumes/host" (Some "UUID") "Host"
  = Rejected "unknown (assumed required) keys in bootcaches.plist".
Proof.
  split; [eexists; split; [vm_compute; reflexivity|]|];
    vm_compute; repeat split; reflexivity.
Qed.

(** C10 on the descriptor that is parsed. *)
Lemma parseDict_no_ofbooter_witness :
  ∃ c, parseDict demo_calloc demo_sizeof_cachedPath demo_sizeof_bootCaches
         demo_bcDict "/Volumes/host" (Some "UUID") "Host" = Parsed c ∧
       rpath (ofbooter c) = "".
Proof.
  eexists. split; [vm_compute; reflexivity|].
  eapply (parseDict_no_ofbooter demo_calloc demo_sizeof_cachedPath
            demo_sizeof_bootCaches demo_bcDict "/Volumes/host"
            (Some "UUID") "Host").
  vm_compute; reflexivity.
Defined.

(** * More properties of the code *)

(** ** bootcaches.c: bootstamp names *)

Lemma gsub_length old new s :
  String.length (gsub old new s) = String.length s.
Proof. induction s as [|c s IH]; simpl; congruence. Qed.

Lemma gsub_no_old old new s :
  old ≠ new → old ∉ list_ascii_of_string (gsub old new s).
Proof.
  intros Hne. induction s as [|c s IH]; simpl.
  - apply not_elem_of_nil.
  - apply not_elem_of_cons. split; [|done].
    destruct (Ascii.eqb c old) eqn:E; [done|].
    intros ->. by rewrite Ascii.eqb_refl in E.
Qed.

Lemma strlen_gsub old new s : strlen (gsub old new s) = strlen s.
Proof. unfold strlen. by rewrite gsub_length. Qed.

Lemma strlcat_path_fits a b :
  strlen a + strlen b < PATH_MAX → strlcat_path a b = (true, a +:+ b).
Proof. intros. unfold strlcat_path. destruct (decide _); [lia|done]. Qed.

Lemma strlcat_path_over a b :
  ¬ strlen a + strlen b < PATH_MAX → (strlcat_path a b).1 = false.
Proof. intros. unfold strlcat_path. destruct (decide _); [done|lia]. Qed.

(** X1. [fillCachedPath] returns 0 exactly when the path and the bootstamp
    path built from it fit their [PATH_MAX] buffers, and [ELAST + 1]
    otherwise. On success the path is appended to [rpath], and [tspath]
    gets the bootstamp directory, the UUID, a slash and the path with
    every slash turned into a colon: the name of the bootstamp has no
    slash of its own. The time stamps are not touched. *)
Theorem fillCachedPath_result cpath uuidchars relpath :
  let flat := gsub "/"%char ":"%char relpath in
  let ts := (((tspath cpath +:+ kTSCacheDir) +:+ uuidchars) +:+ "/") +:+ flat in
  (if decide (strlen ts < PATH_MAX ∧
              strlen (rpath cpath) + strlen relpath < PATH_MAX)
   then fillCachedPath cpath uuidchars relpath
        = (0, mkCachedPath (rpath cpath +:+ relpath) ts (tstamps cpath))
   else (fillCachedPath cpath uuidchars relpath).1 = ELAST + 1) ∧
  ("/"%char ∉ list_ascii_of_string flat) ∧
  tstamps (fillCachedPath cpath uuidchars relpath).2 = tstamps cpath.
Proof.
  intros flat ts. split; [|split; [by apply gsub_no_old|]].
  - subst ts. rewrite !strlen_append. subst flat. rewrite strlen_gsub.
    pose proof (strlen_nonneg (tspath cpath)).
    pose proof (strlen_nonneg uuidchars). pose proof (strlen_nonneg relpath).
    pose proof (strlen_nonneg (rpath cpath)).
    assert (Hk : strlen kTSCacheDir = 44) by reflexivity.
    assert (Hs : strlen "/" = 1) by reflexivity.
    unfold fillCachedPath.
    destruct (decide _) as [[Hf1 Hf2]|Hn].
    + rewrite strlcat_path_fits by lia. simpl.
      rewrite strlcat_path_fits by (rewrite ?strlen_append; lia). simpl.
      rewrite strlcat_path_fits by (rewrite ?strlen_append; lia). simpl.
      rewrite strlcat_path_fits by lia. simpl.
      rewrite strlcat_path_fits
        by (rewrite ?strlen_append, ?strlen_gsub; lia).
      done.
    + destruct (decide (strlen (tspath cpath) + strlen kTSCacheDir < PATH_MAX));
        [rewrite strlcat_path_fits by done; simpl|
         by unfold strlcat_path; destruct (decide _); [|lia]].
      destruct (decide (strlen (tspath cpath +:+ kTSCacheDir)
                        + strlen uuidchars < PATH_MAX));
        [rewrite strlcat_path_fits by done; simpl|
         by unfold strlcat_path; destruct (decide _); [|lia]].
      destruct (decide (strlen ((tspath cpath +:+ kTSCacheDir) +:+ uuidchars)
                        + strlen "/" < PATH_MAX));
        [rewrite strlcat_path_fits by done; simpl|
         by unfold strlcat_path; destruct (decide _); [|lia]].
      destruct (decide (strlen (rpath cpath) + strlen relpath < PATH_MAX));
        [rewrite strlcat_path_fits by done; simpl|
         by unfold strlcat_path; destruct (decide _); [|lia]].
      unfold strlcat_path. destruct (decide _); [done|].
      exfalso. apply Hn. rewrite !strlen_append, ?strlen_gsub in *. lia.
  - unfold fillCachedPath.
    repeat (destruct (strlcat_path _ _) as [[] ?]; simpl; try done).
Qed.

(** ** bootcaches.c: the arrays of a parsed structure *)

Lemma present_le_size (d : gmap string plist) k1 k2 k3 :
  k1 ≠ k2 → k1 ≠ k3 → k2 ≠ k3 →
  present d k1 + present d k2 + present d k3 ≤ Z.of_nat (size d).
Proof.
  intros H12 H13 H23.
  pose proof (size_delete_Z d k1) as E1.
  pose proof (size_delete_Z (delete k1 d) k2) as E2.
  pose proof (size_delete_Z (delete k2 (delete k1 d)) k3) as E3.
  rewrite !present_delete_ne in * by done. lia.
Qed.

Lemma present_le_size2 (d : gmap string plist) k1 k2 :
  k1 ≠ k2 → present d k1 + present d k2 ≤ Z.of_nat (size d).
Proof.
  intros H12.
  pose proof (size_delete_Z d k1) as E1.
  pose proof (size_delete_Z (delete k1 d) k2) as E2.
  rewrite !present_delete_ne in * by done. lia.
Qed.

Section ParseDictArrays.
Variable calloc_ok : Z → Z → bool.
Variable sizeof_cachedPath : Z.
Variable sizeof_bootCaches : Z.

Lemma parse_apaths_length caches apaths : ∀ i paths paths',
  parse_apaths caches apaths i paths = Some paths' →
  List.length paths' = List.length paths.
Proof.
  induction apaths as [|a apaths IH]; simpl; intros i paths paths'.
  - by intros [= ->].
  - destruct a; try done. destruct (str2cachedPath _ _ _); [|done].
    intros H. apply IH in H. by rewrite length_insert in H.
Qed.

Lemma parse_paths_array_shape caches d n n' paths idx b :
  parse_paths_array calloc_ok sizeof_cachedPath caches d n
    = Some (n', paths, idx, b) →
  List.length paths = Z.to_nat n' ∧
  n' = n + (if b then Z.of_nat idx - 1 else 0) ∧
  (b = false → idx = 0%nat).
Proof.
  unfold parse_paths_array.
  destruct (d !! kBCAdditionalPathsKey) as [[| | |]|]; try done.
  - repeat (destruct (decide _); try done).
    destruct (negb _); try done.
    destruct (parse_apaths _ _ _ _) eqn:E; try done.
    intros [= <- <- <- <-]. apply parse_apaths_length in E.
    rewrite length_replicate in E. done.
  - repeat (destruct (decide _); try done).
    destruct (negb _); try done. intros [= <- <- <- <-].
    rewrite length_replicate. split; [done|]. split; [lia|done].
Qed.

(** The fields a phase of the parser leaves alone. *)
Lemma parse_preboot_rps bcDict c kc c' kc' :
  parse_preboot calloc_ok sizeof_cachedPath bcDict c kc = Some (c', kc') →
  nrps c' = nrps c ∧ rpspaths c' = rpspaths c ∧
  mkext c' = mkext c ∧ bootconfig c' = bootconfig c.
Proof.
  unfold parse_preboot. intros H. repeat case_match; simplify_eq; done.
Qed.

Lemma parse_booters_arrays bcDict c kc c' kc' :
  parse_booters bcDict c kc = Some (c', kc') →
  nrps c' = nrps c ∧ rpspaths c' = rpspaths c ∧
  mkext c' = mkext c ∧ bootconfig c' = bootconfig c ∧
  nmisc c' = nmisc c ∧ miscpaths c' = miscpaths c ∧ label c' = label c.
Proof.
  unfold parse_booters. intros H. repeat case_match; simplify_eq; done.
Qed.

Lemma parse_postboot_misc bcDict c kc c' kc' :
  parse_postboot calloc_ok sizeof_cachedPath bcDict c kc = inr (c', kc') →
  nmisc c' = nmisc c ∧ miscpaths c' = miscpaths c ∧ label c' = label c.
Proof.
  unfold parse_postboot. intros H. repeat case_match; simplify_eq; done.
Qed.

Lemma parse_preboot_misc bcDict c kc c' kc' :
  parse_preboot calloc_ok sizeof_cachedPath bcDict c kc = Some (c', kc') →
  Z.of_nat (List.length (miscpaths c)) = nmisc c →
  (∀ i, label c = Some i → (i < List.length (miscpaths c))%nat) →
  Z.of_nat (List.length (miscpaths c')) = nmisc c' ∧
  (∀ i, label c' = Some i → (i < List.length (miscpaths c'))%nat).
Proof.
  unfold parse_preboot. intros H H1 H2.
  destruct (bcDict !! kBCPreBootKey) as [[| |d|]|]; try done.
  2:{ by injection H as <- _. }
  destruct (parse_paths_array _ _ _ _ _) as [[[[n paths] idx] b]|] eqn:Ha;
    [|done].
  pose proof (parse_paths_array_flag _ _ _ _ _ _ _ _ _ Ha) as Hb.
  apply parse_paths_array_shape in Ha as (Hl & Hn & Hi).
  pose proof (present_le_size2 d kBCAdditionalPathsKey kBCLabelKey
                ltac:(done)) as Hs.
  rewrite <- Hb in Hs. unfold present in Hs.
  destruct (d !! kBCLabelKey) as [[| | |]|]; try done.
  - destruct (str2cachedPath _ _ _); [|done]. injection H as <- _. simpl.
    rewrite length_insert.
    destruct b; [|specialize (Hi eq_refl); subst idx]; split;
      try (intros i [= <-]); lia.
  - injection H as <- _. simpl.
    destruct b; [|specialize (Hi eq_refl); subst idx]; split; try done; lia.
Qed.

Lemma parse_postboot_rps bcDict c kc c' kc' :
  parse_postboot calloc_ok sizeof_cachedPath bcDict c kc = inr (c', kc') →
  Z.of_nat (List.length (rpspaths c)) = nrps c →
  bootconfig c = None → mkext c = None →
  Z.of_nat (List.length (rpspaths c')) = nrps c' ∧
  (∀ i, bootconfig c' = Some i → (i < List.length (rpspaths c'))%nat) ∧
  (∀ i, mkext c' = Some i → (i < List.length (rpspaths c'))%nat) ∧
  (∀ i j, bootconfig c' = Some i → mkext c' = Some j → i ≠ j).
Proof.
  unfold parse_postboot. intros H H1 H2 H3.
  destruct (bcDict !! kBCPostBootKey) as [[| |d|]|]; try done.
  2:{ injection H as <- _. rewrite H2, H3. done. }
  destruct (parse_paths_array _ _ _ _ _) as [[[[n paths] idx] b]|] eqn:Ha;
    [|done].
  pose proof (parse_paths_array_flag _ _ _ _ _ _ _ _ _ Ha) as Hb.
  apply parse_paths_array_shape in Ha as (Hl & Hn & Hi).
  pose proof (present_le_size d kBCAdditionalPathsKey kBCBootConfigKey
                kBCMKextKey ltac:(done) ltac:(done) ltac:(done)) as Hs.
  rewrite <- Hb in Hs. unfold present in Hs.
  destruct (d !! kBCBootConfigKey) as [[| | |]|]; try done.
  - destruct (str2cachedPath _ _ _); [|done].
    destruct (d !! kBCMKextKey) as [[| | |]|]; try done.
    + destruct (parse_mkext _ _ _) as [|[cp ex]]; [done|].
      injection H as <- _. simpl. rewrite !length_insert.
      destruct b; [|specialize (Hi eq_refl); subst idx];
        (split; [lia|]); (split; [intros i [= <-]; lia|]);
        (split; [intros i [= <-]; lia|]); intros i j [= <-] [= <-]; lia.
    + injection H as <- _. simpl. rewrite !length_insert.
      destruct b; [|specialize (Hi eq_refl); subst idx];
        (split; [lia|]); (split; [intros i [= <-]; lia|]); done.
  - destruct (d !! kBCMKextKey) as [[| | |]|]; try done.
    + destruct (parse_mkext _ _ _) as [|[cp ex]]; [done|].
      injection H as <- _. simpl. rewrite !length_insert.
      destruct b; [|specialize (Hi eq_refl); subst idx];
        (split; [lia|]); (split; [done|]);
        (split; [intros i [= <-]; lia|]); done.
    + injection H as <- _. simpl.
      destruct b; [|specialize (Hi eq_refl); subst idx];
        (split; [lia|]); done.
Qed.

(** X2. In a structure that [parseDict] produces the two arrays have
    [nmisc] and [nrps] entries, and [label], [bootconfig] and [mkext]
    point at entries of their arrays, the last two at different ones. *)
Theorem parseDict_arrays bcDict rootpath volUUID volName c :
  parseDict calloc_ok sizeof_cachedPath sizeof_bootCaches bcDict rootpath
    volUUID volName = Parsed c →
  Z.of_nat (List.length (miscpaths c)) = nmisc c ∧
  Z.of_nat (List.length (rpspaths c)) = nrps c ∧
  (∀ i, label c = Some i → (i < List.length (miscpaths c))%nat) ∧
  (∀ i, bootconfig c = Some i → (i < List.length (rpspaths c))%nat) ∧
  (∀ i, mkext c = Some i → (i < List.length (rpspaths c))%nat) ∧
  (∀ i j, bootconfig c = Some i → mkext c = Some j → i ≠ j).
Proof.
  unfold parseDict.
  destruct (negb _); [done|].
  destruct (pathcpy rootpath); [|done].
  destruct volUUID; [|done].
  destruct (decide _); [done|].
  destruct (parse_preboot _ _ _ _ _) as [[c1 kc1]|] eqn:E1; [|done].
  destruct (parse_booters _ _ _) as [[c2 kc2]|] eqn:E2; [|done].
  destruct (parse_postboot _ _ _ _ _) as [[]|[c3 kc3]] eqn:E3; [done|done|].
  destruct (decide _); [done|]. intros [= <-]. simpl.
  pose proof (parse_preboot_rps _ _ _ _ _ E1) as (R1 & R2 & R3 & R4).
  apply parse_preboot_misc in E1 as [M1 M2]; [|done|done].
  apply parse_booters_arrays in E2 as (B1 & B2 & B3 & B4 & B5 & B6 & B7).
  pose proof (parse_postboot_misc _ _ _ _ _ E3) as (P1 & P2 & P3).
  apply parse_postboot_rps in E3 as (Q1 & Q2 & Q3 & Q4).
  - rewrite P1, P2, P3, B5, B6, B7. done.
  - rewrite B1, B2, R1, R2. done.
  - by rewrite B4, R4.
  - by rewrite B3, R3.
Qed.

End ParseDictArrays.

(** X2 on the descriptor of [demo_bcDict]. *)
Lemma parseDict_arrays_witness :
  ∃ c, parseDict demo_calloc demo_sizeof_cachedPath demo_sizeof_bootCaches
         demo_bcDict "/Volumes/host" (Some "UUID") "Host" = Parsed c ∧
  Z.of_nat (List.length (miscpaths c)) = nmisc c ∧
  Z.of_nat (List.length (rpspaths c)) = nrps c ∧
  (∀ i, label c = Some i → (i < List.length (miscpaths c))%nat) ∧
  (∀ i, bootconfig c = Some i → (i < List.length (rpspaths c))%nat) ∧
  (∀ i, mkext c = Some i → (i < List.length (rpspaths c))%nat) ∧
  (∀ i j, bootconfig c = Some i → mkext c = Some j → i ≠ j).
Proof.
  eexists. split; [vm_compute; reflexivity|].
  apply (parseDict_arrays demo_calloc demo_sizeof_cachedPath
           demo_sizeof_bootCaches demo_bcDict "/Volumes/host"
           (Some "UUID") "Host").
  vm_compute; reflexivity.
Defined.

(** ** safecalls.c: descriptors *)

Lemma opened_nil w w' :
  opened [] w w' ↔ ∀ fd, fd_lookup w' fd = fd_lookup w fd.
Proof.
  unfold opened. split; intros H x; specialize (H x).
  - destruct (decide _) as [Hin|]; [by apply elem_of_nil in Hin|done].
  - destruct (decide _) as [Hin|]; [by apply elem_of_nil in Hin|done].
Qed.

Lemma opened_refl w : opened [] w w.
Proof. by apply opened_nil. Qed.

Lemma opened_tab X w0 w w' :
  opened X w0 w → fdtab w' = fdtab w → opened X w0 w'.
Proof.
  intros H E x. specialize (H x). rewrite (fd_lookup_tab w w') by done. done.
Qed.

Lemma opened_in X w0 w x : opened X w0 w → x ∈ X → is_Some (fd_lookup w x).
Proof. intros H Hx. specialize (H x). destruct (decide _); [by destruct H|done]. Qed.

Lemma opened_notin X w0 w x :
  opened X w0 w → fd_lookup w x = None → x ∉ X.
Proof.
  intros H E Hx. apply (opened_in _ _ _ _ H) in Hx. rewrite E in Hx.
  by destruct Hx.
Qed.

Lemma filter_ne_notin (x : Z) (X : list Z) : x ∉ X → filter (λ y, y ≠ x) X = X.
Proof.
  induction X as [|a X IH]; [done|]. intros Hn.
  apply not_elem_of_cons in Hn as [Hne Hn].
  rewrite filter_cons_True by done. by rewrite IH.
Qed.

Lemma filter_ne_head (x : Z) (X : list Z) :
  x ∉ X → filter (λ y, y ≠ x) (x :: X) = X.
Proof.
  intros Hn. rewrite filter_cons_False by (by intros H; apply H).
  by apply filter_ne_notin.
Qed.

Lemma wp_neutral {A} (m : M A) X w0 w Q :
  fd_neutral m → opened X w0 w →
  (∀ a w', opened X w0 w' → Q (Ret a) w') → wp m w Q.
Proof.
  intros Hm Ho HQ. unfold wp. destruct (Hm w) as [Ht [a Ha]].
  rewrite Ha. apply HQ. by eapply opened_tab.
Qed.

Lemma neutral_sys_int K c : fd_neutral (sys_int K c).
Proof. intros w. unfold sys_int. destruct (k_int K w c); simpl; eauto. Qed.

Lemma neutral_sys_fd K fd c : fd_neutral (sys_fd K fd c).
Proof.
  intros w. unfold sys_fd. destruct (fd_lookup w fd); [|simpl; eauto].
  apply neutral_sys_int.
Qed.

Lemma neutral_sys_stat K p : fd_neutral (sys_stat K p).
Proof. intros w. unfold sys_stat. destruct (k_stat K w p); simpl; eauto. Qed.

Lemma neutral_sys_fstat fd : fd_neutral (sys_fstat fd).
Proof. intros w. unfold sys_fstat. destruct (fd_lookup w fd); simpl; eauto. Qed.

Lemma neutral_sys_fchdir K fd : fd_neutral (sys_fchdir K fd).
Proof.
  intros w. unfold sys_fchdir. destruct (fd_lookup w fd); [|simpl; eauto].
  destruct (k_int K w _); simpl; eauto.
Qed.

Lemma neutral_get_errno : fd_neutral get_errno.
Proof. intros w. simpl. eauto. Qed.

Lemma neutral_sys_malloc K n : fd_neutral (sys_malloc K n).
Proof. intros w. unfold sys_malloc. destruct (k_int K w _); simpl; eauto. Qed.

Lemma neutral_sys_fts K p o : fd_neutral (sys_fts K p o).
Proof. intros w. unfold sys_fts. destruct (k_fts K w p); simpl; eauto. Qed.

Lemma neutral_spolicy a b : fd_neutral (spolicy a b).
Proof.
  intros w. unfold spolicy, mbind, M_bind, sys_fstat.
  destruct (fd_lookup w b); simpl; [|eauto].
  destruct (fd_lookup w a); simpl; [|eauto].
  destruct (decide _); simpl; eauto.
Qed.

Lemma fd_lookup_new w d :
  fd_lookup w (Z.of_nat (List.length (fdtab w))) = None ∧
  ∀ c e tr x,
    fd_lookup (mkWorld c e (fdtab w ++ [Some d]) tr) x =
    if decide (x = Z.of_nat (List.length (fdtab w))) then Some d
    else fd_lookup w x.
Proof.
  split.
  - unfold fd_lookup. destruct (decide _); [done|].
    rewrite Nat2Z.id, lookup_ge_None_2; [done|lia].
  - intros c e tr x. unfold fd_lookup. simpl.
    destruct (decide (x < 0)); [destruct (decide _); [lia|done]|].
    destruct (decide (x = _)) as [->|Hne].
    + rewrite Nat2Z.id, lookup_app_r by lia. by rewrite Nat.sub_diag.
    + destruct (decide (Z.to_nat x < List.length (fdtab w))%nat).
      * by rewrite lookup_app_l.
      * rewrite !lookup_ge_None_2; [done|lia|].
        rewrite length_app. simpl. lia.
Qed.

Lemma wp_open_fds K p f m X w0 w Q :
  opened X w0 w →
  (∀ w', opened X w0 w' → Q (Ret (-1)) w') →
  (∀ fd w', fd ≠ -1 → fd ∉ X → opened (fd :: X) w0 w' → Q (Ret fd) w') →
  wp (sys_open K p f m) w Q.
Proof.
  intros Ho H1 H2. unfold wp, sys_open.
  destruct (k_open K w p f m) as [ino|e]; simpl.
  - destruct (fd_lookup_new w (mkFdesc ino (cwd w) p)) as [Hn Hl].
    set (fd := Z.of_nat (List.length (fdtab w))) in *.
    assert (HX : fd ∉ X) by (eapply opened_notin; eauto).
    apply H2; [lia|done|].
    intros x. unfold set_fdtab, log_call. simpl. rewrite Hl.
    specialize (Ho x).
    destruct (decide (x = fd)) as [->|Hne].
    + rewrite decide_True by (by left). split; [|by eexists].
      destruct (decide (fd ∈ X)); [done|]. congruence.
    + destruct (decide (x ∈ X)) as [Hin|Hnin].
      * rewrite decide_True by (by right). done.
      * rewrite decide_False; [done|].
        intros [?|?]%elem_of_cons; done.
  - apply H1. eapply opened_tab; eauto.
Qed.

Lemma wp_close_fds fd X w0 w Q :
  opened X w0 w → (fd ∈ X ∨ fd_lookup w fd = None) →
  (∀ r w', opened (filter (λ y, y ≠ fd) X) w0 w' →
           fd_lookup w' fd = None → Q (Ret r) w') →
  wp (sys_close fd) w Q.
Proof.
  intros Ho Hfd HQ. unfold wp, sys_close.
  destruct (fd_lookup w fd) as [d|] eqn:E; simpl.
  - destruct Hfd as [Hin|?]; [|done].
    assert (Hlt := fd_lookup_Some_lt _ _ _ E).
    assert (Hl : ∀ x, fd_lookup (set_fdtab (<[Z.to_nat fd:=None]> (fdtab w)) w) x
                 = if decide (x = fd) then None else fd_lookup w x).
    { intros x. unfold fd_lookup. simpl.
      destruct (decide (x < 0)); [by destruct (decide _)|].
      destruct (decide (x = fd)) as [->|Hne].
      - rewrite list_lookup_insert_eq by lia. done.
      - rewrite list_lookup_insert_ne by lia. done. }
    apply HQ; [|by rewrite Hl, decide_True].
    intros x. rewrite Hl. specialize (Ho x).
    destruct (decide (x = fd)) as [->|Hne].
    + rewrite decide_False by (intros [H _]%list_elem_of_filter; by apply H).
      rewrite decide_True in Ho by done. by destruct Ho as [-> _].
    + destruct (decide (x ∈ X)) as [Hx|Hx].
      * rewrite decide_True by (by apply list_elem_of_filter). done.
      * rewrite decide_False; [done|].
        by intros [_ ?]%list_elem_of_filter.
  - apply HQ; [|done]. apply (opened_tab _ _ w); [|done].
    assert (Hn : fd ∉ X) by (eapply opened_notin; eauto).
    by rewrite filter_ne_notin.
Qed.

Section Descriptors.
Variable K : Kernel.

Lemma schdirparent_body_fds fdvol path olddir child X w0 w Q :
  opened X w0 w →
  (∀ r dirfd sd od ch w',
     opened ((if decide (sd = -1) then [] else [sd]) ++
             (if decide (dirfd = -1) then [] else [dirfd]) ++ X) w0 w' →
     od = sd →
     (r = 0 → olddir = true → sd ≠ -1) → (olddir = false → sd = -1) →
     (sd = -1 ∨ ((sd ∉ X) ∧ sd ≠ dirfd)) → (dirfd = -1 ∨ dirfd ∉ X) →
     Q (Ret (r, dirfd, sd, od, ch)) w') →
  wp (schdirparent_body K fdvol path olddir child) w Q.
Proof.
  intros Ho HQ. unfold schdirparent_body.
  assert (Hnone : ∀ ch w', opened X w0 w' →
            Q (Ret (-1, -1, -1, -1, ch)) w').
  { intros ch w' O'. apply HQ; auto; try done. }
  destruct path as [p|]; [|by apply wp_ret, Hnone].
  destruct (pathcpy (dirname p)) as [parent|]; [|by apply wp_ret, Hnone].
  apply wp_bind, (wp_open_fds _ _ _ _ X w0); [done|..].
  { intros w1 O1. rewrite decide_True by done. by apply wp_ret, Hnone. }
  intros dirfd w1 Hd Hdx O1. rewrite decide_False by done.
  apply wp_bind, (wp_neutral _ (dirfd :: X) w0);
    [apply neutral_spolicy|done|].
  intros pol w2 O2.
  assert (Hfin : ∀ r ch w', r ≠ 0 ∨ olddir = false →
            opened (dirfd :: X) w0 w' →
            Q (Ret (r, dirfd, -1, -1, ch)) w').
  { intros r ch w' Hr O'. apply HQ; auto; try done.
    - rewrite decide_True, decide_False by done. done.
    - intros -> ->. by destruct Hr. }
  destruct (decide (pol ≠ 0)); [apply wp_ret, Hfin; [by left|done]|].
  destruct (if child then pathcpy (basename p) else Some "") as [childv|];
    [|apply wp_ret, Hfin; [by left|done]].
  destruct olddir.
  - apply wp_bind, (wp_open_fds _ _ _ _ (dirfd :: X) w0); [done|..].
    { intros w3 O3. rewrite decide_True by done.
      apply wp_ret, HQ; auto; try done.
      rewrite decide_True, decide_False by done. done. }
    intros sd w3 Hs Hsx O3. rewrite decide_False by done.
    apply wp_bind, (wp_neutral _ (sd :: dirfd :: X) w0);
      [apply neutral_sys_fchdir|done|].
    intros r w4 O4. apply wp_ret, HQ; auto; try done.
    + rewrite !decide_False by done. done.
    + right. apply not_elem_of_cons in Hsx as [? ?]. done.
  - apply wp_bind, (wp_neutral _ (dirfd :: X) w0);
      [apply neutral_sys_fchdir|done|].
    intros r w4 O4. apply wp_ret, Hfin; [by right|done].
Qed.

Lemma opened_ext (X Y : list Z) w w' :
  (∀ x, x ∈ X ↔ x ∈ Y) → opened X w w' → opened Y w w'.
Proof.
  intros HXY H x. specialize (H x).
  destruct (decide (x ∈ X)) as [Hx|Hx]; destruct (decide (x ∈ Y)) as [Hy|Hy];
    try done; exfalso; [apply Hy, HXY, Hx|apply Hx, HXY, Hy].
Qed.

Ltac mem :=
  intros ?x;
  rewrite ?list_elem_of_filter, ?elem_of_app, ?elem_of_cons, ?elem_of_nil;
  intuition (subst; try done; auto; congruence).

Lemma opened_None_mono (X Y : list Z) w0 w w' x :
  opened X w0 w → fd_lookup w x = None → opened Y w0 w' →
  (∀ y, y ∈ Y → y ∈ X) → fd_lookup w' x = None.
Proof.
  intros HX Hn HY Hsub.
  assert (Hx : x ∉ X) by (eapply opened_notin; eauto).
  specialize (HX x). specialize (HY x).
  rewrite decide_False in HX by done.
  rewrite decide_False in HY by (intros ?; apply Hx; auto).
  congruence.
Qed.

Lemma wp_close_again fd (X : list Z) w0 w Q :
  opened X w0 w → fd_lookup w fd = None →
  (∀ r w', opened X w0 w' → fd_lookup w' fd = None → Q (Ret r) w') →
  wp (sys_close fd) w Q.
Proof.
  intros Ho Hn HQ. eapply wp_close_fds; [exact Ho|by right|].
  intros r w' O' L'. apply HQ; [|done].
  rewrite filter_ne_notin in O'; [done|]. eapply opened_notin; eauto.
Qed.

Lemma wp_close_head fd (X : list Z) w0 w Q :
  opened (fd :: X) w0 w → fd ∉ X →
  (∀ r w', opened X w0 w' → fd_lookup w' fd = None → Q (Ret r) w') →
  wp (sys_close fd) w Q.
Proof.
  intros Ho Hn HQ. eapply wp_close_fds; [exact Ho|left; by left|].
  intros r w' O' L'. apply HQ; [|done].
  by rewrite filter_ne_head in O'.
Qed.

Lemma schdirparent_fds fdvol path olddir child X w0 w Q :
  opened X w0 w →
  (∀ r od ch w',
     opened (if decide (r = 0 ∧ od ≠ -1) then od :: X else X) w0 w' →
     (od = -1 ∨ od ∉ X) →
     (r ≠ 0 → fd_lookup w' od = None) →
     (r = 0 → olddir = true → od ≠ -1) →
     (olddir = false → od = -1) →
     Q (Ret (r, od, ch)) w') →
  wp (schdirparent K fdvol path olddir child) w Q.
Proof.
  intros Ho HQ. unfold schdirparent.
  apply wp_bind, (schdirparent_body_fds _ _ _ _ X w0); [done|].
  intros r dirfd sd od ch w1 O1 -> Hr Hold Hsd Hdir. simpl.
  assert (Hsd' : sd = -1 ∨ sd ∉ X) by (destruct Hsd as [?|[? ?]]; auto).
  set (D := if decide (dirfd = -1) then [] else [dirfd]) in *.
  assert (HsD : sd ≠ -1 → sd ∉ D ++ X).
  { intros Hs. destruct Hsd as [?|[? ?]]; [done|]. subst D.
    destruct (decide (dirfd = -1)); [done|].
    simpl. apply not_elem_of_cons. done. }
  apply wp_bind.
  (* the last close, of [dirfd] *)
  assert (Hlast : ∀ w3 S, opened (S ++ D ++ X) w0 w3 →
            (∀ x, x ∈ S → x ∉ D ++ X) →
            (∀ w4, opened (S ++ X) w0 w4 →
                   (fd_lookup w3 sd = None → fd_lookup w4 sd = None) →
                   Q (Ret (r, sd, ch)) w4) →
            wp ((if decide (dirfd ≠ -1) then sys_close dirfd else mret 0);;
                mret (r, sd, ch)) w3 Q).
  { intros w3 S O3 HS HQ3. apply wp_bind. subst D.
    destruct (decide (dirfd ≠ -1)) as [Hd|Hd].
    - rewrite decide_False in O3, HS by done.
      destruct Hdir as [?|Hdx]; [done|].
      eapply wp_close_fds; [exact O3|left; apply elem_of_app; right; by left|].
      intros z w4 O4 L4. apply wp_ret, HQ3.
      + assert (HSd : ∀ x, x ∈ S → x ≠ dirfd).
        { intros x Hx ->. apply (HS _ Hx). by left. }
        revert O4. apply opened_ext. intros x.
        rewrite list_elem_of_filter, !elem_of_app, elem_of_cons, elem_of_nil.
        split.
        * intros (Hne & [?|[[?|[]]|?]]); auto. done.
        * intros [Hx|Hx]; split; auto.
          intros ->. done.
      + intros L3. eapply (opened_None_mono _ _ _ _ _ _ O3 L3 O4).
        intros y [_ ?]%list_elem_of_filter. done.
    - assert (dirfd = -1) as ->
        by (destruct (decide (dirfd = -1)); [done|by destruct Hd]).
      rewrite decide_True in O3 by done. simpl in O3.
      apply wp_ret, wp_ret, HQ3; done. }
  destruct (decide (r ≠ 0)) as [Hne|He].
  - (* failure: [savedir] is closed, twice *)
    apply wp_bind.
    assert (Hc1 : ∀ Q', (∀ x w2, opened (D ++ X) w0 w2 →
         fd_lookup w2 sd = None → Q' (Ret x) w2) →
       wp (if decide (sd ≠ -1) then sys_close sd else mret 0) w1 Q').
    { intros Q' HQ'. destruct (decide (sd ≠ -1)) as [Hs|Hs].
      - rewrite decide_False in O1 by done.
        apply (wp_close_head _ (D ++ X) w0); auto.
      - assert (sd = -1) as ->
          by (destruct (decide (sd = -1)); [done|by destruct Hs]).
        rewrite decide_True in O1 by done. apply wp_ret, HQ'; done. }
    apply Hc1. intros x w2 O2 L2. simpl.
    assert (Hc2 : ∀ Q', (∀ x w3, opened (D ++ X) w0 w3 →
         fd_lookup w3 sd = None → Q' (Ret x) w3) →
       wp (if olddir && bool_decide (sd ≠ -1) then sys_close sd else mret 0)
          w2 Q').
    { intros Q' HQ'. destruct (olddir && bool_decide (sd ≠ -1));
        [|by apply wp_ret, HQ'].
      by apply (wp_close_again _ (D ++ X) w0). }
    apply Hc2. intros y w3 O3 L3. simpl.
    apply (Hlast w3 []); [done|by intros ? ?%elem_of_nil|].
    intros w4 O4 L4. apply HQ; auto;
      first [ by rewrite decide_False by (intros [? _]; done)
            | intros ->; by destruct Hne ].
  - assert (r = 0) as ->
      by (destruct (decide (r = 0)); [done|by destruct He]).
    apply wp_ret. simpl.
    apply (Hlast w1 (if decide (sd = -1) then [] else [sd])); [done|..].
    { intros x Hx. destruct (decide (sd = -1)); [by apply elem_of_nil in Hx|].
      apply list_elem_of_singleton in Hx as ->. auto. }
    intros w4 O4 L4. apply HQ; auto; try done.
    destruct (decide (sd = -1)) as [->|Hs].
    + by rewrite decide_False by (intros [_ ?]; done).
    + by rewrite decide_True by done.
Qed.

Lemma RESTOREDIR_fds sd (X : list Z) w0 w Q :
  opened X w0 w → (sd ∈ X ∨ fd_lookup w sd = None) →
  (∀ w', opened (filter (λ y, y ≠ sd) X) w0 w' → Q (Ret ()) w') →
  wp (RESTOREDIR K sd) w Q.
Proof.
  intros Ho Hsd HQ. unfold RESTOREDIR, restoredir.
  destruct (decide (sd ≠ -1)) as [Hs|Hs].
  - apply wp_bind, wp_bind, (wp_neutral _ X w0);
      [apply neutral_sys_fchdir|done|].
    intros cherr w1 O1.
    assert (Hsd1 : sd ∈ X ∨ fd_lookup w1 sd = None).
    { destruct (decide (sd ∈ X)); [by left|right].
      destruct Hsd as [?|Hn]; [done|].
      by apply (opened_None_mono X X w0 w w1 sd). }
    apply wp_bind, (wp_close_fds _ X w0); [done..|].
    intros clerr w2 O2 _. apply wp_ret, wp_ret. by apply HQ.
  - assert (sd = -1) as ->
      by (destruct (decide (sd = -1)); [done|by destruct Hs]).
    apply wp_ret, HQ. rewrite filter_ne_notin; [done|].
    eapply opened_notin; eauto.
Qed.

(** After [schdirparent] and the [RESTOREDIR] that every primitive ends
    with, the descriptors are as before. *)
Lemma scoped_fds {A} (body : Z → string → M A) (dflt : A) fdvol path
    (X : list Z) w0 w Q :
  opened X w0 w →
  (∀ ch, fd_neutral (body 0 ch)) →
  (∀ a w', opened X w0 w' → Q (Ret a) w') →
  wp ('(err, savedir, child) ← schdirparent K fdvol (Some path) true true;
      bsderr ← (if decide (err ≠ 0) then mret dflt else body 0 child);
      RESTOREDIR K savedir;;
      mret bsderr) w Q.
Proof.
  intros Ho Hb HQ.
  apply wp_bind, (schdirparent_fds _ _ _ _ X w0); [done|].
  intros r sd ch w1 O1 Hsd Hcl Hr _. simpl.
  apply wp_bind.
  destruct (decide (r ≠ 0)) as [Hne|He].
  - apply wp_ret. rewrite decide_False in O1 by (intros [? _]; done).
    apply wp_bind, (RESTOREDIR_fds _ X w0); [done|right; auto|].
    intros w2 O2. apply wp_ret, HQ.
    rewrite filter_ne_notin in O2; [done|].
    eapply opened_notin; eauto.
  - assert (r = 0) as ->
      by (destruct (decide (r = 0)); [done|by destruct He]).
    specialize (Hr eq_refl eq_refl).
    rewrite decide_True in O1 by done.
    destruct Hsd as [?|Hsd]; [done|].
    apply (wp_neutral _ (sd :: X) w0); [apply Hb|done|].
    intros a w2 O2.
    apply wp_bind, (RESTOREDIR_fds _ (sd :: X) w0); [done|left; by left|].
    intros w3 O3. apply wp_ret, HQ. by rewrite filter_ne_head in O3.
Qed.

Lemma scoped_int_fds fdvol path c (X : list Z) w0 w Q :
  opened X w0 w →
  (∀ a w', opened X w0 w' → Q (Ret a) w') →
  wp (scoped_int K fdvol path c) w Q.
Proof.
  intros Ho HQ.
  apply (scoped_fds (λ _ ch, sys_int K (c ch)) (-1) fdvol path X w0);
    [done| |done].
  intros ch. apply neutral_sys_int.
Qed.

Lemma srename_fds fdvol old new (X : list Z) w0 w Q :
  opened X w0 w →
  (∀ a w', opened X w0 w' → Q (Ret a) w') →
  wp (srename K fdvol old new) w Q.
Proof.
  intros Ho HQ. unfold srename.
  destruct (pathcpy (basename new)) as [newname|]; [|by apply wp_ret, HQ].
  by apply (scoped_int_fds fdvol old (λ ch, SysRename ch newname) X w0).
Qed.

Lemma sopen_fds fdvol path flags mode (X : list Z) w0 w Q :
  opened X w0 w →
  (∀ w', opened X w0 w' → Q (Ret (-1)) w') →
  (∀ rfd w', rfd ≠ -1 → rfd ∉ X → opened (rfd :: X) w0 w' →
             Q (Ret rfd) w') →
  wp (sopen K fdvol path flags mode) w Q.
Proof.
  intros Ho H1 H2. unfold sopen.
  apply wp_bind, (schdirparent_fds _ _ _ _ X w0); [done|].
  intros r sd ch w1 O1 Hsd Hcl Hr _. simpl.
  (* what follows the [open] of the target *)
  assert (Hfin : ∀ rfd candfd (Y : list Z) w2,
     opened Y w0 w2 → (sd ∈ Y ∨ fd_lookup w2 sd = None) →
     rfd = candfd →
     (∀ w3, opened (filter (λ y, y ≠ sd) Y) w0 w3 → Q (Ret rfd) w3) →
     wp (mret (rfd, candfd)) w2
       (λ o w', match o with
          | Ret a => wp (let '(rfd, candfd) := a in
               (if decide (candfd ≠ -1 ∧ rfd ≠ candfd)
                then sys_close candfd else mret 0);;
               RESTOREDIR K sd;; mret rfd) w' Q
          | Diverge => Q Diverge w'
          end)).
  { intros rfd candfd Y w2 O2 Hs -> HQ3. apply wp_ret, wp_bind.
    rewrite decide_False by (intros [_ ?]; done). apply wp_ret.
    apply wp_bind, (RESTOREDIR_fds _ Y w0); [done..|].
    intros w3 O3. by apply wp_ret, HQ3. }
  apply wp_bind.
  destruct (decide (r ≠ 0)) as [Hne|He].
  - rewrite decide_False in O1 by (intros [? _]; done).
    apply (Hfin _ _ X); [done|right; auto|done|].
    intros w3 O3. apply H1.
    rewrite filter_ne_notin in O3; [done|]. eapply opened_notin; eauto.
  - assert (r = 0) as ->
      by (destruct (decide (r = 0)); [done|by destruct He]).
    specialize (Hr eq_refl eq_refl).
    rewrite decide_True in O1 by done.
    destruct Hsd as [?|Hsd]; [done|].
    apply wp_bind, (wp_open_fds _ _ _ _ (sd :: X) w0); [done|..].
    + intros w2 O2. rewrite decide_True by done.
      apply (Hfin _ _ (sd :: X)); [done|left; by left|done|].
      intros w3 O3. apply H1. by rewrite filter_ne_head in O3.
    + intros cand w2 Hc Hcx O2. rewrite decide_False by done.
      apply not_elem_of_cons in Hcx as [Hcs Hcx].
      apply (Hfin _ _ (cand :: sd :: X)); [done|left; right; by left|done|].
      intros w3 O3. apply H2; [done..|].
      rewrite filter_cons_True in O3 by done.
      by rewrite filter_ne_head in O3.
Qed.

Lemma sdeepunlink_loop_fds fdvol ents (X : list Z) w0 : ∀ rval w Q,
  opened X w0 w →
  (∀ a w', opened X w0 w' → Q (Ret a) w') →
  wp (sdeepunlink_loop K fdvol ents rval) w Q.
Proof.
  induction ents as [|fent ents IH]; intros rval w Q Ho HQ; simpl.
  - by apply wp_ret, HQ.
  - apply wp_bind.
    destruct (fts_info fent);
      first [ apply wp_ret; simpl; by apply IH
            | apply wp_bind, (scoped_int_fds fdvol _ SysRmdir X w0); [done|];
              intros e w1 O1; apply wp_ret; simpl; by apply IH
            | apply wp_bind, (scoped_int_fds fdvol _ SysUnlink X w0); [done|];
              intros e w1 O1; apply wp_ret; simpl; by apply IH ].
Qed.

Lemma sdeepunlink_fds fdvol path (X : list Z) w0 w Q :
  opened X w0 w →
  (∀ a w', opened X w0 w' → Q (Ret a) w') →
  wp (sdeepunlink K fdvol path) w Q.
Proof.
  intros Ho HQ. unfold sdeepunlink.
  apply wp_bind, (wp_neutral _ X w0); [apply neutral_sys_fts|done|].
  intros [[ents last]|] w1 O1; [|by apply wp_ret, HQ].
  apply wp_bind, (sdeepunlink_loop_fds _ _ X w0); [done|].
  intros rval w2 O2. apply wp_bind. unfold wp at 1. simpl.
  apply wp_bind, get_errno_spec. apply wp_ret, HQ.
  by apply (opened_tab _ _ w2).
Qed.

Lemma sdeepmkdir_rec_fds fdvol mode (X : list Z) w0 n : ∀ path w Q,
  opened X w0 w →
  (∀ o w', opened X w0 w' → Q o w') →
  wp (sdeepmkdir_rec K n fdvol path mode) w Q.
Proof.
  induction n as [|n IH]; intros path w Q Ho HQ; simpl.
  - by apply HQ.
  - destruct (decide (strlen path = 0)); [by apply wp_ret, HQ|].
    apply wp_bind, (wp_neutral _ X w0); [apply neutral_sys_stat|done|].
    intros [sb|] w1 O1.
    + destruct (decide _); by apply wp_ret, HQ.
    + apply wp_bind, (wp_neutral _ X w0); [apply neutral_get_errno|done|].
      intros e w2 O2.
      destruct (decide _); [by apply wp_ret, HQ|].
      destruct (pathcpy (dirname path)); [|by apply wp_ret, HQ].
      apply wp_bind, IH; [done|].
      intros [bsderr|] w3 O3; [|by apply HQ].
      destruct (decide _); [by apply wp_ret, HQ|].
      apply (scoped_int_fds fdvol path (λ ch, SysMkdir ch mode) X w0);
        [done|]. intros a w4 O4. by apply HQ.
Qed.

Lemma scopyfile_loop_fds srcfd dstfd (X : list Z) w0 n : ∀ bytesLeft w Q,
  opened X w0 w →
  (∀ o w', opened X w0 w' → Q o w') →
  wp (scopyfile_loop K n srcfd dstfd bytesLeft) w Q.
Proof.
  induction n as [|n IH]; intros bytesLeft w Q Ho HQ; simpl.
  - destruct (decide _); [by apply HQ|by apply wp_ret, HQ].
  - destruct (decide _); [|by apply wp_ret, HQ].
    apply wp_bind, (wp_neutral _ X w0); [apply neutral_sys_fd|done|].
    intros r w1 O1. destruct (decide _); [by apply wp_ret, HQ|].
    apply wp_bind, (wp_neutral _ X w0); [apply neutral_sys_fd|done|].
    intros r' w2 O2. destruct (decide _); [by apply wp_ret, HQ|].
    by apply IH.
Qed.

Lemma scopyfile_fds srcfdvol srcpath dstfdvol dstpath (X : list Z) w0 w Q :
  opened X w0 w →
  (∀ a w', opened X w0 w' → Q (Ret a) w') →
  (∀ w', Q Diverge w') →
  wp (scopyfile K srcfdvol srcpath dstfdvol dstpath) w Q.
Proof.
  intros Ho HQ HD. unfold scopyfile.
  (* the two descriptors are closed at [finish] *)
  assert (Hfin : ∀ r srcfd dstfd w1,
     opened ((if decide (dstfd = -1) then [] else [dstfd]) ++
             (if decide (srcfd = -1) then [] else [srcfd]) ++ X) w0 w1 →
     (srcfd = -1 ∨ srcfd ∉ X) →
     (dstfd = -1 ∨ ((dstfd ∉ X) ∧ dstfd ≠ srcfd)) →
     wp ((if decide (srcfd ≠ -1) then sys_close srcfd else mret 0);;
         (if decide (dstfd ≠ -1) then sys_close dstfd else mret 0);;
         mret r) w1 Q).
  { intros r srcfd dstfd w1 O1 Hs Hd. apply wp_bind.
    assert (Hc : ∀ w2,
       opened ((if decide (dstfd = -1) then [] else [dstfd]) ++ X) w0 w2 →
       wp ((if decide (dstfd ≠ -1) then sys_close dstfd else mret 0);;
           mret r) w2 Q).
    { intros w2 O2. apply wp_bind.
      destruct (decide (dstfd ≠ -1)) as [Hn|Hn].
      - rewrite decide_False in O2 by done.
        destruct Hd as [?|[Hdx _]]; [done|].
        apply (wp_close_head _ X w0); [done..|].
        intros z w3 O3 _. by apply wp_ret, HQ.
      - assert (dstfd = -1) as ->
          by (destruct (decide (dstfd = -1)); [done|by destruct Hn]).
        rewrite decide_True in O2 by done. by apply wp_ret, wp_ret, HQ. }
    destruct (decide (srcfd ≠ -1)) as [Hn|Hn].
    - rewrite (decide_False (P := srcfd = -1)) in O1 by done.
      destruct Hs as [?|Hsx]; [done|].
      eapply wp_close_fds;
        [exact O1|left; apply elem_of_app; right; by left|].
      intros z w2 O2 _. apply Hc. revert O2. apply opened_ext.
      destruct (decide (dstfd = -1)); [mem|].
      destruct Hd as [?|[Hdx Hds]]; [done|]. mem.
    - assert (srcfd = -1) as ->
        by (destruct (decide (srcfd = -1)); [done|by destruct Hn]).
      rewrite (decide_True (P := -1 = -1)) in O1 by done.
      apply wp_ret. by apply Hc. }
  apply wp_bind. unfold scopyfile_body.
  assert (Hf : ∀ r srcfd dstfd w1,
     opened ((if decide (dstfd = -1) then [] else [dstfd]) ++
             (if decide (srcfd = -1) then [] else [srcfd]) ++ X) w0 w1 →
     (srcfd = -1 ∨ srcfd ∉ X) →
     (dstfd = -1 ∨ ((dstfd ∉ X) ∧ dstfd ≠ srcfd)) →
     wp (mret (r, srcfd, dstfd)) w1
       (λ o w', match o with
                | Ret a => wp (let '(bsderr, srcfd, dstfd) := a in
                     (if decide (srcfd ≠ -1) then sys_close srcfd else mret 0);;
                     (if decide (dstfd ≠ -1) then sys_close dstfd else mret 0);;
                     mret bsderr) w' Q
                | Diverge => Q Diverge w'
                end)).
  { intros. apply wp_ret. by apply Hfin. }
  apply wp_bind, (sopen_fds _ _ _ _ X w0); [done|..].
  { intros w1 O1. rewrite decide_True by done.
    apply Hf; auto; by rewrite !decide_True by done. }
  intros srcfd w1 Hs Hsx O1. rewrite decide_False by done.
  assert (Hf1 : ∀ r w', opened (srcfd :: X) w0 w' →
     wp (mret (r, srcfd, -1)) w'
       (λ o w', match o with
                | Ret a => wp (let '(bsderr, srcfd, dstfd) := a in
                     (if decide (srcfd ≠ -1) then sys_close srcfd else mret 0);;
                     (if decide (dstfd ≠ -1) then sys_close dstfd else mret 0);;
                     mret bsderr) w' Q
                | Diverge => Q Diverge w'
                end)).
  { intros r w' O'.
    apply Hf; auto; by rewrite decide_True, decide_False by done. }
  apply wp_bind, (wp_neutral _ (srcfd :: X) w0);
    [apply neutral_sys_fstat|done|].
  intros [srcsb|] w2 O2; [|by apply Hf1].
  destruct (pathcpy (dirname dstpath)) as [dstparent|]; [|by apply Hf1].
  apply wp_bind, (sdeepmkdir_rec_fds _ _ (srcfd :: X) w0); [done|].
  intros [rm|] w3 O3; [|by apply HD].
  destruct (decide _); [by apply Hf1|].
  apply wp_bind, (scoped_int_fds _ _ SysUnlink (srcfd :: X) w0); [done|].
  intros u w4 O4.
  apply wp_bind, (sopen_fds _ _ _ _ (srcfd :: X) w0); [done|..].
  { intros w5 O5. rewrite decide_True by done. by apply Hf1. }
  intros dstfd w5 Hd Hdx O5. rewrite decide_False by done.
  apply not_elem_of_cons in Hdx as [Hds Hdx].
  assert (Hf2 : ∀ r w', opened (dstfd :: srcfd :: X) w0 w' →
     wp (mret (r, srcfd, dstfd)) w'
       (λ o w', match o with
                | Ret a => wp (let '(bsderr, srcfd, dstfd) := a in
                     (if decide (srcfd ≠ -1) then sys_close srcfd else mret 0);;
                     (if decide (dstfd ≠ -1) then sys_close dstfd else mret 0);;
                     mret bsderr) w' Q
                | Diverge => Q Diverge w'
                end)).
  { intros r w' O'.
    apply Hf; auto; by rewrite !decide_False by done. }
  apply wp_bind, (wp_neutral _ (dstfd :: srcfd :: X) w0);
    [apply neutral_sys_malloc|done|].
  intros buf w6 O6. destruct (decide _); [by apply Hf2|].
  apply wp_bind, (scopyfile_loop_fds _ _ (dstfd :: srcfd :: X) w0); [done|].
  intros [ok|] w7 O7; [|by apply HD].
  destruct (negb ok); [by apply Hf2|].
  apply wp_bind, (wp_neutral _ (dstfd :: srcfd :: X) w0);
    [apply neutral_sys_fd|done|].
  intros r w8 O8. by apply Hf2.
Qed.

End Descriptors.

Lemma keeps_intro {A} (m : M A) :
  (∀ w, wp m w (λ o w', match o with
                        | Ret _ => ∀ fd, fd_lookup w' fd = fd_lookup w fd
                        | Diverge => True
                        end)) →
  keeps_descriptors m.
Proof. intros H w. apply H. Qed.

(** X3. The primitives that return a status leave no descriptor behind:
    when [smkdir], [srmdir], [sunlink], [srename], [sdeepunlink],
    [sdeepmkdir] or [scopyfile] returns, every descriptor is as it was
    before the call, on the paths that fail as on the one that succeeds,
    whatever the kernel answers. *)
Theorem safecalls_keep_descriptors K fdvol :
  (∀ path mode, keeps_descriptors (smkdir K fdvol path mode)) ∧
  (∀ path, keeps_descriptors (srmdir K fdvol path)) ∧
  (∀ path, keeps_descriptors (sunlink K fdvol path)) ∧
  (∀ oldpath newpath, keeps_descriptors (srename K fdvol oldpath newpath)) ∧
  (∀ path, keeps_descriptors (sdeepunlink K fdvol path)) ∧
  (∀ path mode, keeps_descriptors (sdeepmkdir K fdvol path mode)) ∧
  (∀ srcfdvol srcpath dstpath,
     keeps_descriptors (scopyfile K srcfdvol srcpath fdvol dstpath)).
Proof.
  repeat lazymatch goal with |- _ ∧ _ => split end; intros;
    apply keeps_intro; intros w.
  - apply (scoped_int_fds K fdvol path (λ ch, SysMkdir ch mode) [] w w);
      [apply opened_refl|]. intros a w' O. by apply opened_nil.
  - apply (scoped_int_fds K fdvol path SysRmdir [] w w);
      [apply opened_refl|]. intros a w' O. by apply opened_nil.
  - apply (scoped_int_fds K fdvol path SysUnlink [] w w);
      [apply opened_refl|]. intros a w' O. by apply opened_nil.
  - apply (srename_fds K fdvol oldpath newpath [] w w);
      [apply opened_refl|]. intros a w' O. by apply opened_nil.
  - apply (sdeepunlink_fds K fdvol path [] w w);
      [apply opened_refl|]. intros a w' O. by apply opened_nil.
  - apply (sdeepmkdir_rec_fds K fdvol mode [] w _ path w);
      [apply opened_refl|]. intros [a|] w' O; [by apply opened_nil|done].
  - apply (scopyfile_fds K srcfdvol srcpath fdvol dstpath [] w w);
      [apply opened_refl| |done]. intros a w' O. by apply opened_nil.
Qed.

(** X4. [sopen] leaves one descriptor open when it succeeds, the one it
    returns, which was not open before; when it returns -1 it leaves none.
    No other descriptor changes. *)
Theorem sopen_descriptor K fdvol path flags mode w :
  let r := sopen K fdvol path flags mode w in
  ∃ rfd, r.1 = Ret rfd ∧
    if decide (rfd = -1)
    then ∀ fd, fd_lookup r.2 fd = fd_lookup w fd
    else fd_lookup w rfd = None ∧ is_Some (fd_lookup r.2 rfd) ∧
         ∀ fd, fd ≠ rfd → fd_lookup r.2 fd = fd_lookup w fd.
Proof.
  apply (sopen_fds K fdvol path flags mode [] w w
    (λ o w', ∃ rfd, o = Ret rfd ∧
       if decide (rfd = -1)
       then ∀ fd, fd_lookup w' fd = fd_lookup w fd
       else fd_lookup w rfd = None ∧ is_Some (fd_lookup w' rfd) ∧
            ∀ fd, fd ≠ rfd → fd_lookup w' fd = fd_lookup w fd)).
  - apply opened_refl.
  - intros w' O. exists (-1). split; [done|].
    rewrite decide_True by done. by apply opened_nil.
  - intros rfd w' Hne _ O. exists rfd. split; [done|].
    rewrite decide_False by done.
    pose proof (O rfd) as Hr. rewrite decide_True in Hr by (by left).
    destruct Hr as [H1 H2]. split; [done|]. split; [done|].
    intros fd Hfd. specialize (O fd).
    rewrite decide_False in O; [done|].
    intros [?|[]%elem_of_nil]%elem_of_cons. done.
Qed.

(** ** bootcaches.c: [needsUpdate] and [needUpdates] *)

(** [needsUpdate] returns; it issues nothing but [stat]s, and of [*cpath]
    it changes the time stamps only. *)
Lemma needsUpdate_spec K root cp nu w0 w Q :
  ext quiet w0 w →
  (∀ r cp' nu' w', ext quiet w0 w' → fdtab w' = fdtab w →
     rpath cp' = rpath cp → tspath cp' = tspath cp →
     Q (Ret (r, cp', nu')) w') →
  wp (needsUpdate K root cp nu) w Q.
Proof.
  intros He HQ. unfold needsUpdate.
  destruct (pathcpy root); [|by apply wp_ret, HQ].
  destruct (pathcat _ _); [|by apply wp_ret, HQ].
  destruct (pathcat _ _); [|by apply wp_ret, HQ].
  apply wp_bind, (sys_stat_spec K quiet _ w0); [done|done|].
  intros [rsb|] w1 E1 C1 T1.
  - apply wp_bind, (sys_stat_spec K quiet _ w0); [done|done|].
    intros [tsb|] w2 E2 C2 T2.
    + apply wp_ret, HQ; auto. congruence.
    + apply wp_bind, get_errno_spec. destruct (decide _);
        apply wp_ret, HQ; auto; congruence.
  - apply wp_bind, get_errno_spec. destruct (decide _);
      apply wp_ret, HQ; auto.
Qed.

Lemma needUpdates_paths_spec K strict root cps : ∀ nu any ood w0 w Q,
  ext quiet w0 w →
  (∀ r cps' w', ext quiet w0 w' → fdtab w' = fdtab w → r ≠ 0 →
     strict = true →
     map rpath cps' = map rpath cps → map tspath cps' = map tspath cps →
     Q (Ret (inl (r, cps'))) w') →
  (∀ cps' nu' any' ood' w', ext quiet w0 w' → fdtab w' = fdtab w →
     map rpath cps' = map rpath cps → map tspath cps' = map tspath cps →
     any' = any || ood' → (ood = true → ood' = true) →
     (cps = [] → nu' = nu ∧ ood' = ood) →
     Q (Ret (inr (cps', nu', any', ood'))) w') →
  (any = true ∨ ood = false) →
  wp (needUpdates_paths K strict root cps nu any ood) w Q.
Proof.
  induction cps as [|cp cps IH]; intros nu any ood w0 w Q He H1 H2 Ha; simpl.
  - apply wp_ret, H2; auto. destruct any, ood; try done; by destruct Ha.
  - apply wp_bind, (needsUpdate_spec _ _ _ _ w0); [done|].
    intros r cp' nu' w1 E1 T1 R1 S1.
    destruct (strict && bool_decide (r ≠ 0)) eqn:Es.
    { apply andb_true_iff in Es as [-> Hr%bool_decide_eq_true].
      apply wp_ret, H1; auto; simpl; congruence. }
    apply wp_bind, (IH _ _ _ w0); [done|..].
    + intros r' cps' w2 E2 T2 Hr Hs Rs Ss. apply wp_ret, H1; auto;
        simpl; congruence.
    + intros cps' nu2 any2 ood2 w2 E2 T2 Rs Ss Hany Hood _.
      apply wp_ret, H2; auto; try (simpl; congruence).
      * rewrite Hany. destruct nu', any, ood, ood2; try done;
          destruct Ha as [?|?]; try done;
          try (by specialize (Hood eq_refl)).
      * intros ->. destruct nu'; auto.
    + destruct nu'; [by left|done].
Qed.

Lemma needUpdates_booter_spec K root cp nu any ood w0 w Q :
  ext quiet w0 w →
  (∀ r cp' w', ext quiet w0 w' → r ≠ 0 →
     Q (Ret (inl (r, cp'))) w') →
  (∀ cp' nu' any' ood' w', ext quiet w0 w' →
     any' = any || ood' → (ood = true → ood' = true) →
     (has_rpath cp = false → nu' = nu ∧ ood' = ood) →
     Q (Ret (inr (cp', nu', any', ood'))) w') →
  (any = true ∨ ood = false) →
  wp (needUpdates_booter K root cp nu any ood) w Q.
Proof.
  intros He H1 H2 Ha. unfold needUpdates_booter.
  destruct (has_rpath cp).
  - apply wp_bind, (needsUpdate_spec _ _ _ _ w0); [done|].
    intros r cp' nu' w1 E1 T1 R1 S1.
    destruct (decide (r ≠ 0)); [by apply wp_ret, H1|].
    apply wp_ret, H2; auto; try done.
    + destruct nu', any, ood; try done; by destruct Ha.
    + intros ->. by destruct nu'.
  - apply wp_ret, H2; auto.
    destruct any, ood; try done; by destruct Ha.
Qed.

(** X5. [needUpdates] returns, having issued nothing but [stat]s. It
    returns 0 exactly when it stores the four flags, and then [*any] is
    the disjunction of [*rps], [*booters] and [*misc]. *)
Theorem needUpdates_flags K caches needsUp0 w :
  let r := needUpdates K caches needsUp0 w in
  ∃ rval caches' flags,
    r.1 = Ret (rval, caches', flags) ∧
    ext quiet w r.2 ∧
    (rval = 0 ↔ is_Some flags) ∧
    ∀ any rps booters misc,
      flags = Some (any, rps, booters, misc) →
      any = rps || booters || misc.
Proof.
  set (Q := λ (o : outcome (Z * bootCaches *
                            option (bool * bool * bool * bool))) w',
    ∃ rval caches' flags,
      o = Ret (rval, caches', flags) ∧ ext quiet w w' ∧
      (rval = 0 ↔ is_Some flags) ∧
      ∀ any rps booters misc,
        flags = Some (any, rps, booters, misc) →
        any = rps || booters || misc).
  assert (Hfail : ∀ r c' w', ext quiet w w' → r ≠ 0 → Q (Ret (r, c', None)) w').
  { intros r c' w' E Hr. exists r, c', None. split; [done|]. split; [done|].
    split; [|done]. split; [done|]. by intros [? ?]. }
  change (wp (needUpdates K caches needsUp0) w Q). unfold needUpdates.
  apply wp_bind, (needUpdates_paths_spec _ _ _ _ _ _ _ w);
    [apply ext_refl| | |by right].
  { intros r cps' w1 E1 _ Hr _ _ _. by apply wp_ret, Hfail. }
  intros cps1 nu1 any1 rps w1 E1 _ _ _ Hany1 _ _. simpl.
  apply wp_bind, (needUpdates_booter_spec _ _ _ _ _ _ w); [done| | |by right].
  { intros r cp' w2 E2 Hr. by apply wp_ret, Hfail. }
  intros cp2 nu2 any2 b2 w2 E2 Hany2 _ _. simpl.
  apply wp_bind, (needUpdates_booter_spec _ _ _ _ _ _ w); [done| | |].
  { intros r cp' w3 E3 Hr. by apply wp_ret, Hfail. }
  2:{ subst any2. destruct any1, b2; auto. }
  intros cp3 nu3 any3 b3 w3 E3 Hany3 Hb3 _. simpl.
  apply wp_bind, (needUpdates_paths_spec _ _ _ _ _ _ _ w); [done| | |by right].
  { intros r cps' w4 E4 _ Hr [=]. }
  intros cps4 nu4 any4 misc w4 E4 _ _ _ Hany4 _ _.
  apply wp_ret. eexists _, _, _. split; [done|]. split; [done|].
  split; [by split|]. intros any rps' b m [= <- <- <- <-].
  subst. rewrite orb_false_l in *.
  destruct rps, b2, b3, misc; try done; by specialize (Hb3 eq_refl).
Qed.

Lemma needsUpdate_missing K root cp nu w :
  strlen root + strlen (rpath cp) < PATH_MAX →
  strlen root + strlen (tspath cp) < PATH_MAX →
  k_stat K w (root +:+ rpath cp) = Err ENOENT →
  needsUpdate K root cp nu w =
  (Ret (0, cp, nu),
   set_errno ENOENT (log_call (SysStat (root +:+ rpath cp)) w)).
Proof.
  intros H1 H2 Hs. unfold needsUpdate.
  pose proof (strlen_nonneg root). pose proof (strlen_nonneg (rpath cp)).
  rewrite (pathcpy_fits root) by lia.
  rewrite !pathcat_fits by done.
  unfold mbind, M_bind, sys_stat. rewrite Hs. simpl.
  done.
Qed.

(** X6. The local [needsUp] of [needUpdates] has no initial value, and
    [needsUpdate] stores none when the source is missing. So for caches
    with one RPS path, whose source is missing, and no other path,
    [needUpdates] returns 0 and reports as [*any] and [*rps] whatever
    [needsUp] held on entry. *)
Theorem needUpdates_uninitialized K caches cp needsUp0 w :
  rpspaths caches = [cp] → miscpaths caches = [] →
  has_rpath (efibooter caches) = false →
  has_rpath (ofbooter caches) = false →
  strlen (root caches) + strlen (rpath cp) < PATH_MAX →
  strlen (root caches) + strlen (tspath cp) < PATH_MAX →
  k_stat K w (root caches +:+ rpath cp) = Err ENOENT →
  ∃ caches',
    (needUpdates K caches needsUp0 w).1
    = Ret (0, caches', Some (needsUp0, needsUp0, false, false)).
Proof.
  intros Hr Hm He Ho H1 H2 Hs. unfold needUpdates.
  rewrite Hr. simpl. unfold mbind at 1, M_bind at 1.
  unfold mbind at 1, M_bind at 1.
  rewrite (needsUpdate_missing K _ cp needsUp0 w H1 H2 Hs). simpl.
  unfold needUpdates_booter. simpl. rewrite He, Ho, Hm. simpl.
  eexists. by destruct needsUp0.
Qed.

(** X6 on a host that has no /missing: the path is reported stale or up to
    date as [needsUp] happens to say. *)
Lemma needUpdates_uninitialized_witness :
  let cp := mkCachedPath "/missing" "/stamp" ((0, 0), (0, 0)) in
  let caches :=
    mkBootCaches 0 "UUID" "Host" "/Volumes/host" None "" 1 [cp] 0 []
      empty_cachedPath empty_cachedPath None None None in
  k_stat (fs_kernel demo_fs) demo_world ("/Volumes/host" +:+ "/missing")
    = Err ENOENT ∧
  (∃ c, (needUpdates (fs_kernel demo_fs) caches true demo_world).1
        = Ret (0, c, Some (true, true, false, false))) ∧
  (∃ c, (needUpdates (fs_kernel demo_fs) caches false demo_world).1
        = Ret (0, c, Some (false, false, false, false))).
Proof.
  cbv zeta. split; [vm_compute; reflexivity|].
  split;
    apply (needUpdates_uninitialized (fs_kernel demo_fs) _
             (mkCachedPath "/missing" "/stamp" ((0, 0), (0, 0))));
    vm_compute; reflexivity.
Defined.

(** ** bootcaches.c: [applyStamp] and [applyStamps] *)

Section StampDescriptors.
Variable K : Kernel.

Lemma applyStamp_fds root cp fdvol (X : list Z) w0 w Q :
  opened X w0 w →
  (∀ r w', r ≠ 0 → opened X w0 w' → Q (Ret r) w') →
  (∀ r fd w', fd ∉ X → opened (fd :: X) w0 w' → Q (Ret r) w') →
  wp (applyStamp K root cp fdvol) w Q.
Proof.
  intros Ho H1 H2. unfold applyStamp.
  destruct (pathcpy root); [|by apply wp_ret, H1].
  destruct (pathcat _ _); [|by apply wp_ret, H1].
  apply wp_bind, (scoped_int_fds K _ _ SysUnlink X w0); [done|].
  intros u w1 O1.
  apply wp_bind, (sopen_fds K _ _ _ _ X w0); [done|..].
  - intros w2 O2. rewrite decide_True by done. by apply wp_ret, H1.
  - intros fd w2 Hfd Hx O2. rewrite decide_False by done.
    apply (wp_neutral _ (fd :: X) w0); [apply neutral_sys_fd|done|].
    intros r w3 O3. by apply (H2 r fd).
Qed.

Lemma applyStamps_paths_fds root fdvol cps : ∀ rval (X : list Z) w0 w Q,
  opened X w0 w → NoDup X →
  (∀ r Y w', opened (Y ++ X) w0 w' → NoDup (Y ++ X) →
     (List.length Y ≤ List.length cps)%nat →
     (r = 0 → rval = 0 ∧ List.length Y = List.length cps) →
     Q (Ret r) w') →
  wp (applyStamps_paths K root cps fdvol rval) w Q.
Proof.
  induction cps as [|cp cps IH]; intros rval X w0 w Q Ho Hnd HQ; simpl.
  - apply wp_ret. by apply (HQ rval []).
  - apply wp_bind, (applyStamp_fds _ _ _ X w0); [done|..].
    + intros r w1 Hr O1. apply (IH _ X w0); [done..|].
      intros r' Y w2 O2 N2 L2 Hz. apply (HQ r' Y); auto.
      * simpl. lia.
      * intros ->. destruct (Hz eq_refl) as [Hl _].
        apply Z.lor_eq_0_iff in Hl as [_ ?]. done.
    + intros r fd w1 Hfd O1. apply (IH _ (fd :: X) w0); [done|by constructor|].
      intros r' Y w2 O2 N2 L2 Hz. apply (HQ r' (Y ++ [fd])).
      * by rewrite <- app_assoc.
      * by rewrite <- app_assoc.
      * rewrite length_app. simpl. lia.
      * intros ->. destruct (Hz eq_refl) as [Hl Hlen].
        apply Z.lor_eq_0_iff in Hl as [? _].
        rewrite length_app. simpl. split; [done|lia].
Qed.

Lemma applyStamps_booter_fds root fdvol cp rval (X : list Z) w0 w Q :
  opened X w0 w → NoDup X →
  (∀ r Y w', opened (Y ++ X) w0 w' → NoDup (Y ++ X) →
     (r = 0 → rval = 0 ∧
        List.length Y = List.length (if has_rpath cp then [cp] else [])) →
     Q (Ret r) w') →
  wp (applyStamps_booter K root cp fdvol rval) w Q.
Proof.
  intros Ho Hnd HQ. unfold applyStamps_booter.
  destruct (has_rpath cp); [|apply wp_ret; by apply (HQ rval [])].
  apply wp_bind, (applyStamp_fds _ _ _ X w0); [done|..].
  - intros r w1 Hr O1. apply wp_ret. apply (HQ _ []); auto.
    intros [_ ?]%Z.lor_eq_0_iff. done.
  - intros r fd w1 Hfd O1. apply wp_ret. apply (HQ _ [fd]); auto.
    + by constructor.
    + intros [? _]%Z.lor_eq_0_iff. done.
Qed.

End StampDescriptors.

(** X7. [applyStamp] does not close the descriptor of the bootstamp it
    has made: when it returns 0, a descriptor that was not open before
    the call is open after it, and whatever it returns no other descriptor
    has changed. *)
Theorem applyStamp_leaves_descriptor K root cpath fdvol w :
  let r := applyStamp K root cpath fdvol w in
  ∃ rval, r.1 = Ret rval ∧
    ((∀ fd, fd_lookup r.2 fd = fd_lookup w fd) ∧ rval ≠ 0 ∨
     ∃ fd, fd_lookup w fd = None ∧ is_Some (fd_lookup r.2 fd) ∧
           ∀ x, x ≠ fd → fd_lookup r.2 x = fd_lookup w x).
Proof.
  apply (applyStamp_fds K root cpath fdvol [] w w
    (λ o w', ∃ rval, o = Ret rval ∧
       ((∀ fd, fd_lookup w' fd = fd_lookup w fd) ∧ rval ≠ 0 ∨
        ∃ fd, fd_lookup w fd = None ∧ is_Some (fd_lookup w' fd) ∧
              ∀ x, x ≠ fd → fd_lookup w' x = fd_lookup w x))).
  - apply opened_refl.
  - intros r w' Hr O. exists r. split; [done|]. left.
    split; [by apply opened_nil|done].
  - intros r fd w' _ O. exists r. split; [done|]. right. exists fd.
    pose proof (O fd) as Hf. rewrite decide_True in Hf by (by left).
    destruct Hf as [? ?]. split; [done|]. split; [done|].
    intros x Hx. specialize (O x). rewrite decide_False in O; [done|].
    intros [?|[]%elem_of_nil]%elem_of_cons. done.
Qed.

(** X8. When [applyStamps] returns 0 it has left as many descriptors open
    as it has written stamps: one for every RPS path, every booter with a
    path and every misc path. *)
Theorem applyStamps_leaves_descriptors K caches w :
  let r := applyStamps K caches w in
  ∃ rval, r.1 = Ret rval ∧
    (rval = 0 →
     ∃ X, NoDup X ∧ List.length X = List.length (stamped caches) ∧
          (∀ fd, fd ∈ X → fd_lookup w fd = None ∧ is_Some (fd_lookup r.2 fd)) ∧
          (∀ fd, fd ∉ X → fd_lookup r.2 fd = fd_lookup w fd)).
Proof.
  set (Q := λ (o : outcome Z) w',
    ∃ rval, o = Ret rval ∧
      (rval = 0 →
       ∃ X, NoDup X ∧ List.length X = List.length (stamped caches) ∧
            (∀ fd, fd ∈ X → fd_lookup w fd = None ∧ is_Some (fd_lookup w' fd)) ∧
            (∀ fd, fd ∉ X → fd_lookup w' fd = fd_lookup w fd))).
  change (wp (applyStamps K caches) w Q). unfold applyStamps.
  apply wp_bind, (applyStamps_paths_fds K _ _ _ _ [] w);
    [apply opened_refl|constructor|].
  intros r1 Y1 w1 O1 N1 _ Z1. rewrite app_nil_r in O1, N1.
  apply wp_bind, (applyStamps_booter_fds K _ _ _ _ Y1 w); [done..|].
  intros r2 Y2 w2 O2 N2 Z2.
  apply wp_bind, (applyStamps_booter_fds K _ _ _ _ (Y2 ++ Y1) w); [done..|].
  intros r3 Y3 w3 O3 N3 Z3.
  apply (applyStamps_paths_fds K _ _ _ _ (Y3 ++ Y2 ++ Y1) w); [done..|].
  intros r4 Y4 w4 O4 N4 _ Z4. exists r4. split; [done|]. intros ->.
  destruct (Z4 eq_refl) as [-> L4]. destruct (Z3 eq_refl) as [-> L3].
  destruct (Z2 eq_refl) as [-> L2]. destruct (Z1 eq_refl) as [_ L1].
  exists (Y4 ++ Y3 ++ Y2 ++ Y1). split; [done|]. split.
  - unfold stamped. rewrite !length_app. lia.
  - split; intros fd Hfd; specialize (O4 fd).
    + by rewrite decide_True in O4.
    + by rewrite decide_False in O4.
Qed.

(** ** bootcaches.c: [applyStamps] stays on the host volume *)

Section StampConfined.
Variables (K : Kernel) (D fdvol : Z) (w0 : World) (d0 : fdesc).
Hypothesis Hvol : fd_lookup w0 fdvol = Some d0.
Hypothesis Hdev : st_dev (fd_ino d0) = D.




End StampConfined.



(** ** update_boot.c: [FindRPSDir] *)

Lemma sys_stat_world K p w :
  fdtab (sys_stat K p w).2 = fdtab w ∧ cwd (sys_stat K p w).2 = cwd w ∧
  trace (sys_stat K p w).2 = trace w ++ [mkEvent (cwd w) (SysStat p)].
Proof. unfold sys_stat. by destruct (k_stat K w p). Qed.

(** X10. [FindRPSDir] fails, with [ELAST + 1] and without any call, exactly
    when the mount point is too long for the three paths to fit their
    buffers. Otherwise it returns 0 after three [stat]s, of R, P and S in
    this order, and nothing else; and whatever they find, the three
    directories returned are one turn of the rotation: [next] comes after
    [current] and [prev] after [next]. *)
Theorem FindRPSDir_rotation K up w :
  let r := FindRPSDir K up w in
  let m := curMount up in
  ∃ rval prev cur next,
    r.1 = Ret (rval, prev, cur, next) ∧
    if decide (strlen m + 17 < PATH_MAX)
    then rval = 0 ∧
         (∃ c, cur = rps_path m c ∧ next = rps_path m (rps_next c) ∧
               prev = rps_path m (rps_next (rps_next c))) ∧
         calls r.2 = calls w ++ [SysStat (rps_path m rpsR);
                                 SysStat (rps_path m rpsP);
                                 SysStat (rps_path m rpsS)] ∧
         fdtab r.2 = fdtab w ∧ cwd r.2 = cwd w
    else rval = ELAST + 1 ∧ r.2 = w.
Proof.
  cbv zeta. set (m := curMount up).
  assert (Hs : strlen "/" = 1) by done.
  assert (HR : strlen kBootDirR = 16) by done.
  assert (HP : strlen kBootDirP = 16) by done.
  assert (HS : strlen kBootDirS = 16) by done.
  pose proof (strlen_nonneg m) as Hm.
  destruct (decide (strlen m + 17 < PATH_MAX)) as [Hlen|Hlen].
  - unfold FindRPSDir. fold m.
    rewrite (pathcpy_fits m) by lia.
    rewrite (pathcat_fits m "/") by lia.
    rewrite (pathcpy_fits (m +:+ "/")) by (rewrite strlen_append; lia).
    rewrite !pathcat_fits by (rewrite strlen_append; lia).
    change ((m +:+ "/") +:+ kBootDirR) with (rps_path m rpsR).
    change ((m +:+ "/") +:+ kBootDirP) with (rps_path m rpsP).
    change ((m +:+ "/") +:+ kBootDirS) with (rps_path m rpsS).
    assert (Hfit : ∀ x, pathcpy (rps_path m x) = Some (rps_path m x)).
    { intros x. apply pathcpy_fits. unfold rps_path.
      rewrite !strlen_append. destruct x; simpl; lia. }
    unfold mbind, M_bind.
    rewrite (sys_stat_eq K (rps_path m rpsR) w).
    destruct (sys_stat_world K (rps_path m rpsR) w) as (T1 & C1 & L1).
    set (w1 := (sys_stat K (rps_path m rpsR) w).2) in *.
    rewrite (sys_stat_eq K (rps_path m rpsP) w1).
    destruct (sys_stat_world K (rps_path m rpsP) w1) as (T2 & C2 & L2).
    set (w2 := (sys_stat K (rps_path m rpsP) w1).2) in *.
    rewrite (sys_stat_eq K (rps_path m rpsS) w2).
    destruct (sys_stat_world K (rps_path m rpsS) w2) as (T3 & C3 & L3).
    set (w3 := (sys_stat K (rps_path m rpsS) w2).2) in *.
    assert (Hcalls : calls w3 = calls w ++ [SysStat (rps_path m rpsR);
                       SysStat (rps_path m rpsP); SysStat (rps_path m rpsS)]).
    { unfold calls. rewrite L3, L2, L1, !map_app, <- !app_assoc. done. }
    assert (Htab : fdtab w3 = fdtab w) by congruence.
    assert (Hcwd : cwd w3 = cwd w) by congruence.
    clearbody w1 w2 w3.
    destruct (k_stat K w (rps_path m rpsR));
    destruct (k_stat K w1 (rps_path m rpsP));
    destruct (k_stat K w2 (rps_path m rpsS)); simpl; rewrite !Hfit; simpl.
    all: eexists _, _, _, _; (split; [reflexivity|]).
    all: split; [done|]; split; [|done].
    all: first [ by exists rpsR | by exists rpsP | by exists rpsS ].
  - assert (Hf : FindRPSDir K up w = (Ret (ELAST + 1, "", "", ""), w)).
    { unfold FindRPSDir. fold m.
      unfold pathcpy at 1. destruct (decide (strlen m >= PATH_MAX)); [done|].
      unfold pathcat at 1.
      destruct (decide (strlen m + strlen "/" >= PATH_MAX)); [done|].
      rewrite (pathcpy_fits (m +:+ "/")) by (rewrite strlen_append; lia).
      unfold pathcat at 1.
      destruct (decide (strlen (m +:+ "/") + strlen kBootDirR >= PATH_MAX))
        as [_|Hn]; [done|].
      rewrite strlen_append in Hn. lia. }
    fold m in Hf.
    eexists _, _, _, _. split; [by rewrite Hf|]. by rewrite Hf.
Qed.

(** ** update_boot.c: [ucopyMisc] *)

Lemma sys_stat_wp K p w Q :
  (∀ w', fdtab w' = fdtab w → cwd w' = cwd w →
         trace w' = trace w ++ [mkEvent (cwd w) (SysStat p)] →
         w' = (sys_stat K p w).2 →
         Q (Ret (match k_stat K w p with Ok sb => Some sb | Err _ => None end))
           w') →
  wp (sys_stat K p) w Q.
Proof.
  intros HQ. unfold wp. rewrite sys_stat_eq. simpl.
  destruct (sys_stat_world K p w) as (T & C & L). by apply HQ.
Qed.

Lemma ucopyMisc_loop_spec K up cps : ∀ n w,
  Forall (λ cp, strlen (root (caches up)) + strlen (rpath cp) < PATH_MAX ∧
                strlen (curMount up) + strlen (rpath cp) + 4 < PATH_MAX) cps →
  wp (ucopyMisc_loop K up cps n) w (λ o w',
    match o with
    | Ret r =>
        ∃ n', r = Some n' ∧ n ≤ n' ≤ n + Z.of_nat (List.length cps) ∧
          if all_missing K (root (caches up)) cps w
          then n' = n + Z.of_nat (List.length cps) ∧
               calls w' = calls w ++
                 map (λ cp, SysStat (root (caches up) +:+ rpath cp)) cps ∧
               fdtab w' = fdtab w ∧ cwd w' = cwd w
          else n' < n + Z.of_nat (List.length cps)
    | Diverge => all_missing K (root (caches up)) cps w = false
    end).
Proof.
  induction cps as [|cp cps IH]; intros n w Hfit.
  - apply wp_ret. exists n. simpl. rewrite app_nil_r.
    repeat split; try done; lia.
  - apply Forall_cons in Hfit as [[H1 H2] Hfit].
    pose proof (strlen_nonneg (root (caches up))).
    pose proof (strlen_nonneg (curMount up)).
    pose proof (strlen_nonneg (rpath cp)).
    assert (strlen NEWEXT = 4) by done.
    cbn [ucopyMisc_loop].
    rewrite (pathcpy_fits (root (caches up))) by lia.
    rewrite (pathcat_fits (root (caches up))) by lia.
    rewrite (pathcpy_fits (curMount up)) by lia.
    rewrite (pathcat_fits (curMount up)) by lia.
    rewrite pathcat_fits by (rewrite strlen_append; lia).
    cbn [all_missing]. unfold stat_ok.
    apply wp_bind, sys_stat_wp. intros w1 T1 C1 L1 ->.
    destruct (k_stat K w (root (caches up) +:+ rpath cp)) as [sb|e]; simpl.
    + apply wp_bind. unfold wp at 1.
      destruct (scopyfile K _ _ _ _ _) as [[r|] w2]; simpl; [|done].
      specialize (IH n w2 Hfit). unfold wp in *.
      destruct (ucopyMisc_loop K up cps n w2) as [[r'|] w3]; simpl in *;
        [|done].
      destruct IH as (n' & -> & Hn & _). exists n'. split; [done|].
      split; lia.
    + set (w1 := (sys_stat K (root (caches up) +:+ rpath cp) w).2) in *.
      specialize (IH (n + 1) w1 Hfit). unfold wp in *.
      destruct (ucopyMisc_loop K up cps (n + 1) w1) as [[r'|] w3];
        simpl in *; [|done].
      destruct IH as (n' & -> & Hn & Hm). exists n'. split; [done|].
      split; [lia|].
      destruct (all_missing K (root (caches up)) cps w1); [|lia].
      destruct Hm as (-> & Hc & Ht & Hw). split; [lia|].
      split; [|split; congruence].
      rewrite Hc. unfold calls. rewrite L1, map_app, <- app_assoc. done.
Qed.

(** X11. When the paths fit their buffers, [ucopyMisc] returns 0 if and
    only if every misc source is missing when it looks for it, and then all
    it has done is one [stat] for each. As soon as one source is there,
    [ucopyMisc] returns 1, whether the copies succeed or not (or, in the
    model, a copy does not come to an end). *)
Theorem ucopyMisc_result K up w :
  Forall (λ cp, strlen (root (caches up)) + strlen (rpath cp) < PATH_MAX ∧
                strlen (curMount up) + strlen (rpath cp) + 4 < PATH_MAX)
         (miscpaths (caches up)) →
  let r := ucopyMisc K up w in
  if all_missing K (root (caches up)) (miscpaths (caches up)) w
  then r.1 = Ret 0 ∧
       calls r.2 = calls w ++
         map (λ cp, SysStat (root (caches up) +:+ rpath cp))
             (miscpaths (caches up)) ∧
       fdtab r.2 = fdtab w ∧ cwd r.2 = cwd w
  else r.1 = Ret 1 ∨ r.1 = Diverge.
Proof.
  intros Hfit. cbv zeta.
  pose proof (ucopyMisc_loop_spec K up _ 0 w Hfit) as H.
  unfold ucopyMisc, wp, mbind, M_bind in *.
  destruct (ucopyMisc_loop K up (miscpaths (caches up)) 0 w) as [[r|] w'];
    simpl in *.
  - destruct H as (n' & -> & Hn & Hm). simpl.
    destruct (all_missing _ _ _ _).
    + destruct Hm as (-> & Hc & Ht & Hw). rewrite Z.add_0_l, Z.eqb_refl.
      done.
    + left.
      destruct (Z.eqb_spec n'
                  (Z.of_nat (List.length (miscpaths (caches up)))));
        [lia|done].
  - rewrite H. by right.
Qed.

(** X11 on a host whose misc file is there: [ucopyMisc] does not
    return 0. *)
Lemma ucopyMisc_result_witness :
  let up := demo_up_misc "/usr/standalone/bootcaches.plist" in
  let r := ucopyMisc (fs_kernel demo_fs) up demo_world in
  Forall (λ cp, strlen (root (caches up)) + strlen (rpath cp) < PATH_MAX ∧
                strlen (curMount up) + strlen (rpath cp) + 4 < PATH_MAX)
         (miscpaths (caches up)) ∧
  (r.1 = Ret 1 ∨ r.1 = Diverge).
Proof.
  cbv zeta.
  assert (H : Forall (λ cp,
      strlen (root (caches (demo_up_misc "/usr/standalone/bootcaches.plist")))
        + strlen (rpath cp) < PATH_MAX ∧
      strlen (curMount (demo_up_misc "/usr/standalone/bootcaches.plist"))
        + strlen (rpath cp) + 4 < PATH_MAX)
      (miscpaths (caches (demo_up_misc "/usr/standalone/bootcaches.plist")))).
  { repeat constructor. }
  split; [exact H|].
  exact (ucopyMisc_result (fs_kernel demo_fs)
           (demo_up_misc "/usr/standalone/bootcaches.plist") demo_world H).
Defined.

(** The run of the witness: the file is copied (a [write] of its 100
    bytes), and the value returned is 1 all the same. *)
Example ucopyMisc_runs :
  let r := ucopyMisc (fs_kernel demo_fs)
             (demo_up_misc "/usr/standalone/bootcaches.plist") demo_world in
  r.1 = Ret 1 ∧
  ∃ d, SysWrite d 100 ∈ calls r.2.
Proof.
  cbv zeta. split; [vm_compute; reflexivity|].
  eexists. vm_compute.
  repeat first [ apply list_elem_of_here | apply list_elem_of_further ].
Qed.

(** ** update_boot.c: [nukeLabels] and the label of the descriptor *)

Section LabelOfDict.
Variable calloc_ok : Z → Z → bool.
Variable sizeof_cachedPath : Z.
Variable sizeof_bootCaches : Z.

(** [parseDict] sets [label] exactly when the [PreBootPaths] dictionary
    has a [DiskLabel]. *)
Lemma parseDict_label bcDict rootpath volUUID volName c :
  parseDict calloc_ok sizeof_cachedPath sizeof_bootCaches bcDict rootpath
    volUUID volName = Parsed c →
  (label c = None ↔ has_DiskLabel bcDict = false) ∧
  (∀ i, label c = Some i → is_Some (miscpaths c !! i)).
Proof.
  unfold parseDict.
  destruct (negb _); [done|].
  destruct (pathcpy rootpath); [|done].
  destruct volUUID; [|done].
  destruct (decide _); [done|].
  destruct (parse_preboot _ _ _ _ _) as [[c1 kc1]|] eqn:E1; [|done].
  destruct (parse_booters _ _ _) as [[c2 kc2]|] eqn:E2; [|done].
  destruct (parse_postboot _ _ _ _ _) as [[]|[c3 kc3]] eqn:E3; [done|done|].
  destruct (decide _); [done|]. intros [= <-]. simpl.
  pose proof (parse_preboot_misc _ _ _ _ _ _ _ E1 eq_refl ltac:(done))
    as [_ M2].
  apply parse_booters_arrays in E2 as (_ & _ & _ & _ & _ & B6 & B7).
  apply parse_postboot_misc in E3 as (_ & P2 & P3).
  rewrite P2, P3, B6, B7. split.
  - clear M2. unfold parse_preboot in E1. unfold has_DiskLabel.
    destruct (bcDict !! kBCPreBootKey) as [[| |d|]|]; try done.
    2:{ injection E1 as <- _. done. }
    destruct (parse_paths_array _ _ _ _ _) as [[[[nn paths] idx] b]|]; [|done].
    destruct (d !! kBCLabelKey) as [[| | |]|] eqn:El; try done.
    + destruct (str2cachedPath _ _ _); [|done]. injection E1 as <- _. done.
    + injection E1 as <- _. done.
  - intros i Hi. apply lookup_lt_is_Some. by apply M2.
Qed.

(** X12. [nukeLabels] reads the label's path through [up->caches->label]
    without testing it. For caches that [parseDict] made and a mount point
    that fits its buffer, [nukeLabels] faults, before any call, exactly
    when the descriptor has no [DiskLabel] under [PreBootPaths]; with a
    label it returns. *)
Theorem nukeLabels_faults_without_label K bcDict rootpath volUUID volName
    up w :
  parseDict calloc_ok sizeof_cachedPath sizeof_bootCaches bcDict rootpath
    volUUID volName = Parsed (caches up) →
  strlen (curMount up) < PATH_MAX →
  let r := nukeLabels K up w in
  if has_DiskLabel bcDict
  then ∃ rval up', r.1 = Ret (Done (rval, up'))
  else r = (Ret Fault, w).
Proof.
  intros Hp Hm. cbv zeta.
  apply parseDict_label in Hp as [Hl Hi].
  unfold nukeLabels. rewrite (pathcpy_fits _ Hm).
  destruct (has_DiskLabel bcDict) eqn:Hd.
  2:{ destruct Hl as [_ Hl]. by rewrite (Hl eq_refl). }
  - destruct (label (caches up)) as [i|] eqn:El;
      [|destruct Hl as [Hl _]; by specialize (Hl eq_refl)].
    destruct (Hi i eq_refl) as [lbl Hlbl]. simpl. rewrite Hlbl.
    destruct (pathcat _ _) as [labelp|]; [|by eexists _, _].
    assert (Hun : ∀ sb rv labelp w1 (Q : outcome Z → World → Prop),
      (∀ r w2, Q (Ret r) w2) →
      wp (match sb : option inode with
          | Some _ => r ← sunlink K (curbootfd up) labelp; mret (Z.lor rv r)
          | None => mret rv
          end) w1 Q).
    { intros [sb|] rv p w1 Q HQ; [|by apply wp_ret].
      apply wp_bind. unfold wp at 1.
      destruct (sunlink_returns K (curbootfd up) p w1) as [r Hr].
      destruct (sunlink K _ _ _) as [o w2]. simpl in *. subst o.
      by apply wp_ret. }
    change (wp (sb ← sys_stat K labelp;
                rval ← match sb with
                       | Some _ =>
                           r ← sunlink K (curbootfd up) labelp;
                           mret (Z.lor 0 r)
                       | None => mret 0
                       end;
                match pathcat labelp CONTENTEXT with
                | None => mret (Done (rval, up))
                | Some labelp =>
                    sb ← sys_stat K labelp;
                    rval ← match sb with
                           | Some _ =>
                               r ← sunlink K (curbootfd up) labelp;
                               mret (Z.lor rval r)
                           | None => mret rval
                           end;
                    mret (Done (rval, set_changestate nukedLabels up))
                end) w (λ o _, ∃ rval up', o = Ret (Done (rval, up')))).
    apply wp_bind, sys_stat_wp. intros w1 _ _ _ _.
    apply wp_bind, Hun. intros rv w2.
    destruct (pathcat _ _) as [labelp2|]; [|by eexists _, _].
    apply wp_bind, sys_stat_wp. intros w3 _ _ _ _.
    apply wp_bind, Hun. intros rv2 w4. by eexists _, _.
Qed.

End LabelOfDict.

(** X12 on a descriptor that has an EFI booter and nothing else. *)
Lemma nukeLabels_faults_without_label_witness :
  ∃ c,
    parseDict demo_calloc demo_sizeof_cachedPath demo_sizeof_bootCaches
      demo_bcDict_nolabel "/Volumes/host" (Some "UUID") "Host" = Parsed c ∧
    ∀ K w,
      nukeLabels K
        (mkUpdatingVol 1 "/Volumes/boot" true "" "" "" nothingSerious
           true true true c) w
      = (Ret Fault, w).
Proof.
  eexists. split; [vm_compute; reflexivity|]. intros K w.
  exact (nukeLabels_faults_without_label demo_calloc demo_sizeof_cachedPath
           demo_sizeof_bootCaches K demo_bcDict_nolabel "/Volumes/host"
           (Some "UUID") "Host"
           (mkUpdatingVol 1 "/Volumes/boot" true "" "" "" nothingSerious
              true true true _) w eq_refl eq_refl).
Defined.

(** ** update_boot.c: the update of a helper stays on the helper *)

Section HelperConfined.
Variables (K : Kernel) (D fdvol : Z) (w0 : World) (d0 : fdesc).
Variable cf_dictionary : World → inode → bool.
Variable cf_xmldata : World → inode → string → option Z.
Hypothesis Hvol : fd_lookup w0 fdvol = Some d0.
Hypothesis Hdev : st_dev (fd_ino d0) = D.


Lemma sopen_rdonly_confined scope path w Q :
  ext (confined D) w0 w →
  (∀ rfd w', ext (confined D) w0 w' → fresh w0 rfd → Q (Ret rfd) w') →
  wp (sopen K scope path O_RDONLY 0) w Q.
Proof.
  intros E HQ.
  apply (sopen_spec K (confined D) _ _ _ _ w0); auto using probe_confined.
  { intros dino _ _ Hm. done. }
  intros rfd w1 E1 Hr. apply HQ; [done|].
  destruct Hr as [->|(? & ? & _ & _ & ? & _)]; [by left|done].
Qed.












Lemma activateBooters_of_confined up w Q :
  curbootfd up = fdvol →
  ext (confined D) w0 w →
  (∀ o w', ext (confined D) w0 w' →
     match o with
     | Ret (inl (_, fd)) => fresh w0 fd
     | _ => True
     end → Q o w') →
  wp (activateBooters_of K up) w Q.
Proof.
  intros Hfd E HQ. unfold activateBooters_of. cbv zeta. rewrite Hfd.
  assert (Hm1 : fresh w0 (-1)) by (by left).
  destruct (has_rpath _); [|by apply wp_ret, HQ].
  apply wp_bind, (sopen_confined K D fdvol w0 d0 Hvol Hdev); [done|].
  intros fd w1 E1 Hf.
  assert (F : fresh w0 fd) by (destruct Hf as [->|[? _]]; auto).
  destruct (decide (fd = -1)); [by apply wp_ret, HQ|].
  destruct Hf as [?|(_ & dd & Hl & Hd)]; [done|].
  apply wp_bind, (sys_fd_spec K (confined D) _ _ w0); [done|done|].
  intros r w2 E2 _ T2 _. destruct (decide _); [by apply wp_ret, HQ|].
  apply wp_bind, (sys_fd_spec K (confined D) _ _ w0); [done| |].
  { intros d. rewrite (fd_lookup_tab w1 w2) by done. rewrite Hl.
    intros [= <-] _. done. }
  intros r2 w3 E3 _ _ _. destruct (decide _); [by apply wp_ret, HQ|].
  apply wp_bind, (sys_close_spec (confined D) w0); [done..|].
  intros _ w4 E4 _ _ _.
  destruct (pathcpy _); by apply wp_ret, HQ.
Qed.

Lemma activateBooters_efi_confined up vinfo0 w Q :
  curbootfd up = fdvol →
  ext (confined D) w0 w →
  (∀ o w', ext (confined D) w0 w' →
     match o with
     | Ret (inl (_, fd)) => fresh w0 fd
     | _ => True
     end → Q o w') →
  wp (activateBooters_efi K up vinfo0) w Q.
Proof.
  intros Hfd E HQ. unfold activateBooters_efi. cbv zeta. rewrite Hfd.
  assert (Hm1 : fresh w0 (-1)) by (by left).
  destruct (has_rpath _); [|by apply wp_ret, HQ].
  apply wp_bind, sopen_rdonly_confined; [done|]. intros fd w1 E1 F.
  destruct (decide (fd = -1)); [by apply wp_ret, HQ|].
  apply wp_bind, (sys_fd_spec K (confined D) _ _ w0); [done|done|].
  intros r w2 E2 _ T2 _. destruct (decide _); [by apply wp_ret, HQ|].
  apply wp_bind, sys_fstat_spec. intros sb w3 T3 C3 R3 _.
  assert (E3 : ext (confined D) w0 w3) by (eapply ext_same; eauto).
  destruct sb as [sb|]; [|by apply wp_ret, HQ].
  apply wp_bind, (sys_close_spec (confined D) w0); [done..|].
  intros _ w4 E4 _ _ _.
  destruct (decide _); [|by apply wp_ret, HQ].
  destruct (pathcpy _); [|by apply wp_ret, HQ].
  apply wp_bind, sopen_rdonly_confined; [done|]. intros fd2 w5 E5 F2.
  destruct (decide (fd2 = -1)); [by apply wp_ret, HQ|].
  apply wp_bind, sys_fstat_spec. intros sb2 w6 T6 C6 R6 _.
  assert (E6 : ext (confined D) w0 w6) by (eapply ext_same; eauto).
  destruct sb2 as [sb2|]; [|by apply wp_ret, HQ].
  apply wp_bind, (sys_close_spec (confined D) w0); [done..|].
  intros _ w7 E7 _ _ _. by apply wp_ret, HQ.
Qed.

Lemma schdir_confined path w Q :
  ext (confined D) w0 w →
  (∀ r sd w', ext (confined D) w0 w' → fresh w0 sd →
     (r = 0 → st_dev (cwd w') = D) → Q (Ret (r, sd)) w') →
  wp (schdir K fdvol path) w Q.
Proof.
  intros E HQ. unfold schdir.
  assert (Hm1 : fresh w0 (-1)) by (by left).
  destruct (pathcpy path); [|by apply wp_ret, HQ].
  destruct (pathcat _ _); [|by apply wp_ret, HQ].
  apply wp_bind, (schdirparent_spec K (confined D) _ _ _ _ w0);
    auto using probe_confined.
  intros r sd ch w1 E1 Fs _ _ _ Hz. apply wp_ret, HQ; [done..|].
  intros ->. destruct (Hz eq_refl) as (p & dino & _ & _ & Hc & Hs & _).
  rewrite Hc. by apply (in_scope_dev D fdvol w0 d0 Hvol Hdev w).
Qed.




End HelperConfined.



(** ** update_boot.c: the update of a helper and its descriptors *)

Section HelperDescriptors.
Variable K : Kernel.
Variable cf_dictionary : World → inode → bool.
Variable cf_xmldata : World → inode → string → option Z.

Lemma FindRPSDir_fds up (X : list Z) w0 w Q :
  opened X w0 w →
  (∀ a w', opened X w0 w' → Q (Ret a) w') →
  wp (FindRPSDir K up) w Q.
Proof.
  intros O HQ. unfold FindRPSDir.
  repeat match goal with
         | |- context [match ?x with Some _ => _ | None => _ end] =>
             destruct x; [|by apply wp_ret, HQ]
         end.
  apply wp_bind, (wp_neutral _ X w0); [apply neutral_sys_stat|done|].
  intros r1 w1 O1.
  apply wp_bind, (wp_neutral _ X w0); [apply neutral_sys_stat|done|].
  intros r2 w2 O2.
  apply wp_bind, (wp_neutral _ X w0); [apply neutral_sys_stat|done|].
  intros r3 w3 O3.
  destruct r1, r2, r3; simpl.
  all: repeat match goal with
         | |- context [match ?x with Some _ => _ | None => _ end] =>
             destruct x; [|by apply wp_ret, HQ]
         end.
  all: by apply wp_ret, HQ.
Qed.

(** Closing, at [finish], a descriptor that is open, or none. *)
Lemma finish_close_fds {A} (a : A) fd (X : list Z) w0 w Q :
  opened ((if decide (fd = -1) then [] else [fd]) ++ X) w0 w →
  (fd = -1 ∨ fd ∉ X) →
  (∀ a w', opened X w0 w' → Q (Ret a) w') →
  wp ((if decide (fd ≠ -1) then sys_close fd else mret 0);; mret a) w Q.
Proof.
  intros O Hf HQ. apply wp_bind.
  destruct (decide (fd ≠ -1)) as [Hn|Hn].
  - rewrite decide_False in O by done. destruct Hf as [?|Hx]; [done|].
    apply (wp_close_head _ X w0); [done..|].
    intros z w1 O1 _. by apply wp_ret, HQ.
  - assert (fd = -1) as ->
      by (destruct (decide (fd = -1)); [done|by destruct Hn]).
    rewrite decide_True in O by done. by apply wp_ret, wp_ret, HQ.
Qed.

Lemma insertUUID_fds up srcpath dstpath (X : list Z) w0 w Q :
  opened X w0 w →
  (∀ a w', opened X w0 w' → Q (Ret a) w') →
  (∀ w', Q Diverge w') →
  wp (insertUUID K cf_dictionary cf_xmldata up srcpath dstpath) w Q.
Proof.
  intros O HQ HD. unfold insertUUID. apply wp_bind.
  assert (Hf : ∀ rval fd w1,
     opened ((if decide (fd = -1) then [] else [fd]) ++ X) w0 w1 →
     (fd = -1 ∨ fd ∉ X) →
     wp (mret (rval, fd)) w1
       (λ o w', match o with
                | Ret a => wp (let '(rval, fd) := a in
                     (if decide (fd ≠ -1) then sys_close fd else mret 0);;
                     mret rval) w' Q
                | Diverge => Q Diverge w'
                end)).
  { intros rval fd w1 O1 H1. apply wp_ret. by apply (finish_close_fds _ _ X w0). }
  assert (Hf0 : ∀ rval w1, opened X w0 w1 →
     wp (mret (rval, -1)) w1
       (λ o w', match o with
                | Ret a => wp (let '(rval, fd) := a in
                     (if decide (fd ≠ -1) then sys_close fd else mret 0);;
                     mret rval) w' Q
                | Diverge => Q Diverge w'
                end)).
  { intros rval w1 O1. apply Hf; [|by left]. by rewrite decide_True. }
  assert (Hf1 : ∀ rval fd w1, fd ≠ -1 → fd ∉ X → opened (fd :: X) w0 w1 →
     wp (mret (rval, fd)) w1
       (λ o w', match o with
                | Ret a => wp (let '(rval, fd) := a in
                     (if decide (fd ≠ -1) then sys_close fd else mret 0);;
                     mret rval) w' Q
                | Diverge => Q Diverge w'
                end)).
  { intros rval fd w1 Hn Hx O1. apply Hf; [|by right].
    by rewrite decide_False. }
  unfold insertUUID_body. cbv zeta.
  apply wp_bind, (sopen_fds _ _ _ _ _ X w0); [done|..].
  { intros w1 O1. rewrite decide_True by done. by apply Hf0. }
  intros fd w1 Hn Hx O1. rewrite decide_False by done.
  apply wp_bind, (wp_neutral _ (fd :: X) w0); [apply neutral_sys_fstat|done|].
  intros [sb|] w2 O2; [|by apply Hf1].
  apply wp_bind, (wp_neutral _ (fd :: X) w0);
    [apply neutral_sys_malloc|done|].
  intros buf w3 O3. destruct (decide _); [by apply Hf1|].
  apply wp_bind, (wp_neutral _ (fd :: X) w0); [apply neutral_sys_fd|done|].
  intros nr w4 O4. destruct (decide _); [by apply Hf1|].
  apply wp_bind. unfold wp at 1. simpl.
  destruct (cf_dictionary w4 sb); simpl; [|by apply Hf1].
  apply wp_bind, (scoped_int_fds _ _ _ SysUnlink (fd :: X) w0); [done|].
  intros u w5 O5.
  destruct (pathcpy (dirname dstpath)) as [dstparent|]; [|by apply Hf1].
  apply wp_bind, (sdeepmkdir_rec_fds _ _ _ (fd :: X) w0); [done|].
  intros [r|] w6 O6; [|by apply HD].
  destruct (decide _); [by apply Hf1|].
  apply wp_bind, (wp_close_head _ X w0); [done..|].
  intros z w7 O7 _.
  apply wp_bind, (sopen_fds _ _ _ _ _ X w0); [done|..].
  { intros w8 O8. rewrite decide_True by done. by apply Hf0. }
  intros fd2 w8 Hn2 Hx2 O8. rewrite decide_False by done.
  apply wp_bind. unfold wp at 1. simpl.
  destruct (cf_xmldata w8 sb _) as [len|]; [|by apply Hf1].
  apply wp_bind, (wp_neutral _ (fd2 :: X) w0); [apply neutral_sys_fd|done|].
  intros nw w9 O9. destruct (decide _); by apply Hf1.
Qed.

Lemma ucopyRPS_loop_fds up cps (X : list Z) w0 : ∀ i w Q,
  opened X w0 w →
  (∀ a w', opened X w0 w' → Q (Ret a) w') →
  (∀ w', Q Diverge w') →
  wp (ucopyRPS_loop K cf_dictionary cf_xmldata up i cps) w Q.
Proof.
  induction cps as [|cp cps IH]; intros i w Q O HQ HD; cbn [ucopyRPS_loop].
  - by apply wp_ret, HQ.
  - repeat match goal with
           | |- context [match ?x with Some _ => _ | None => _ end] =>
               destruct x; [|by apply wp_ret, HQ]
           end.
    destruct (decide _).
    + apply wp_bind, (insertUUID_fds _ _ _ X w0); [done| |done].
      intros r w1 O1. by apply IH.
    + apply wp_bind, (wp_neutral _ X w0); [apply neutral_sys_stat|done|].
      intros sb w1 O1.
      destruct (match sb with Some _ => _ | None => _ end);
        [by apply wp_ret, HQ|].
      apply wp_bind, (scopyfile_fds _ _ _ _ _ X w0); [done| |done].
      intros r w2 O2.
      destruct (decide _); [by apply wp_ret, HQ|]. by apply IH.
Qed.

Lemma ucopyRPS_fds up (X : list Z) w0 w Q :
  opened X w0 w →
  (∀ a w', opened X w0 w' → Q (Ret a) w') →
  (∀ w', Q Diverge w') →
  wp (ucopyRPS K cf_dictionary cf_xmldata up) w Q.
Proof.
  intros O HQ HD. unfold ucopyRPS.
  apply wp_bind, (FindRPSDir_fds _ X w0); [done|].
  intros [[[r prev] cur] next] w1 O1.
  destruct (decide _); [by apply wp_ret, HQ|]. cbv zeta. simpl.
  apply wp_bind, (wp_neutral _ X w0); [apply neutral_sys_stat|done|].
  intros sb w2 O2.
  apply wp_bind.
  assert (Hnext : ∀ r2 w3, opened X w0 w3 →
    wp (if decide (r2 ≠ 0)
        then mret (ELAST + 1, set_curRPS prev up)
        else r3 ← smkdir K (curbootfd up) prev kRPSDirMask;
             if decide (r3 ≠ 0)
             then mret (ELAST + 1, set_curRPS prev up)
             else ok ← ucopyRPS_loop K cf_dictionary cf_xmldata
                         (set_curRPS prev up) 0 (rpspaths (caches up));
                  mret (if ok : bool then 0 else ELAST + 1,
                        set_curRPS prev up)) w3 Q).
  { intros r2 w3 O3. destruct (decide _); [by apply wp_ret, HQ|].
    apply wp_bind,
      (scoped_int_fds _ _ _ (λ ch, SysMkdir ch kRPSDirMask) X w0); [done|].
    intros r3 w4 O4. destruct (decide _); [by apply wp_ret, HQ|].
    apply wp_bind, (ucopyRPS_loop_fds _ _ X w0); [done| |done].
    intros ok w5 O5. by apply wp_ret, HQ. }
  destruct sb as [sb|].
  - apply (sdeepunlink_fds _ _ _ X w0); [done|].
    intros r2 w3 O3. by apply Hnext.
  - apply wp_ret. by apply Hnext.
Qed.

Lemma ucopyMisc_loop_fds up cps (X : list Z) w0 : ∀ n w Q,
  opened X w0 w →
  (∀ a w', opened X w0 w' → Q (Ret a) w') →
  (∀ w', Q Diverge w') →
  wp (ucopyMisc_loop K up cps n) w Q.
Proof.
  induction cps as [|cp cps IH]; intros n w Q O HQ HD; cbn [ucopyMisc_loop].
  - by apply wp_ret, HQ.
  - repeat match goal with
           | |- context [match ?x with Some _ => _ | None => _ end] =>
               destruct x; [|by apply wp_ret, HQ]
           end.
    apply wp_bind, (wp_neutral _ X w0); [apply neutral_sys_stat|done|].
    intros sb w1 O1. destruct sb as [sb|]; [|by apply IH].
    apply wp_bind, (scopyfile_fds _ _ _ _ _ X w0); [done| |done].
    intros r w2 O2. by apply IH.
Qed.

Lemma nukeLabels_fds up (X : list Z) w0 w Q :
  opened X w0 w →
  (∀ a w', opened X w0 w' → Q (Ret a) w') →
  wp (nukeLabels K up) w Q.
Proof.
  intros O HQ. unfold nukeLabels.
  destruct (pathcpy _); [|by apply wp_ret, HQ].
  destruct (_ ≫= _) as [lbl|]; [|by apply wp_ret, HQ].
  destruct (pathcat _ _) as [labelp|]; [|by apply wp_ret, HQ].
  assert (Hun : ∀ (sb : option inode) rv p w1 (Q' : outcome Z → World → Prop),
    opened X w0 w1 →
    (∀ r w2, opened X w0 w2 → Q' (Ret r) w2) →
    wp (match sb with
        | Some _ => r ← sunlink K (curbootfd up) p; mret (Z.lor rv r)
        | None => mret rv
        end) w1 Q').
  { intros [sb|] rv p w1 Q' O1 HQ'; [|by apply wp_ret, HQ'].
    apply wp_bind, (scoped_int_fds _ _ _ SysUnlink X w0); [done|].
    intros r w2 O2. by apply wp_ret, HQ'. }
  apply wp_bind, (wp_neutral _ X w0); [apply neutral_sys_stat|done|].
  intros sb w1 O1.
  apply wp_bind, Hun; [done|]. intros rv w2 O2.
  destruct (pathcat _ _) as [labelp2|]; [|by apply wp_ret, HQ].
  apply wp_bind, (wp_neutral _ X w0); [apply neutral_sys_stat|done|].
  intros sb2 w3 O3.
  apply wp_bind, Hun; [done|]. intros rv2 w4 O4. by apply wp_ret, HQ.
Qed.

Lemma activateRPS_fds up (X : list Z) w0 w Q :
  opened X w0 w →
  (∀ a w', opened X w0 w' → Q (Ret a) w') →
  wp (activateRPS K up) w Q.
Proof.
  intros O HQ. unfold activateRPS.
  apply wp_bind, (FindRPSDir_fds _ X w0); [done|].
  intros [[[r prev] cur] next] w1 O1.
  destruct (decide _); [by apply wp_ret, HQ|].
  apply wp_bind.
  assert (Hnext : ∀ r2 w2, opened X w0 w2 →
    wp (if decide (r2 ≠ 0) then mret (ELAST + 1)
        else r3 ← sys_fullfsync K (curbootfd up);
             if decide (r3 ≠ 0) then mret (ELAST + 1) else mret 0) w2 Q).
  { intros r2 w2 O2. destruct (decide _); [by apply wp_ret, HQ|].
    apply wp_bind, (wp_neutral _ X w0); [apply neutral_sys_fd|done|].
    intros r3 w3 O3. destruct (decide _); by apply wp_ret, HQ. }
  destruct (strncmp_ne _ _ _).
  - apply (srename_fds _ _ _ _ X w0); [done|].
    intros r2 w2 O2. by apply Hnext.
  - apply wp_ret. by apply Hnext.
Qed.

Lemma ucopyBooters_fds up (X : list Z) w0 w Q :
  opened X w0 w →
  (∀ a w', opened X w0 w' → Q (Ret a) w') →
  (∀ w', Q Diverge w') →
  wp (ucopyBooters K up) w Q.
Proof.
  intros O HQ HD. unfold ucopyBooters. cbv zeta.
  apply wp_bind. unfold ucopyBooters_of.
  assert (Hefi : ∀ up1 w1, opened X w0 w1 →
    wp (r ← ucopyBooters_efi K up1;
        match r with
        | inl up => mret (ELAST + 1, up)
        | inr up => mret (0, set_changestate copiedBooters up)
        end) w1 Q).
  { intros up1 w1 O1. apply wp_bind. unfold ucopyBooters_efi.
    assert (Hr : ∀ (r : updatingVol + updatingVol) w2, opened X w0 w2 →
      wp (mret r) w2
        (λ o w', match o with
                 | Ret a => wp (match a with
                                | inl up => mret (ELAST + 1, up)
                                | inr up =>
                                    mret (0, set_changestate copiedBooters up)
                                end) w' Q
                 | Diverge => Q Diverge w'
                 end)).
    { intros [u|u] w2 O2; by apply wp_ret, wp_ret, HQ. }
    destruct (has_rpath _); [|by apply Hr].
    repeat match goal with
           | |- context [match ?x with Some _ => _ | None => _ end] =>
               destruct x; [|by apply Hr]
           end.
    cbv zeta.
    apply wp_bind, (scoped_int_fds _ _ _ SysUnlink X w0); [done|].
    intros u w2 O2.
    apply wp_bind, (srename_fds _ _ _ _ X w0); [done|].
    intros r w3 O3. apply wp_bind, get_errno_spec.
    destruct (decide _); [by apply Hr|].
    apply wp_bind, (scopyfile_fds _ _ _ _ _ X w0); [done| |done].
    intros r2 w4 O4. destruct (decide _); by apply Hr. }
  assert (Hr : ∀ (r : updatingVol + updatingVol) w2, opened X w0 w2 →
    wp (mret r) w2
      (λ o w', match o with
               | Ret a =>
                   wp (match a with
                       | inl up => mret (ELAST + 1, up)
                       | inr up =>
                           r ← ucopyBooters_efi K
                                 (set_changestate copyingEFIBooter up);
                           match r with
                           | inl up => mret (ELAST + 1, up)
                           | inr up =>
                               mret (0, set_changestate copiedBooters up)
                           end
                       end) w' Q
               | Diverge => Q Diverge w'
               end)).
  { intros [u|u] w2 O2; apply wp_ret; [by apply wp_ret, HQ|by apply Hefi]. }
  destruct (has_rpath _); [|by apply Hr].
  repeat match goal with
         | |- context [match ?x with Some _ => _ | None => _ end] =>
             destruct x; [|by apply Hr]
         end.
  cbv zeta.
  apply wp_bind, (scoped_int_fds _ _ _ SysUnlink X w0); [done|].
  intros u w2 O2.
  apply wp_bind, (srename_fds _ _ _ _ X w0); [done|].
  intros r w3 O3.
  destruct (decide _); [by apply Hr|].
  apply wp_bind, (scopyfile_fds _ _ _ _ _ X w0); [done| |done].
  intros r2 w4 O4. destruct (decide _); by apply Hr.
Qed.

Lemma nukeFallbacks_booter_fds up cp (X : list Z) w0 w Q :
  opened X w0 w →
  (∀ a w', opened X w0 w' → Q (Ret a) w') →
  wp (nukeFallbacks_booter K up cp) w Q.
Proof.
  intros O HQ. unfold nukeFallbacks_booter.
  destruct (has_rpath _); [|by apply wp_ret, HQ].
  repeat match goal with
         | |- context [match ?x with Some _ => _ | None => _ end] =>
             destruct x; [|by apply wp_ret, HQ]
         end.
  apply wp_bind, (scoped_int_fds _ _ _ SysUnlink X w0); [done|].
  intros r w1 O1. apply wp_bind, get_errno_spec. by apply wp_ret, HQ.
Qed.

Lemma nukeFallbacks_fds up (X : list Z) w0 w Q :
  opened X w0 w →
  (∀ a w', opened X w0 w' → Q (Ret a) w') →
  wp (nukeFallbacks K up) w Q.
Proof.
  intros O HQ. unfold nukeFallbacks.
  destruct (negb _); [by apply wp_ret, HQ|].
  apply wp_bind.
  assert (Hrps : ∀ (r : Z + Z) w1, opened X w0 w1 →
    wp (match r with
        | inl rval => mret rval
        | inr rval =>
            if doRPS up then
              '(r, delpath, _, _) ← FindRPSDir K up;
              if decide (r = 0) then
                bsderr ← sdeepunlink K (curbootfd up) delpath;
                mret (if decide (bsderr ≠ 0 ∧ bsderr ≠ ENOENT)
                      then Z.lor rval bsderr else rval)
              else mret rval
            else mret rval
        end) w1 Q).
  { intros [rval|rval] w1 O1; [by apply wp_ret, HQ|].
    destruct (doRPS up); [|by apply wp_ret, HQ].
    apply wp_bind, (FindRPSDir_fds _ X w0); [done|].
    intros [[[r prev] cur] next] w2 O2.
    destruct (decide _); [|by apply wp_ret, HQ].
    apply wp_bind, (sdeepunlink_fds _ _ _ X w0); [done|].
    intros b w3 O3. by apply wp_ret, HQ. }
  destruct (doBooters up); [|apply wp_ret; exact (Hrps (inr _) _ O)].
  apply wp_bind, (nukeFallbacks_booter_fds _ _ X w0); [done|].
  intros [r1|] w1 O1; [|apply wp_ret; exact (Hrps (inl _) _ O1)].
  cbv zeta.
  apply wp_bind, (nukeFallbacks_booter_fds _ _ X w0); [done|].
  intros [r2|] w2 O2;
    [apply wp_ret; exact (Hrps (inr _) _ O2)
    |apply wp_ret; exact (Hrps (inl _) _ O2)].
Qed.

Lemma ucopyMisc_fds up (X : list Z) w0 w Q :
  opened X w0 w →
  (∀ a w', opened X w0 w' → Q (Ret a) w') →
  (∀ w', Q Diverge w') →
  wp (ucopyMisc K up) w Q.
Proof.
  intros O HQ HD. unfold ucopyMisc.
  apply wp_bind, (ucopyMisc_loop_fds _ _ X w0); [done| |done].
  intros [n|] w1 O1; by apply wp_ret, HQ.
Qed.

Lemma activateBooters_of_fds up (X : list Z) w0 w Q :
  opened X w0 w →
  (∀ rval fd w', fd_at_finish X w0 w' fd → Q (Ret (inl (rval, fd))) w') →
  (∀ v w', opened X w0 w' → Q (Ret (inr v)) w') →
  wp (activateBooters_of K up) w Q.
Proof.
  intros O HL HR. unfold activateBooters_of. cbv zeta.
  destruct (has_rpath _); [|by apply wp_ret, HR].
  apply wp_bind, (sopen_fds _ _ _ _ _ X w0); [done|..].
  { intros w1 O1. rewrite decide_True by done.
    apply wp_ret, HL. right. auto. }
  intros fd w1 Hn Hx O1. rewrite decide_False by done.
  assert (Hopen : ∀ w', opened (fd :: X) w0 w' → fd_at_finish X w0 w' fd)
    by (intros; left; auto).
  apply wp_bind, (wp_neutral _ (fd :: X) w0); [apply neutral_sys_fd|done|].
  intros r w2 O2. destruct (decide _); [by apply wp_ret, HL, Hopen|].
  apply wp_bind, (wp_neutral _ (fd :: X) w0); [apply neutral_sys_fd|done|].
  intros r2 w3 O3. destruct (decide _); [by apply wp_ret, HL, Hopen|].
  apply wp_bind, (wp_close_head _ X w0); [done..|].
  intros z w4 O4 _.
  destruct (pathcpy _); apply wp_ret, HL; right; auto.
Qed.

Lemma activateBooters_efi_fds up vinfo0 (X : list Z) w0 w Q :
  opened X w0 w →
  (∀ rval fd w', fd_at_finish X w0 w' fd → Q (Ret (inl (rval, fd))) w') →
  (∀ v w', opened X w0 w' → Q (Ret (inr v)) w') →
  wp (activateBooters_efi K up vinfo0) w Q.
Proof.
  intros O HL HR. unfold activateBooters_efi. cbv zeta.
  destruct (has_rpath _); [|by apply wp_ret, HR].
  apply wp_bind, (sopen_fds _ _ _ _ _ X w0); [done|..].
  { intros w1 O1. rewrite decide_True by done.
    apply wp_ret, HL. right. auto. }
  intros fd w1 Hn Hx O1. rewrite decide_False by done.
  assert (Hopen : ∀ fd w', fd ≠ -1 → fd ∉ X → opened (fd :: X) w0 w' →
                           fd_at_finish X w0 w' fd)
    by (intros; left; auto).
  apply wp_bind, (wp_neutral _ (fd :: X) w0); [apply neutral_sys_fd|done|].
  intros r w2 O2. destruct (decide _); [by apply wp_ret, HL, Hopen|].
  apply wp_bind, (wp_neutral _ (fd :: X) w0); [apply neutral_sys_fstat|done|].
  intros [sb|] w3 O3; [|by apply wp_ret, HL, Hopen].
  apply wp_bind, (wp_close_head _ X w0); [done..|].
  intros z w4 O4 _.
  destruct (decide _); [|by apply wp_ret, HR].
  destruct (pathcpy _); [|apply wp_ret, HL; right; auto].
  apply wp_bind, (sopen_fds _ _ _ _ _ X w0); [done|..].
  { intros w5 O5. rewrite decide_True by done.
    apply wp_ret, HL. right. auto. }
  intros fd2 w5 Hn2 Hx2 O5. rewrite decide_False by done.
  apply wp_bind, (wp_neutral _ (fd2 :: X) w0);
    [apply neutral_sys_fstat|done|].
  intros [sb2|] w6 O6; [|by apply wp_ret, HL, Hopen].
  apply wp_bind, (wp_close_head _ X w0); [done..|].
  intros z2 w7 O7 _. by apply wp_ret, HR.
Qed.

Lemma schdir_fds fdvol path (X : list Z) w0 w Q :
  opened X w0 w →
  (∀ r sd w', r ≠ 0 → (sd = -1 ∨ fd_lookup w' sd = None) →
              opened X w0 w' → Q (Ret (r, sd)) w') →
  (∀ sd w', sd ≠ -1 → sd ∉ X → opened (sd :: X) w0 w' →
            Q (Ret (0, sd)) w') →
  wp (schdir K fdvol path) w Q.
Proof.
  intros O HF HS. unfold schdir.
  destruct (pathcpy path); [|apply wp_ret, HF; auto; lia].
  destruct (pathcat _ _); [|apply wp_ret, HF; auto; lia].
  apply wp_bind, (schdirparent_fds _ _ _ _ _ X w0); [done|].
  intros r od ch w1 O1 Hod Hc Hz _. apply wp_ret.
  destruct (decide (r = 0)) as [->|Hr].
  - specialize (Hz eq_refl eq_refl).
    rewrite decide_True in O1 by done.
    destruct Hod as [?|Hx]; [done|]. by apply HS.
  - rewrite decide_False in O1 by (by intros [? _]).
    apply HF; auto.
Qed.

Lemma activateBooters_body_fds up (X : list Z) w0 w Q :
  opened X w0 w →
  (∀ rval fd up' w', fd_at_finish X w0 w' fd →
                     Q (Ret (rval, fd, up')) w') →
  wp (activateBooters_body K up) w Q.
Proof.
  intros O HQ. unfold activateBooters_body. cbv zeta.
  apply wp_bind, (activateBooters_of_fds _ X w0); [done|..].
  { intros rval fd w1 F1. by apply wp_ret, HQ. }
  intros vinfo0 w1 O1.
  apply wp_bind, (activateBooters_efi_fds _ _ X w0); [done|..].
  { intros rval fd w2 F2. by apply wp_ret, HQ. }
  intros [v0 v1] w2 O2.
  apply wp_bind, (schdir_fds _ _ X w0); [done|..].
  { intros r sd w3 Hr Hsd O3. rewrite decide_True by done.
    apply wp_ret, HQ. right. auto. }
  intros sd w3 Hn Hx O3. rewrite decide_False by (intros H; by apply H).
  apply wp_bind, (wp_neutral _ (sd :: X) w0); [apply neutral_sys_int|done|].
  intros rv w4 O4.
  destruct (decide _); [apply wp_ret, HQ; left; auto|].
  apply wp_bind. unfold restoredir. rewrite decide_True by done.
  apply wp_bind, (wp_neutral _ (sd :: X) w0);
    [apply neutral_sys_fchdir|done|].
  intros ch w5 O5.
  apply wp_bind, (wp_close_head _ X w0); [done..|].
  intros cl w6 O6 _. apply wp_ret, wp_ret, HQ. right. auto.
Qed.

Lemma activateBooters_fds up (X : list Z) w0 w Q :
  opened X w0 w →
  (∀ a w', opened X w0 w' → Q (Ret a) w') →
  wp (activateBooters K up) w Q.
Proof.
  intros O HQ. unfold activateBooters.
  apply wp_bind, (activateBooters_body_fds _ X w0); [done|].
  intros rval fd up' w1 [(Hn & Hx & O1)|[Hc O1]].
  - apply (finish_close_fds _ _ X w0); [by rewrite decide_False|by right|].
    done.
  - apply wp_bind. destruct (decide (fd ≠ -1)).
    + destruct Hc as [?|Hc]; [done|].
      apply (wp_close_again _ X w0); [done..|].
      intros z w2 O2 _. by apply wp_ret, HQ.
    + by apply wp_ret, wp_ret, HQ.
Qed.

End HelperDescriptors.

(** X14. The routines that update a helper partition return with every
    descriptor of the process as they found it: what [ucopyRPS] (with
    [insertUUID]), [ucopyMisc], [nukeLabels], [ucopyBooters],
    [activateBooters], [activateRPS] and [nukeFallbacks] open, they close
    on every path, also on the error paths. *)
Theorem helper_update_keeps_descriptors K cf_dictionary cf_xmldata up :
  keeps_descriptors (ucopyRPS K cf_dictionary cf_xmldata up) ∧
  keeps_descriptors (ucopyMisc K up) ∧
  keeps_descriptors (nukeLabels K up) ∧
  keeps_descriptors (ucopyBooters K up) ∧
  keeps_descriptors (activateBooters K up) ∧
  keeps_descriptors (activateRPS K up) ∧
  keeps_descriptors (nukeFallbacks K up).
Proof.
  repeat lazymatch goal with |- _ ∧ _ => split end;
    apply keeps_intro; intros w.
  - apply (ucopyRPS_fds K _ _ up [] w w); [apply opened_refl| |done].
    intros a w' O. by apply opened_nil.
  - apply (ucopyMisc_fds K up [] w w); [apply opened_refl| |done].
    intros a w' O. by apply opened_nil.
  - apply (nukeLabels_fds K up [] w w); [apply opened_refl|].
    intros a w' O. by apply opened_nil.
  - apply (ucopyBooters_fds K up [] w w); [apply opened_refl| |done].
    intros a w' O. by apply opened_nil.
  - apply (activateBooters_fds K up [] w w); [apply opened_refl|].
    intros a w' O. by apply opened_nil.
  - apply (activateRPS_fds K up [] w w); [apply opened_refl|].
    intros a w' O. by apply opened_nil.
  - apply (nukeFallbacks_fds K up [] w w); [apply opened_refl|].
    intros a w' O. by apply opened_nil.
Qed.

(** ** bootcaches.c: [check_mkext] *)

Section MkextOfDict.
Variable calloc_ok : Z → Z → bool.
Variable sizeof_cachedPath : Z.
Variable sizeof_bootCaches : Z.

Lemma parse_preboot_root bcDict c kc c' kc' :
  parse_preboot calloc_ok sizeof_cachedPath bcDict c kc = Some (c', kc') →
  root c' = root c.
Proof.
  unfold parse_preboot. intros H. repeat case_match; simplify_eq; done.
Qed.

Lemma parse_booters_root bcDict c kc c' kc' :
  parse_booters bcDict c kc = Some (c', kc') → root c' = root c.
Proof.
  unfold parse_booters. intros H. repeat case_match; simplify_eq; done.
Qed.

Lemma parse_postboot_mkext bcDict c kc c' kc' :
  parse_postboot calloc_ok sizeof_cachedPath bcDict c kc = inr (c', kc') →
  mkext c = None →
  root c' = root c ∧ (mkext c' = None ↔ has_MKext bcDict = false).
Proof.
  unfold parse_postboot, has_MKext. intros H Hm.
  destruct (bcDict !! kBCPostBootKey) as [[| |d|]|]; try done.
  2:{ injection H as <- _. done. }
  destruct (parse_paths_array _ _ _ _ _) as [[[[nn paths] idx] b]|]; [|done].
  destruct (d !! kBCBootConfigKey) as [[| | |]|]; try done.
  - destruct (str2cachedPath _ _ _); [|done].
    destruct (d !! kBCMKextKey) as [[| | |]|]; try done.
    + destruct (parse_mkext _ _ _) as [|[cp ex]]; [done|].
      injection H as <- _. done.
    + injection H as <- _. done.
  - destruct (d !! kBCMKextKey) as [[| | |]|]; try done.
    + destruct (parse_mkext _ _ _) as [|[cp ex]]; [done|].
      injection H as <- _. done.
    + injection H as <- _. done.
Qed.

(** What [parseDict] leaves in [root], [mkext] and [cacheinfo]. *)
Lemma parseDict_mkext bcDict rootpath volUUID volName c :
  parseDict calloc_ok sizeof_cachedPath sizeof_bootCaches bcDict rootpath
    volUUID volName = Parsed c →
  root c = rootpath ∧ strlen rootpath < PATH_MAX ∧
  cacheinfo c = Some bcDict ∧
  (mkext c = None ↔ has_MKext bcDict = false) ∧
  (∀ i, mkext c = Some i → is_Some (rpspaths c !! i)).
Proof.
  unfold parseDict.
  destruct (negb _); [done|].
  unfold pathcpy. destruct (decide (strlen rootpath >= PATH_MAX)); [done|].
  destruct volUUID; [|done].
  destruct (decide _); [done|].
  destruct (parse_preboot _ _ _ _ _) as [[c1 kc1]|] eqn:E1; [|done].
  destruct (parse_booters _ _ _) as [[c2 kc2]|] eqn:E2; [|done].
  destruct (parse_postboot _ _ _ _ _) as [[]|[c3 kc3]] eqn:E3; [done|done|].
  destruct (decide _); [done|]. intros [= <-]. simpl.
  pose proof (parse_preboot_root _ _ _ _ _ E1) as R1.
  pose proof (parse_booters_root _ _ _ _ _ E2) as R2.
  pose proof (parse_preboot_rps _ _ _ _ _ _ _ E1) as (A1 & A2 & A3 & A4).
  pose proof (parse_booters_arrays _ _ _ _ _ E2)
    as (B1 & B2 & B3 & B4 & _).
  assert (Hm : mkext c2 = None) by (by rewrite B3, A3).
  pose proof (parse_postboot_mkext _ _ _ _ _ E3 Hm) as [R3 M3].
  apply parse_postboot_rps in E3 as (_ & _ & Q3 & _).
  - split; [by rewrite R3, R2, R1|]. split; [lia|]. split; [done|].
    split; [done|]. intros i Hi. apply lookup_lt_is_Some. by apply Q3.
  - by rewrite B1, B2, A1, A2.
  - by rewrite B4, A4.
  - done.
Qed.

(** X15. [check_mkext] reads the path of the mkext through
    [caches->mkext] before it tests that pointer. For caches that
    [parseDict] made, [check_mkext] faults, before any call, exactly when
    the descriptor has no [MKext] under [PostBootPaths]; with an [MKext]
    it returns after at most two [stat]s, and asks for a rebuild only if
    the Extensions folder is there. *)
Theorem check_mkext_faults_without_mkext K bcDict rootpath volUUID volName
    caches w :
  parseDict calloc_ok sizeof_cachedPath sizeof_bootCaches bcDict rootpath
    volUUID volName = Parsed caches →
  let r := check_mkext K caches w in
  if has_MKext bcDict
  then ∃ b, r.1 = Ret (Done b) ∧ ext quiet w r.2 ∧
            (b = true → stat_ok K w (root caches +:+ exts caches) = true)
  else r = (Ret Fault, w).
Proof.
  intros Hp. cbv zeta.
  apply parseDict_mkext in Hp as (Hr & Hlen & _ & Hm & Hi).
  unfold check_mkext. rewrite !(pathcpy_fits (root caches)) by (by rewrite Hr).
  destruct (has_MKext bcDict).
  2:{ destruct Hm as [_ Hm]. by rewrite (Hm eq_refl). }
  destruct (mkext caches) as [i|] eqn:Em;
    [|destruct Hm as [Hm _]; by specialize (Hm eq_refl)].
  destruct (Hi i eq_refl) as [mk Hmk]. simpl. rewrite Hmk.
  destruct (pathcat _ (rpath mk)) as [fullmkextp|];
    [|exists false; split; [done|]; split; [apply ext_refl|done]].
  unfold pathcat.
  destruct (decide _);
    [exists false; split; [done|]; split; [apply ext_refl|done]|].
  set (Q := λ (o : outcome (faulting bool)) (w' : World),
    ∃ b, o = Ret (Done b) ∧ ext quiet w w' ∧
         (b = true → stat_ok K w (root caches +:+ exts caches) = true)).
  change (wp (extsb ← sys_stat K (root caches +:+ exts caches);
              match extsb with
              | None => mret (Done false)
              | Some extsb =>
                  sb ← sys_stat K fullmkextp;
                  match sb with
                  | None => mret (Done true)
                  | Some sb =>
                      mret (Done (negb (tv_sec (st_mtimespec sb) =?
                                        tv_sec (st_mtimespec extsb) + 1)))
                  end
              end) w Q).
  apply wp_bind. unfold wp at 1. rewrite sys_stat_eq. simpl.
  assert (E1 : ext quiet w (sys_stat K (root caches +:+ exts caches) w).2).
  { apply (sys_stat_spec K quiet _ w w (λ _ w', ext quiet w w'));
      [apply ext_refl|done|auto]. }
  destruct (k_stat K w (root caches +:+ exts caches)) as [extsb|e] eqn:Ek.
  2:{ apply wp_ret. exists false. done. }
  apply wp_bind, (sys_stat_spec K quiet _ w); [done|done|].
  intros [sb|] w2 E2 _ _; apply wp_ret; eexists;
    (split; [done|]); (split; [done|]); intros _; unfold stat_ok;
    by rewrite Ek.
Qed.

End MkextOfDict.

(** X15 on a descriptor that has an EFI booter and nothing else. *)
Lemma check_mkext_faults_without_mkext_witness :
  ∃ c,
    parseDict demo_calloc demo_sizeof_cachedPath demo_sizeof_bootCaches
      demo_bcDict_nolabel "/Volumes/host" (Some "UUID") "Host" = Parsed c ∧
    ∀ K w, check_mkext K c w = (Ret Fault, w).
Proof.
  eexists. split; [vm_compute; reflexivity|]. intros K w.
  exact (check_mkext_faults_without_mkext demo_calloc
           demo_sizeof_cachedPath demo_sizeof_bootCaches K
           demo_bcDict_nolabel "/Volumes/host" (Some "UUID") "Host" _ w
           eq_refl).
Defined.

(** ** watchvol.c and bootcaches.c: the argument vectors of kextcache *)

Lemma store_next pre n x :
  store (pre ++ replicate (S n) slot_garbage) (Z.of_nat (List.length pre)) x
  = Some ((pre ++ [x]) ++ replicate n slot_garbage).
Proof.
  unfold store. rewrite length_app, length_replicate.
  rewrite decide_True by lia. f_equal. rewrite Nat2Z.id.
  rewrite <- app_assoc. simpl.
  rewrite (insert_app_r_alt pre) by lia.
  by replace (List.length pre - List.length pre)%nat with 0%nat by lia.
Qed.

Lemma store_at v pre n x i :
  v = pre ++ replicate (S n) slot_garbage → i = Z.of_nat (List.length pre) →
  store v i x = Some ((pre ++ [x]) ++ replicate n slot_garbage).
Proof. intros -> ->. apply store_next. Qed.

Lemma store_full pre x :
  store pre (Z.of_nat (List.length pre)) x = None.
Proof. unfold store. by rewrite decide_False by lia. Qed.

Lemma wp_malloc K n w Q :
  (∀ p w', Q (Ret p) w') → wp (sys_malloc K n) w Q.
Proof. intros HQ. unfold wp, sys_malloc. destruct (k_int K w _); apply HQ. Qed.

(** X16. [rebuild_boot] asks [malloc] for four pointers
    (["kextcache"], ["-u"], the root and the final null). When [force] is
    set it also stores ["-f"], so that the final null is stored in a fifth
    slot, outside the vector: the model faults there, and kextcache is not
    launched. Without [force] the vector handed to [fork_kextcache] is
    the four slots, the last one null. *)
Theorem rebuild_boot_force_overflows K sizeof_ptr fork_kextcache caches w p :
  k_int K w (SysMalloc (4 * sizeof_ptr)) = Ok p → p ≠ 0 →
  (rebuild_boot K sizeof_ptr fork_kextcache caches true w).1 = Ret Fault ∧
  rebuild_boot K sizeof_ptr fork_kextcache caches false w =
    (pid ← fork_kextcache (root caches)
             [slot_str "kextcache"; slot_str "-u"; slot_str (root caches);
              slot_null] false;
     mret (Done (if decide (pid < 0) then pid else 0)))
      (sys_malloc K (4 * sizeof_ptr) w).2.
Proof.
  intros Hk Hp.
  assert (Hm : sys_malloc K (4 * sizeof_ptr) w =
               (Ret p, log_call (SysMalloc (4 * sizeof_ptr)) w))
    by (unfold sys_malloc; by rewrite Hk).
  assert (Ha : ∀ force, rebuild_boot_argv K sizeof_ptr caches force w =
    (Ret (if force : bool then Fault
          else Done (Some [slot_str "kextcache"; slot_str "-u";
                           slot_str (root caches); slot_null])),
     log_call (SysMalloc (4 * sizeof_ptr)) w)).
  { intros force. unfold rebuild_boot_argv. cbv zeta.
    change (1 + 1 + 1 + 1) with 4. unfold mbind, M_bind. rewrite Hm.
    rewrite decide_False by done. by destruct force. }
  unfold rebuild_boot. unfold mbind at 1 3, M_bind at 1 3.
  rewrite !Ha, Hm. done.
Qed.

(** X16 on the host of the demonstration, with pointers of 8 bytes and a
    [fork_kextcache] that answers with pid 77. *)
Lemma rebuild_boot_force_overflows_witness :
  let K := fs_kernel demo_fs in
  let fork := λ (_ : string) (_ : list slot) (_ : bool), (mret 77 : M Z) in
  let caches := demo_caches "" kBootEFI in
  (rebuild_boot K 8 fork caches true demo_world).1 = Ret Fault ∧
  rebuild_boot K 8 fork caches false demo_world =
    (pid ← fork (root caches)
             [slot_str "kextcache"; slot_str "-u"; slot_str (root caches);
              slot_null] false;
     mret (Done (if decide (pid < 0) then pid else 0)))
      (sys_malloc K (4 * 8) demo_world).2.
Proof.
  cbv zeta.
  apply (rebuild_boot_force_overflows (fs_kernel demo_fs) 8 _
           (demo_caches "" kBootEFI) demo_world 1).
  - vm_compute. reflexivity.
  - lia.
Defined.

Section RebuildMkext.
Variable K : Kernel.
Variable sizeof_ptr : Z.
Variable max_repr_size : string → Z.

Lemma rebuild_mkext_archs_fits archs : ∀ pre m w,
  (2 * List.length archs ≤ m)%nat →
  fills (rebuild_mkext_archs K max_repr_size archs
           (pre ++ replicate m slot_garbage) (Z.of_nat (List.length pre)) w).1
    (λ '(v, argi),
       v = (pre ++ arch_args archs) ++
           replicate (m - 2 * List.length archs) slot_garbage ∧
       argi = Z.of_nat (List.length (pre ++ arch_args archs))).
Proof.
  induction archs as [|a archs IH]; intros pre m w Hm.
  - simpl. rewrite app_nil_r, Nat.sub_0_r. done.
  - cbn [rebuild_mkext_archs]. destruct a as [archStr| | |]; try done.
    cbv zeta. destruct (decide _); [done|].
    change (wp (p ← sys_malloc K (max_repr_size archStr);
                if decide (p = 0) then mret (Done None) else
                if decide (strlen archStr >= max_repr_size archStr)
                then mret (Done None) else
                match store (pre ++ replicate m slot_garbage)
                        (Z.of_nat (List.length pre)) (slot_str "-a") with
                | None => mret Fault
                | Some kcargs =>
                    match store kcargs (Z.of_nat (List.length pre) + 1)
                            (slot_str archStr) with
                    | None => mret Fault
                    | Some kcargs =>
                        rebuild_mkext_archs K max_repr_size archs kcargs
                          (Z.of_nat (List.length pre) + 2)
                    end
                end) w
             (λ o _, fills o (λ '(v, argi),
                v = (pre ++ arch_args (PString archStr :: archs)) ++
                    replicate (m - 2 * List.length (PString archStr :: archs))
                      slot_garbage ∧
                argi = Z.of_nat (List.length
                         (pre ++ arch_args (PString archStr :: archs)))))).
    apply wp_bind, wp_malloc. intros p w1.
    destruct (decide _); [done|]. destruct (decide _); [done|].
    simpl in Hm.
    destruct m as [|[|m]]; [lia|lia|].
    rewrite store_next.
    replace (Z.of_nat (List.length pre) + 1)
      with (Z.of_nat (List.length (pre ++ [slot_str "-a"])))
      by (rewrite length_app; simpl; lia).
    rewrite store_next.
    replace (Z.of_nat (List.length pre) + 2)
      with (Z.of_nat (List.length
              ((pre ++ [slot_str "-a"]) ++ [slot_str archStr])))
      by (rewrite !length_app; simpl; lia).
    unfold wp.
    specialize (IH ((pre ++ [slot_str "-a"]) ++ [slot_str archStr]) m w1
                  ltac:(lia)).
    destruct (rebuild_mkext_archs _ _ _ _ _ _) as [[[[[v j]|]|]|] w2];
      simpl in *; try done.
    destruct IH as [-> ->]. rewrite <- !app_assoc. simpl.
    assert (Hx : (S m - (List.length archs + S (List.length archs + 0)) =
                  m - (List.length archs + (List.length archs + 0)))%nat)
      by lia.
    rewrite Hx. done.
Qed.

Lemma rebuild_mkext_fill_fits caches archs mk w :
  (mkext caches ≫= λ i, rpspaths caches !! i) = Some mk →
  fills (rebuild_mkext_fill K sizeof_ptr max_repr_size caches archs w).1
    (λ v, v = [slot_str "kextcache"] ++ arch_args archs ++
              [slot_str "-l"; slot_str "-m";
               slot_str (root caches +:+ rpath mk);
               slot_str (root caches +:+ exts caches); slot_null]).
Proof.
  intros Hmk. unfold rebuild_mkext_fill. cbv zeta. rewrite Hmk.
  set (P := λ v, v = [slot_str "kextcache"] ++ arch_args archs ++
              [slot_str "-l"; slot_str "-m";
               slot_str (root caches +:+ rpath mk);
               slot_str (root caches +:+ exts caches); slot_null]).
  set (n := List.length archs).
  replace (Z.to_nat (1 + Z.of_nat n * 2 + 1 + 1 + 1 + 1 + 1))
    with (S (2 * n + 5)) by lia.
  match goal with
  | |- fills (?m w).1 P => change (wp m w (λ o _, fills o P))
  end.
  apply wp_bind, wp_malloc. intros p w1.
  destruct (decide _); [done|].
  rewrite (store_at _ [] (2 * n + 5) _ _ eq_refl eq_refl).
  apply wp_bind. unfold wp at 1.
  pose proof (rebuild_mkext_archs_fits archs ([] ++ [slot_str "kextcache"])
                (2 * n + 5) w1 ltac:(lia)) as Ha.
  change (Z.of_nat (List.length ([] ++ [slot_str "kextcache"])))
    with (0 + 1) in Ha.
  destruct (rebuild_mkext_archs _ _ _ _ _ _) as [[[[[v j]|]|]|] w2];
    simpl in Ha; try done.
  destruct Ha as [-> ->].
  replace (n + (n + 0) + 5 -
           (List.length archs + (List.length archs + 0)))%nat
    with 5%nat by (unfold n; lia).
  set (pre := slot_str "kextcache" :: arch_args archs).
  change (Z.of_nat (S (List.length (arch_args archs))))
    with (Z.of_nat (List.length pre)).
  unfold wp. cbn [fst snd]. cbn beta iota.
  rewrite (store_at _ pre 4 _ _ eq_refl eq_refl).
  rewrite (store_at _ (pre ++ [slot_str "-l"]) 3 _ _ eq_refl)
    by (rewrite !length_app; simpl; lia).
  destruct (pathcpy (root caches)) as [rp|] eqn:Er; [|done].
  apply pathcpy_Some in Er as ->.
  destruct (pathcat (root caches) (rpath mk)) as [p1|] eqn:E1; [|done].
  rewrite (store_at _ ((pre ++ [slot_str "-l"]) ++ [slot_str "-m"]) 2 _ _
             eq_refl) by (rewrite !length_app; simpl; lia).
  destruct (pathcat (root caches) (exts caches)) as [p2|] eqn:E2; [|done].
  rewrite (store_at _ (((pre ++ [slot_str "-l"]) ++ [slot_str "-m"]) ++
                       [slot_str p1]) 1 _ _ eq_refl)
    by (rewrite !length_app; simpl; lia).
  rewrite (store_at _ ((((pre ++ [slot_str "-l"]) ++ [slot_str "-m"]) ++
                        [slot_str p1]) ++ [slot_str p2]) 0 _ _ eq_refl)
    by (rewrite !length_app; simpl; lia).
  simpl. unfold P, pre.
  unfold pathcat in E1, E2.
  destruct (decide _) in E1; [done|]. destruct (decide _) in E2; [done|].
  injection E1 as <-. injection E2 as <-.
  rewrite app_nil_r, <- !app_assoc. done.
Qed.

End RebuildMkext.

(** X17. The vector of [rebuild_mkext] has room for everything that is
    stored in it, for every number of archs. For caches that [parseDict]
    made from a descriptor whose [Archs], if there, is an array:
    [rebuild_mkext] does not fault, and at the launch of kextcache the
    vector holds ["kextcache"], ["-a"] and the arch for each arch, ["-l"],
    ["-m"], the paths of the mkext and of the Extensions folder, and the
    final null in its last slot. *)
Theorem rebuild_mkext_argv_fits calloc_ok sizeof_cachedPath sizeof_bootCaches
    K sizeof_ptr max_repr_size bcDict rootpath volUUID volName caches archs
    w :
  parseDict calloc_ok sizeof_cachedPath sizeof_bootCaches bcDict rootpath
    volUUID volName = Parsed caches →
  archs_of bcDict = Some archs →
  fills (rebuild_mkext_argv K sizeof_ptr max_repr_size caches w).1
    (λ v, ∃ i mk,
       mkext caches = Some i ∧ rpspaths caches !! i = Some mk ∧
       v = [slot_str "kextcache"] ++ arch_args archs ++
           [slot_str "-l"; slot_str "-m";
            slot_str (root caches +:+ rpath mk);
            slot_str (root caches +:+ exts caches); slot_null]).
Proof.
  intros Hp Ha.
  apply parseDict_mkext in Hp as (_ & _ & Hc & Hm & Hi).
  unfold rebuild_mkext_argv. rewrite Hc.
  unfold archs_of in Ha. unfold has_MKext in Hm.
  destruct (bcDict !! kBCPostBootKey) as [[| |pb|]|]; try done.
  destruct (pb !! kBCMKextKey) as [[| |mkDict|]|]; try done.
  destruct (mkext caches) as [i|] eqn:Em;
    [|destruct Hm as [Hm _]; by specialize (Hm eq_refl)].
  destruct (Hi i eq_refl) as [mk Hmk].
  assert (Hfill : ∀ w1,
    fills (rebuild_mkext_fill K sizeof_ptr max_repr_size caches archs w1).1
      (λ v, ∃ i0 mk0,
         Some i = Some i0 ∧ rpspaths caches !! i0 = Some mk0 ∧
         v = [slot_str "kextcache"] ++ arch_args archs ++
             [slot_str "-l"; slot_str "-m";
              slot_str (root caches +:+ rpath mk0);
              slot_str (root caches +:+ exts caches); slot_null])).
  { intros w1.
    pose proof (rebuild_mkext_fill_fits K sizeof_ptr max_repr_size caches
                  archs mk w1) as Hf.
    rewrite Em in Hf. specialize (Hf Hmk).
    destruct (rebuild_mkext_fill _ _ _ _ _ _) as [[[[v|]|]|] w2];
      simpl in *; try done.
    exists i, mk. done. }
  destruct (mkDict !! kBCArchsKey) as [[| | |]|]; try done.
  - injection Ha as ->.
    match goal with
    | |- fills (?m w).1 ?P => change (wp m w (λ o _, fills o P))
    end.
    apply wp_bind, wp_malloc. intros p w1.
    destruct (decide _); [done|]. apply Hfill.
  - injection Ha as <-. apply Hfill.
Qed.

(** X17 on the descriptor of the demonstration, with its two archs. *)
Lemma rebuild_mkext_argv_fits_witness :
  ∃ c,
    parseDict demo_calloc demo_sizeof_cachedPath demo_sizeof_bootCaches
      demo_bcDict "/Volumes/host" (Some "UUID") "Host" = Parsed c ∧
    archs_of demo_bcDict = Some [PString "ppc"; PString "i386"] ∧
    fills (rebuild_mkext_argv (fs_kernel demo_fs) 8 (λ s, strlen s + 1) c
             demo_world).1
      (λ v, ∃ i mk,
         mkext c = Some i ∧ rpspaths c !! i = Some mk ∧
         v = [slot_str "kextcache"] ++
             arch_args [PString "ppc"; PString "i386"] ++
             [slot_str "-l"; slot_str "-m";
              slot_str (root c +:+ rpath mk);
              slot_str (root c +:+ exts c); slot_null]).
Proof.
  eexists. split; [vm_compute; reflexivity|]. split; [reflexivity|].
  exact (rebuild_mkext_argv_fits demo_calloc demo_sizeof_cachedPath
           demo_sizeof_bootCaches (fs_kernel demo_fs) 8
           (λ s, strlen s + 1) demo_bcDict "/Volumes/host"
           (Some "UUID") "Host" _
           [PString "ppc"; PString "i386"] demo_world eq_refl eq_refl).
Defined.

(** The vector of the witness. *)
Example rebuild_mkext_argv_runs :
  ∃ c,
    parseDict demo_calloc demo_sizeof_cachedPath demo_sizeof_bootCaches
      demo_bcDict "/Volumes/host" (Some "UUID") "Host" = Parsed c ∧
    (rebuild_mkext_argv (fs_kernel demo_fs) 8 (λ s, strlen s + 1) c
       demo_world).1
    = Ret (Done (Some
        [slot_str "kextcache"; slot_str "-a"; slot_str "ppc";
         slot_str "-a"; slot_str "i386"; slot_str "-l"; slot_str "-m";
         slot_str "/Volumes/host/System/Library/Extensions.mkext";
         slot_str "/Volumes/host/System/Library/Extensions"; slot_null])).
Proof. eexists. split; vm_compute; reflexivity. Qed.

(** ** safecalls.c: what [scopyfile] copies *)

Lemma no_io_bytes evs :
  Forall no_io evs → bytes_read evs = 0 ∧ bytes_written evs = 0.
Proof.
  induction 1 as [|e evs He _ [IH1 IH2]]; [done|].
  unfold bytes_read, bytes_written, no_io in *. simpl.
  destruct (ev_call e); done.
Qed.

Lemma no_io_on sd dd evs : Forall no_io evs → Forall (io_on sd dd) evs.
Proof.
  intros H. eapply Forall_impl; [exact H|]. intros e. unfold no_io, io_on.
  by destruct (ev_call e).
Qed.

Lemma bytes_read_app a b : bytes_read (a ++ b) = bytes_read a + bytes_read b.
Proof.
  unfold bytes_read. induction a as [|e a IH]; simpl; [done|].
  destruct (ev_call e); lia.
Qed.

Lemma bytes_written_app a b :
  bytes_written (a ++ b) = bytes_written a + bytes_written b.
Proof.
  unfold bytes_written. induction a as [|e a IH]; simpl; [done|].
  destruct (ev_call e); lia.
Qed.

Lemma probe_no_io e : probe e → no_io e.
Proof. unfold probe, no_io. by destruct (ev_call e). Qed.

Section Copy.
Variable K : Kernel.

Lemma sys_fd_wp fd c d w Q :
  fd_lookup w fd = Some d →
  (∀ r w', trace w' = trace w ++ [mkEvent (cwd w) (c d)] →
           fdtab w' = fdtab w → Q (Ret r) w') →
  wp (sys_fd K fd c) w Q.
Proof.
  intros Hl HQ. unfold wp, sys_fd, sys_int. rewrite Hl.
  destruct (k_int K w (c d)); by apply HQ.
Qed.

(** The copy loop, when it reports that every block went through, has
    read and written [bytesLeft] bytes. *)
Lemma scopyfile_loop_copies srcfd dstfd sd dd n : ∀ b w,
  fd_lookup w srcfd = Some sd → fd_lookup w dstfd = Some dd →
  wp (scopyfile_loop K n srcfd dstfd b) w (λ o w',
    match o with
    | Ret true =>
        ∃ new, trace w' = trace w ++ new ∧ fdtab w' = fdtab w ∧
               Forall (io_on sd dd) new ∧
               bytes_read new = Z.max 0 b ∧ bytes_written new = Z.max 0 b
    | _ => True
    end).
Proof.
  induction n as [|n IH]; intros b w Hs Hd; simpl.
  - destruct (decide (b > 0)); [done|]. apply wp_ret.
    exists []. rewrite app_nil_r. repeat split; try done; simpl; lia.
  - destruct (decide (b > 0)) as [Hb|Hb].
    2:{ apply wp_ret. exists []. rewrite app_nil_r.
        repeat split; try done; simpl; lia. }
    apply wp_bind, (sys_fd_wp _ _ sd); [done|]. intros r w1 T1 F1.
    destruct (decide _); [by apply wp_ret|].
    apply wp_bind, (sys_fd_wp _ _ dd); [by rewrite (fd_lookup_tab w w1)|].
    intros r2 w2 T2 F2.
    destruct (decide _); [by apply wp_ret|].
    assert (Hs2 : fd_lookup w2 srcfd = Some sd)
      by (by rewrite (fd_lookup_tab w1 w2), (fd_lookup_tab w w1)).
    assert (Hd2 : fd_lookup w2 dstfd = Some dd)
      by (by rewrite (fd_lookup_tab w1 w2), (fd_lookup_tab w w1)).
    specialize (IH (b - Z.min b MAXBSIZE) w2 Hs2 Hd2). unfold wp in *.
    destruct (scopyfile_loop K n srcfd dstfd _ w2) as [[[]|] w3];
      simpl in *; try done.
    destruct IH as (new & T3 & F3 & Hio & Hr & Hw).
    exists ([mkEvent (cwd w) (SysRead sd (Z.min b MAXBSIZE));
             mkEvent (cwd w1) (SysWrite dd (Z.min b MAXBSIZE))] ++ new).
    split; [rewrite T3, T2, T1, <- !app_assoc; done|].
    split; [congruence|].
    split; [repeat constructor; done|].
    rewrite bytes_read_app, bytes_written_app, Hr, Hw.
    assert (0 < MAXBSIZE) by done.
    unfold bytes_read, bytes_written. simpl. lia.
Qed.

Lemma sdeepmkdir_rec_no_io fdvol mode w0 n : ∀ path w Q,
  ext no_io w0 w →
  (∀ o w', ext no_io w0 w' → Q o w') →
  wp (sdeepmkdir_rec K n fdvol path mode) w Q.
Proof.
  induction n as [|n IH]; intros path w Q Hext HQ; simpl.
  - by apply HQ.
  - destruct (decide (strlen path = 0)); [by apply wp_ret, HQ|].
    apply wp_bind, (sys_stat_spec K no_io _ w0); [done|done|].
    intros [sb|] w1 E1 C1 T1.
    + destruct (decide _); by apply wp_ret, HQ.
    + apply wp_bind, get_errno_spec.
      destruct (decide _); [by apply wp_ret, HQ|].
      destruct (pathcpy (dirname path)) as [parent|]; [|by apply wp_ret, HQ].
      apply wp_bind, IH; [done|].
      intros [bsderr|] w2 E2; [|by apply HQ].
      destruct (decide _); [by apply wp_ret, HQ|].
      apply (scoped_int_spec K no_io fdvol path (λ ch, SysMkdir ch mode) w0);
        [done|apply probe_no_io|done|].
      intros r w3 E3 _. by apply HQ.
Qed.

Lemma close_trace fd w Q :
  (∀ r w', trace w' = trace w → Q (Ret r) w') →
  wp (if decide (fd ≠ -1) then sys_close fd else mret 0) w Q.
Proof.
  intros HQ. destruct (decide _); [|by apply wp_ret, HQ].
  unfold wp, sys_close. destruct (fd_lookup w fd); by apply HQ.
Qed.

Lemma scopyfile_body_copies srcfdvol srcpath dstfdvol dstpath w :
  wp (scopyfile_body K srcfdvol srcpath dstfdvol dstpath) w (λ o w',
    match o with
    | Ret (bsderr, _, _) => bsderr = 0 → copied srcpath dstpath w w'
    | Diverge => True
    end).
Proof.
  unfold scopyfile_body.
  apply wp_bind, (sopen_spec K no_io _ _ _ _ w);
    [apply ext_refl|apply probe_no_io|done|].
  intros srcfd w1 E1 Hsrc.
  destruct (decide (srcfd = -1)); [by apply wp_ret|].
  destruct Hsrc as [?|(sdino & sino & _ & _ & _ & Hls & _)]; [done|].
  set (sd := mkFdesc sino sdino (basename srcpath)) in *.
  apply wp_bind, sys_fstat_spec. intros sb w2 T2 C2 R2 Hsb.
  rewrite Hls in Hsb. simpl in Hsb. subst sb.
  assert (E2 : ext no_io w1 w2)
    by (eapply ext_same; [apply ext_refl|done..]).
  cbv zeta.
  destruct (pathcpy (dirname dstpath)) as [dstparent|]; [|by apply wp_ret].
  apply wp_bind, (sdeepmkdir_rec_no_io _ _ w1); [done|].
  intros [r|] w3 E3; [|done].
  destruct (decide (r ≠ 0)); [by apply wp_ret|].
  apply wp_bind, (scoped_int_spec K no_io _ _ SysUnlink w1);
    [done|apply probe_no_io|done|].
  intros u w4 E4 _.
  apply wp_bind, (sopen_spec K no_io _ _ _ _ w1);
    [done|apply probe_no_io|done|].
  intros dstfd w5 E5 Hdst.
  destruct (decide (dstfd = -1)); [by apply wp_ret|].
  destruct Hdst as [?|(ddino & dino & _ & _ & _ & Hld & _)]; [done|].
  set (dd := mkFdesc dino ddino (basename dstpath)) in *.
  apply wp_bind, (sys_malloc_spec K no_io _ w1); [done|done|].
  intros buf w6 E6 T6.
  destruct (decide (buf = 0)); [by apply wp_ret|].
  assert (Hs6 : fd_lookup w6 srcfd = Some sd)
    by (by apply (fd_lookup_ext no_io w1)).
  assert (Hd6 : fd_lookup w6 dstfd = Some dd)
    by (by rewrite (fd_lookup_tab w5 w6)).
  apply wp_bind. unfold wp at 1.
  pose proof (scopyfile_loop_copies srcfd dstfd sd dd
                (Z.to_nat (st_size sino / MAXBSIZE) + 1) (st_size sino) w6
                Hs6 Hd6) as HL.
  unfold wp in HL.
  destruct (scopyfile_loop K _ srcfd dstfd _ w6) as [[ok|] w7];
    simpl in *; [|done].
  destruct ok; simpl; [|by apply wp_ret].
  destruct HL as (newL & T7 & F7 & Hio & Hr & Hw).
  apply wp_bind, (sys_fd_wp _ _ dd); [by rewrite (fd_lookup_tab w6 w7)|].
  intros bsderr w8 T8 F8. apply wp_ret. intros _.
  destruct E1 as [_ (newA & TA & FA)].
  destruct E6 as [_ (newB & TB & FB)].
  exists (newA ++ newB ++ newL ++ [mkEvent (cwd w7) (SysFchmod dd (st_mode sino))]),
    sd, dd.
  split; [rewrite T8, T7, TB, TA, <- !app_assoc; done|].
  split; [done|]. split; [done|].
  destruct (no_io_bytes _ FA) as [RA WA].
  destruct (no_io_bytes _ FB) as [RB WB].
  split.
  { repeat (apply Forall_app; split); auto using no_io_on.
    by repeat constructor. }
  rewrite !bytes_read_app, !bytes_written_app, RA, RB, WA, WB, Hr, Hw.
  unfold bytes_read, bytes_written. simpl. split; lia.
Qed.

End Copy.

(** X18. When [scopyfile] returns 0, it has read from one descriptor,
    opened under the base name of the source, as many bytes as [fstat]
    reported for it, and has written as many to one descriptor, opened
    under the base name of the destination; no other [read] or [write]
    was made. *)
Theorem scopyfile_copies_size K srcfdvol srcpath dstfdvol dstpath w :
  let r := scopyfile K srcfdvol srcpath dstfdvol dstpath w in
  r.1 = Ret 0 →
  ∃ new sd dd,
    trace r.2 = trace w ++ new ∧
    fd_path sd = basename srcpath ∧ fd_path dd = basename dstpath ∧
    Forall (io_on sd dd) new ∧
    bytes_read new = Z.max 0 (st_size (fd_ino sd)) ∧
    bytes_written new = Z.max 0 (st_size (fd_ino sd)).
Proof.
  cbv zeta.
  change (wp (scopyfile K srcfdvol srcpath dstfdvol dstpath) w
            (λ o w', o = Ret 0 → copied srcpath dstpath w w')).
  unfold scopyfile.
  apply wp_bind. unfold wp at 1.
  pose proof (scopyfile_body_copies K srcfdvol srcpath dstfdvol dstpath w)
    as HB.
  unfold wp in HB.
  destruct (scopyfile_body K _ _ _ _ w) as [[[[bsderr srcfd] dstfd]|] w1];
    simpl in *; [|done].
  apply wp_bind, close_trace. intros _ w2 T2.
  apply wp_bind, close_trace. intros _ w3 T3.
  apply wp_ret. intros [= ->].
  destruct (HB eq_refl) as (new & sd & dd & T1 & H).
  exists new, sd, dd. split; [congruence|done].
Qed.

(** X18 on the copy of the EFI booter of the host to the helper. *)
Lemma scopyfile_copies_size_witness :
  let r := scopyfile (fs_kernel demo_fs_dirs) 0 ("/Volumes/host" +:+ kBootEFI)
             1 ("/Volumes/boot" +:+ kBootEFI) demo_world in
  r.1 = Ret 0 ∧
  ∃ new sd dd,
    trace r.2 = trace demo_world ++ new ∧
    fd_path sd = basename ("/Volumes/host" +:+ kBootEFI) ∧
    fd_path dd = basename ("/Volumes/boot" +:+ kBootEFI) ∧
    Forall (io_on sd dd) new ∧
    bytes_read new = Z.max 0 (st_size (fd_ino sd)) ∧
    bytes_written new = Z.max 0 (st_size (fd_ino sd)).
Proof.
  cbv zeta. split; [vm_compute; reflexivity|].
  apply (scopyfile_copies_size (fs_kernel demo_fs_dirs) 0
           ("/Volumes/host" +:+ kBootEFI) 1
           ("/Volumes/boot" +:+ kBootEFI) demo_world).
  vm_compute. reflexivity.
Defined.

(** The run of the witness: the 5000 bytes of the booter. *)
Example scopyfile_runs :
  let r := scopyfile (fs_kernel demo_fs_dirs) 0 ("/Volumes/host" +:+ kBootEFI)
             1 ("/Volumes/boot" +:+ kBootEFI) demo_world in
  r.1 = Ret 0 ∧ bytes_read (trace r.2) = 5000 ∧
  bytes_written (trace r.2) = 5000.
Proof. cbv zeta. repeat split; vm_compute; reflexivity. Qed.

(** ** bootcaches.c: an [MKext] without [Path] *)

Section MkextPath.
Variable calloc_ok : Z → Z → bool.
Variable sizeof_cachedPath : Z.
Variable sizeof_bootCaches : Z.

Lemma parse_postboot_crash bcDict c kc :
  match parse_postboot calloc_ok sizeof_cachedPath bcDict c kc with
  | inl false =>
      ∃ pb mk, bcDict !! kBCPostBootKey = Some (PDict pb) ∧
               pb !! kBCMKextKey = Some (PDict mk) ∧
               mk !! kBCPathKey = None
  | inl true => True
  | inr _ =>
      ∀ pb mk, bcDict !! kBCPostBootKey = Some (PDict pb) →
               pb !! kBCMKextKey = Some (PDict mk) →
               mk !! kBCPathKey ≠ None
  end.
Proof.
  unfold parse_postboot.
  destruct (bcDict !! kBCPostBootKey) as [[| |d|]|]; try done.
  destruct (parse_paths_array _ _ _ _ _) as [[[[nn paths] idx] b]|]; [|done].
  assert (Hmk : ∀ cp0 mk,
    match parse_mkext c mk cp0 with
    | inl false => mk !! kBCPathKey = None
    | inl true => True
    | inr _ => mk !! kBCPathKey ≠ None
    end).
  { intros cp0 mk. unfold parse_mkext.
    destruct (mk !! kBCPathKey) as [[| | |]|]; try done.
    destruct (str2cachedPath _ _ _); [|done].
    destruct (mk !! kBCExtensionsDirKey) as [[| | |]|]; try done.
    destruct (decide _); [done|].
    destruct (strlcat_path _ _) as [[] ?]; done. }
  destruct (d !! kBCBootConfigKey) as [[| | |]|]; try done.
  - destruct (str2cachedPath _ _ _); [|done].
    destruct (d !! kBCMKextKey) as [[| |mk|]|] eqn:Ek; try done.
    + match goal with
      | |- context [parse_mkext c mk ?cp0] => specialize (Hmk cp0 mk)
      end.
      destruct (parse_mkext _ _ _) as [[]|[cp ex]]; try done.
      * by exists d, mk.
      * intros pb mk' [= <-]. rewrite Ek. by intros [= <-].
    + intros pb mk' [= <-]. by rewrite Ek.
  - destruct (d !! kBCMKextKey) as [[| |mk|]|] eqn:Ek; try done.
    + match goal with
      | |- context [parse_mkext c mk ?cp0] => specialize (Hmk cp0 mk)
      end.
      destruct (parse_mkext _ _ _) as [[]|[cp ex]]; try done.
      * by exists d, mk.
      * intros pb mk' [= <-]. rewrite Ek. by intros [= <-].
    + intros pb mk' [= <-]. by rewrite Ek.
Qed.

(** X19. [parseDict] calls [CFGetTypeID] on the [Path] of the [MKext]
    without testing that it is there. It crashes only for this reason:
    the descriptor has, under [PostBootPaths], an [MKext] dictionary
    without [Path]; and of such a descriptor it never makes a structure
    (it crashes, unless it has rejected the descriptor before it comes to
    the [MKext]). *)
Theorem parseDict_mkext_without_path bcDict rootpath volUUID volName :
  let r := parseDict calloc_ok sizeof_cachedPath sizeof_bootCaches bcDict
             rootpath volUUID volName in
  (r = Crashed →
   ∃ pb mk, bcDict !! kBCPostBootKey = Some (PDict pb) ∧
            pb !! kBCMKextKey = Some (PDict mk) ∧
            mk !! kBCPathKey = None) ∧
  (∀ pb mk, bcDict !! kBCPostBootKey = Some (PDict pb) →
            pb !! kBCMKextKey = Some (PDict mk) →
            mk !! kBCPathKey = None →
            ∀ c, r ≠ Parsed c).
Proof.
  cbv zeta. unfold parseDict.
  destruct (negb _); [done|].
  destruct (pathcpy rootpath); [|done].
  destruct volUUID; [|done].
  destruct (decide _); [done|].
  destruct (parse_preboot _ _ _ _ _) as [[c1 kc1]|]; [|done].
  destruct (parse_booters _ _ _) as [[c2 kc2]|]; [|done].
  pose proof (parse_postboot_crash bcDict c2 kc2) as H.
  destruct (parse_postboot _ _ _ _ _) as [[]|[c3 kc3]]; [done|done|].
  destruct (decide _); [done|]. split; [done|].
  intros pb mk H1 H2 H3 c _. by apply (H pb mk).
Qed.

End MkextPath.

(** X19 on a descriptor whose [MKext] has the Extensions folder and no
    [Path]. *)
Example parseDict_crash_runs :
  parseDict demo_calloc demo_sizeof_cachedPath demo_sizeof_bootCaches
    demo_bcDict_nopath "/Volumes/host" (Some "UUID") "Host" = Crashed.
Proof. vm_compute. reflexivity. Qed.

(** ** bootcaches.c: the times of a bootstamp *)

Lemma applyStamp_futimes K root cp fdvol w :
  ext (stamps_with (tstamps cp)) w (applyStamp K root cp fdvol w).2.
Proof.
  set (P := stamps_with (tstamps cp)).
  assert (HP : ∀ e, probe e → P e).
  { intros e He d a m Hc. unfold probe in He. rewrite Hc in He. done. }
  change (wp (applyStamp K root cp fdvol) w (λ _ w', ext P w w')).
  unfold applyStamp.
  destruct (pathcpy root); [|apply wp_ret, ext_refl].
  destruct (pathcat _ _); [|apply wp_ret, ext_refl].
  apply wp_bind, (scoped_int_spec K P _ _ SysUnlink w);
    [apply ext_refl|done|done|].
  intros _ w1 E1 _.
  apply wp_bind, (sopen_spec K P _ _ _ _ w); [done|done|done|].
  intros fd w2 E2 _.
  destruct (decide (fd = -1)); [by apply wp_ret|].
  apply (sys_fd_spec K P _ _ w); [done| |done].
  intros d _ d' a m [= _ <- <-]. done.
Qed.

(** X20. When the source of a cached path is there, [needsUpdate] records
    its access and modification times in the path, the nanoseconds
    turned into microseconds, whatever it finds of the bootstamp; and
    every [futimes] that [applyStamp] then makes for that path sets the
    bootstamp to these times. *)
Theorem stamp_gets_source_times K root cp outofdate w rsb fdvol w' :
  strlen root + strlen (rpath cp) < PATH_MAX →
  strlen root + strlen (tspath cp) < PATH_MAX →
  k_stat K w (root +:+ rpath cp) = Ok rsb →
  let times :=
    ((tv_sec (st_atimespec rsb), tv_nsec (st_atimespec rsb) `quot` 1000),
     (tv_sec (st_mtimespec rsb), tv_nsec (st_mtimespec rsb) `quot` 1000)) in
  ∃ r cp' ood,
    (needsUpdate K root cp outofdate w).1 = Ret (r, cp', ood) ∧
    cp' = set_tstamps times cp ∧
    ext (stamps_with times) w' (applyStamp K root cp' fdvol w').2.
Proof.
  intros H1 H2 Hs times.
  pose proof (strlen_nonneg root). pose proof (strlen_nonneg (rpath cp)).
  assert (Hn : ∃ r ood, (needsUpdate K root cp outofdate w).1
                        = Ret (r, set_tstamps times cp, ood)).
  { unfold needsUpdate.
    rewrite (pathcpy_fits root) by lia.
    rewrite !pathcat_fits by done.
    unfold mbind, M_bind, sys_stat at 1. rewrite Hs. cbv zeta.
    fold times.
    destruct (sys_stat K (root +:+ tspath cp) _) as [[[tsb|]|] w2] eqn:Et;
      simpl.
    - by eexists _, _.
    - unfold get_errno. simpl. destruct (decide _); by eexists _, _.
    - exfalso. rewrite sys_stat_eq in Et. done. }
  destruct Hn as (r & ood & Hn).
  exists r, (set_tstamps times cp), ood. split; [done|]. split; [done|].
  apply (applyStamp_futimes K root (set_tstamps times cp) fdvol w').
Qed.

(** X20 on the BootX of the host, whose times are 600 s and 7 ns. *)
Lemma stamp_gets_source_times_witness :
  let times := ((600, 0), (600, 0)) in
  ∃ r cp' ood,
    (needsUpdate (fs_kernel demo_fs_stampdir) "/Volumes/host" demo_cpath true
       demo_world).1 = Ret (r, cp', ood) ∧
    cp' = set_tstamps times demo_cpath ∧
    ext (stamps_with times) demo_world
      (applyStamp (fs_kernel demo_fs_stampdir) "/Volumes/host" cp' 0
         demo_world).2.
Proof.
  cbv zeta.
  apply (stamp_gets_source_times (fs_kernel demo_fs_stampdir) "/Volumes/host"
           demo_cpath true demo_world
           (file_inode 1 23 3000 (mkTimespec 600 7)) 0 demo_world);
    vm_compute; reflexivity.
Defined.

Lemma wp_step {A B} (m : M A) (f : A → M B) w Q :
  (∀ a w', wp (f a) w' Q) → (∀ w', Q Diverge w') → wp (m ≫= f) w Q.
Proof.
  intros Hf Hd. apply wp_bind. unfold wp at 1.
  destruct (m w) as [[a|] w']; simpl; auto.
Qed.

Lemma close_same fd w Q :
  (∀ r w', trace w' = trace w → cwd w' = cwd w → Q (Ret r) w') →
  wp (if decide (fd ≠ -1) then sys_close fd else mret 0) w Q.
Proof.
  intros HQ. destruct (decide _); [|by apply wp_ret, HQ].
  unfold wp, sys_close. destruct (fd_lookup w fd); by apply HQ.
Qed.

(** *** [srename] *)

(** X22. [srename] renames within one directory: whatever the kernel
    answers, the only calls it makes are the [open]s and [fchdir]s by which
    it finds its way, and at most a [rename] of the base name of
    [oldpath] to the base name of [newpath], issued in the directory that
    opening [dirname(oldpath)] gave. The directory part of [newpath] plays
    no role. *)
Theorem srename_in_directory K fdvol oldpath newpath w :
  ext (renames_in K w oldpath newpath) w
    (srename K fdvol oldpath newpath w).2.
Proof.
  change (wp (srename K fdvol oldpath newpath) w
            (λ _ w', ext (renames_in K w oldpath newpath) w w')).
  unfold srename.
  destruct (pathcpy (basename newpath)) as [newname|] eqn:Hn;
    [|apply wp_ret, ext_refl].
  apply pathcpy_Some in Hn. subst newname.
  apply (scoped_int_spec K (renames_in K w oldpath newpath) fdvol oldpath
           (λ ch, SysRename ch (basename newpath)) w).
  - apply ext_refl.
  - intros [cw c]. unfold probe, renames_in. simpl. by destruct c.
  - intros dino Hk _. unfold renames_in. simpl. done.
  - intros r w' E _. done.
Qed.

(** *** The modes of a copy *)

Section CopyModes.
Variable K : Kernel.

Lemma probe_modes_from m e : probe e → modes_from m e.
Proof.
  unfold probe, modes_from. destruct (ev_call e); try done. by left.
Qed.

Lemma sdeepmkdir_rec_modes fdvol m w0 n : ∀ path w Q,
  ext (modes_from m) w0 w →
  (∀ o w', ext (modes_from m) w0 w' → Q o w') →
  wp (sdeepmkdir_rec K n fdvol path (scopyfile_dirmode m)) w Q.
Proof.
  induction n as [|n IH]; intros path w Q Hext HQ; simpl.
  - by apply HQ.
  - destruct (decide (strlen path = 0)); [by apply wp_ret, HQ|].
    apply wp_bind, (sys_stat_spec K (modes_from m) _ w0); [done|done|].
    intros [sb|] w1 E1 C1 T1.
    + destruct (decide _); by apply wp_ret, HQ.
    + apply wp_bind, get_errno_spec.
      destruct (decide _); [by apply wp_ret, HQ|].
      destruct (pathcpy (dirname path)) as [parent|]; [|by apply wp_ret, HQ].
      apply wp_bind, IH; [done|].
      intros [bsderr|] w2 E2; [|by apply HQ].
      destruct (decide _); [by apply wp_ret, HQ|].
      apply (scoped_int_spec K (modes_from m) fdvol path
               (λ ch, SysMkdir ch (scopyfile_dirmode m)) w0);
        [done|apply probe_modes_from|done|].
      intros r w3 E3 _. by apply HQ.
Qed.

Lemma scopyfile_loop_modes m srcfd dstfd w0 n : ∀ b w Q,
  ext (modes_from m) w0 w →
  (∀ o w', ext (modes_from m) w0 w' → fdtab w' = fdtab w → Q o w') →
  wp (scopyfile_loop K n srcfd dstfd b) w Q.
Proof.
  induction n as [|n IH]; intros b w Q Hext HQ; simpl.
  - destruct (decide (b > 0)); [by apply HQ|]. by apply wp_ret, HQ.
  - destruct (decide (b > 0)); [|by apply wp_ret, HQ].
    apply wp_bind, (sys_fd_spec K (modes_from m) _ _ w0); [done|done|].
    intros r w1 E1 _ T1 _.
    destruct (decide _); [by apply wp_ret, HQ|].
    apply wp_bind, (sys_fd_spec K (modes_from m) _ _ w0); [done|done|].
    intros r2 w2 E2 _ T2 _.
    destruct (decide _); [apply wp_ret, HQ; [done|congruence]|].
    apply IH; [done|]. intros o w3 E3 T3. apply HQ; [done|congruence].
Qed.

Lemma scopyfile_body_modes srcfdvol srcpath dstfdvol dstpath w :
  wp (scopyfile_body K srcfdvol srcpath dstfdvol dstpath) w (λ o w',
    match o with
    | Ret (bsderr, _, _) =>
        bsderr = 0 → copied_modes K srcpath dstpath w w'
    | Diverge => True
    end).
Proof.
  unfold scopyfile_body.
  apply wp_bind, (sopen_spec K probe _ _ _ _ w);
    [apply ext_refl|done|done|].
  intros srcfd w1 E1 Hsrc.
  destruct (decide (srcfd = -1)); [by apply wp_ret|].
  destruct Hsrc as [?|(sdino & sino & _ & _ & _ & Hls & _)]; [done|].
  set (sd := mkFdesc sino sdino (basename srcpath)) in *.
  apply wp_bind, sys_fstat_spec. intros sb w2 T2 C2 R2 Hsb.
  rewrite Hls in Hsb. simpl in Hsb. subst sb.
  set (m := st_mode sino).
  assert (E2 : ext (modes_from m) w1 w2)
    by (eapply ext_same; [apply ext_refl|done..]).
  cbv zeta. fold (scopyfile_dirmode m).
  destruct (pathcpy (dirname dstpath)) as [dstparent|]; [|by apply wp_ret].
  apply wp_bind, (sdeepmkdir_rec_modes _ _ w1); [done|].
  intros [r|] w3 E3; [|done].
  destruct (decide (r ≠ 0)); [by apply wp_ret|].
  apply wp_bind, (scoped_int_spec K (modes_from m) _ _ SysUnlink w1);
    [done|apply probe_modes_from|done|].
  intros u w4 E4 _.
  apply wp_bind, (sopen_spec K (modes_from m) _ _ _ _ w1);
    [done|apply probe_modes_from|intros; by right|].
  intros dstfd w5 E5 Hdst.
  destruct (decide (dstfd = -1)); [by apply wp_ret|].
  destruct Hdst as [?|(ddino & dino & _ & _ & _ & Hld & wk & _ & Hk)];
    [done|].
  set (dd := mkFdesc dino ddino (basename dstpath)) in *.
  apply wp_bind, (sys_malloc_spec K (modes_from m) _ w1); [done|done|].
  intros buf w6 E6 T6.
  destruct (decide (buf = 0)); [by apply wp_ret|].
  apply wp_bind, (scopyfile_loop_modes m _ _ w1); [done|].
  intros [ok|] w7 E7 T7; [|done].
  destruct ok; simpl; [|by apply wp_ret].
  apply wp_bind, (sys_fd_wp K _ _ dd);
    [by rewrite (fd_lookup_tab w6 w7), (fd_lookup_tab w5 w6)|].
  intros bsderr w8 T8 F8. apply wp_ret. intros _.
  destruct E1 as [_ (newA & TA & FA)].
  destruct E7 as [_ (newB & TB & FB)].
  exists (newA ++ newB ++ [mkEvent (cwd w7) (SysFchmod dd m)]), sd, dd,
    (mkEvent (cwd w7) (SysFchmod dd m)).
  split; [rewrite T8, TB, TA, <- !app_assoc; done|].
  split; [done|]. split; [done|].
  split.
  { repeat (apply Forall_app; split); [| done |by repeat constructor].
    eapply Forall_impl; [exact FA|]. apply probe_modes_from. }
  split; [by rewrite app_assoc, last_snoc|].
  split; [done|]. exists wk. exact Hk.
Qed.

End CopyModes.

(** X21. A [scopyfile] that returns 0 has given the copy the mode of the
    source: with [m] the mode that [fstat] reported for the descriptor
    opened under the base name of the source, every directory it made was
    made with the mode computed from [m] (the permission bits of [m] with
    u+wx, and with g+x and o+x where [m] has g+r and o+r), the only file
    it opened for writing is the destination, which it created with
    [O_CREAT|O_WRONLY|O_EXCL] and mode [m | S_IWUSR], and its last call is
    the [fchmod] of that descriptor to [m]. It renames nothing and removes
    no directory. *)
Theorem scopyfile_modes K srcfdvol srcpath dstfdvol dstpath w :
  let r := scopyfile K srcfdvol srcpath dstfdvol dstpath w in
  r.1 = Ret 0 →
  ∃ new sd dd e,
    trace r.2 = trace w ++ new ∧
    fd_path sd = basename srcpath ∧ fd_path dd = basename dstpath ∧
    Forall (modes_from (st_mode (fd_ino sd))) new ∧
    last new = Some e ∧
    ev_call e = SysFchmod dd (st_mode (fd_ino sd)) ∧
    ∃ w1, k_open K w1 (basename dstpath)
            (Z.lor (Z.lor O_CREAT O_WRONLY) O_EXCL)
            (Z.lor (st_mode (fd_ino sd)) S_IWUSR) = Ok (fd_ino dd).
Proof.
  cbv zeta.
  change (wp (scopyfile K srcfdvol srcpath dstfdvol dstpath) w
            (λ o w', o = Ret 0 → copied_modes K srcpath dstpath w w')).
  unfold scopyfile.
  apply wp_bind. unfold wp at 1.
  pose proof (scopyfile_body_modes K srcfdvol srcpath dstfdvol dstpath w)
    as HB.
  unfold wp in HB.
  destruct (scopyfile_body K _ _ _ _ w) as [[[[bsderr srcfd] dstfd]|] w1];
    simpl in *; [|done].
  apply wp_bind, close_trace. intros _ w2 T2.
  apply wp_bind, close_trace. intros _ w3 T3.
  apply wp_ret. intros [= ->].
  destruct (HB eq_refl) as (new & sd & dd & e & T1 & H).
  exists new, sd, dd, e. split; [congruence|done].
Qed.

(** X21 on the copy of the EFI booter of the host to the helper. *)
Lemma scopyfile_modes_witness :
  let r := scopyfile (fs_kernel demo_fs_dirs) 0 ("/Volumes/host" +:+ kBootEFI)
             1 ("/Volumes/boot" +:+ kBootEFI) demo_world in
  r.1 = Ret 0 ∧
  ∃ new sd dd e,
    trace r.2 = trace demo_world ++ new ∧
    fd_path sd = basename ("/Volumes/host" +:+ kBootEFI) ∧
    fd_path dd = basename ("/Volumes/boot" +:+ kBootEFI) ∧
    Forall (modes_from (st_mode (fd_ino sd))) new ∧
    last new = Some e ∧
    ev_call e = SysFchmod dd (st_mode (fd_ino sd)) ∧
    ∃ w1, k_open (fs_kernel demo_fs_dirs) w1
            (basename ("/Volumes/boot" +:+ kBootEFI))
            (Z.lor (Z.lor O_CREAT O_WRONLY) O_EXCL)
            (Z.lor (st_mode (fd_ino sd)) S_IWUSR) = Ok (fd_ino dd).
Proof.
  cbv zeta. split; [vm_compute; reflexivity|].
  apply (scopyfile_modes (fs_kernel demo_fs_dirs) 0
           ("/Volumes/host" +:+ kBootEFI) 1
           ("/Volumes/boot" +:+ kBootEFI) demo_world).
  vm_compute. reflexivity.
Defined.

(** *** The working directory after a bless that failed *)

Section BlessFailure.
Variable K : Kernel.

Lemma activateBooters_of_rval up w :
  wp (activateBooters_of K up) w (λ o _,
    ∀ rv fd, o = Ret (inl (rv, fd)) → rv = ELAST + 1).
Proof.
  unfold activateBooters_of. cbv zeta.
  repeat first
    [ apply wp_ret; intros; simplify_eq; done
    | apply wp_step; [intros ? ?|done]
    | match goal with
      | |- wp (if ?b then _ else _) _ _ => destruct b
      | |- wp (match ?x with _ => _ end) _ _ => destruct x
      end ].
Qed.

Lemma activateBooters_efi_rval up vinfo0 w :
  wp (activateBooters_efi K up vinfo0) w (λ o _,
    ∀ rv fd, o = Ret (inl (rv, fd)) → rv = ELAST + 1).
Proof.
  unfold activateBooters_efi. cbv zeta.
  repeat first
    [ apply wp_ret; intros; simplify_eq; done
    | apply wp_step; [intros ? ?|done]
    | match goal with
      | |- wp (if ?b then _ else _) _ _ => destruct b
      | |- wp (match ?x with _ => _ end) _ _ => destruct x
      end ].
Qed.

End BlessFailure.

(** X23. [activateBooters] returns [ELAST + 1] for every failure of its
    own; a return value other than 0 and [ELAST + 1] is the error of
    [BLSetVolumeFinderInfo]. In that case the function has changed the
    working directory to the root of the helper and does not change it
    back: the saved directory is closed without a [restoredir]. The
    process is left with its working directory on the device of
    [up->curbootfd], the bless being the last call of the run, and
    [up->changestate] is [activatingEFIBooter]. *)
Theorem activateBooters_bless_failure K up w d rval up' :
  fd_lookup w (curbootfd up) = Some d →
  let r := activateBooters K up w in
  r.1 = Ret (rval, up') → rval ≠ 0 → rval ≠ ELAST + 1 →
  st_dev (cwd r.2) = st_dev (fd_ino d) ∧
  changestate up' = activatingEFIBooter ∧
  ∃ e vinfo, last (trace r.2) = Some e ∧ ev_call e = SysBless "." vinfo ∧
             ev_cwd e = cwd r.2.
Proof.
  intros Hd. cbv zeta. set (D := st_dev (fd_ino d)).
  set (Q := λ (o : outcome (Z * updatingVol)) (w' : World),
         o = Ret (rval, up') → rval ≠ 0 → rval ≠ ELAST + 1 →
         st_dev (cwd w') = D ∧ changestate up' = activatingEFIBooter ∧
         ∃ e vinfo, last (trace w') = Some e ∧
                    ev_call e = SysBless "." vinfo ∧ ev_cwd e = cwd w').
  change (wp (activateBooters K up) w Q).
  assert (Hfail : ∀ fd up1 w1,
    wp ((if decide (fd ≠ -1) then sys_close fd else mret 0);;
        mret (ELAST + 1, up1)) w1 Q).
  { intros fd up1 w1. apply wp_bind, close_same. intros _ w2 _ _.
    apply wp_ret. intros [= <- <-] _ ?. done. }
  unfold activateBooters.
  apply wp_bind. unfold activateBooters_body. cbv zeta.
  apply wp_bind.
  set (up1 := set_changestate activatingOFBooter up).
  pose proof (activateBooters_of_confined K D (curbootfd up) w d Hd eq_refl
                up1 w
                (λ o w', ext (confined D) w w') eq_refl (ext_refl _ _)
                (λ o w' E _, E)) as H1.
  pose proof (activateBooters_of_rval K up1 w) as H2.
  unfold wp in H1, H2 |- * at 1.
  destruct (activateBooters_of K up1 w) as [[[[rv fd]|vinfo0]|] w1];
    simpl in H1, H2 |- *; [|                                   |done].
  { rewrite (H2 rv fd eq_refl). apply wp_ret, Hfail. }
  clear H2. apply wp_bind.
  set (up2 := set_changestate activatingEFIBooter up1).
  pose proof (activateBooters_efi_confined K D (curbootfd up) w
                up2 vinfo0 w1
                (λ o w', ext (confined D) w w') eq_refl H1
                (λ o w' E _, E)) as H3.
  pose proof (activateBooters_efi_rval K up2 vinfo0 w1) as H4.
  unfold wp in H3, H4 |- * at 1.
  destruct (activateBooters_efi K up2 vinfo0 w1) as [[[[rv fd]|[v0 v1]]|] w2];
    simpl in H3, H4 |- *; [|                                   |done].
  { rewrite (H4 rv fd eq_refl). apply wp_ret, Hfail. }
  clear H4.
  apply wp_bind, (schdir_confined K D (curbootfd up) w d Hd eq_refl);
    [done|].
  intros r sd w3 E3 F3 Hc.
  destruct (decide (r ≠ 0)); [apply wp_ret, Hfail|].
  assert (Hc3 : st_dev (cwd w3) = D) by (apply Hc; lia).
  apply wp_bind. unfold wp at 1, sys_bless, sys_int.
  set (vinfo := [v0; v1; 0; 0; 0; 0; 0; 0]).
  destruct (k_int K w3 (SysBless "." vinfo)) as [v|err]; simpl.
  - destruct (decide (v ≠ 0)).
    + apply wp_ret. apply wp_bind, close_same. intros _ w5 T5 C5.
      apply wp_ret. intros [= <- <-] _ _. simpl in *.
      rewrite C5. split; [done|]. split; [done|].
      exists (mkEvent (cwd w3) (SysBless "." vinfo)), vinfo.
      rewrite T5, last_snoc. done.
    + apply wp_step; [|done]. intros _ w5.
      apply wp_ret. apply wp_bind, close_same. intros _ w6 _ _.
      apply wp_ret. intros [= <- <-] ?. lia.
  - apply wp_ret. apply wp_bind, close_same. intros _ w5 T5 C5.
    apply wp_ret. intros [= <- <-] _ _. simpl in *.
    rewrite C5. split; [done|]. split; [done|].
    exists (mkEvent (cwd w3) (SysBless "." vinfo)), vinfo.
    rewrite T5, last_snoc. done.
Qed.

(** X23 on a helper with the EFI booter in place, when the bless fails
    with the error 5 ([EIO]): the process started in the root directory
    (device 0) and is left on the helper (device 2). *)
Lemma activateBooters_bless_failure_witness :
  let K := bless_refused (fs_kernel demo_fs_staged) 5 in
  let up := demo_up_staged "" kBootEFI in
  let r := activateBooters K up demo_world in
  st_dev (cwd demo_world) = 0 ∧
  st_dev (cwd r.2) = 2 ∧
  changestate (set_changestate activatingEFIBooter up) = activatingEFIBooter ∧
  ∃ e vinfo, last (trace r.2) = Some e ∧ ev_call e = SysBless "." vinfo ∧
             ev_cwd e = cwd r.2.
Proof.
  cbv zeta. split; [reflexivity|].
  apply (activateBooters_bless_failure
           (bless_refused (fs_kernel demo_fs_staged) 5)
           (demo_up_staged "" kBootEFI) demo_world
           (mkFdesc (dir_inode 2 2) (dir_inode 0 2) "/Volumes/boot")
           (-1) (set_changestate activatingEFIBooter
                   (demo_up_staged "" kBootEFI))).
  - reflexivity.
  - vm_compute. reflexivity.
  - done.
  - done.
Defined.
